(** * urbanFormPy/simplify.py — cleaning and simplification of a street network

    A shallow embedding of the table operations of [simplify.py] and the
    properties of its cleaning passes.

    Reading conventions for the source:
    - a pandas table is the list of its rows, in table order; an edge row is
      labelled by its [streetID] (the index and the [streetID] column of the
      edge table coincide, as [reset_index_gdf] sets them up); a node row
      carries its index label and its [nodeID] column separately, because
      [duplicate_nodes] distinguishes them;
    - an edge table has the columns 'streetID', 'u', 'v', 'geometry' and
      'pedestrian' (lines 234 and 339 read the last one, and raise [KeyError]
      on a table without it); a row is looked up by its label only in
      tables whose labels are distinct, which the statements say;
    - coordinates are only copied and compared, never computed with: they are
      rationals compared structurally; the length of a line is the double
      that shapely returns, and the code multiplies and compares it as a
      double; shapely's length and the centre line of [utilities] are
      parameters of the development;
    - a raised Python exception is a value [Raise e] of the result type;
    - the tab characters of the source are read at the width at which the
      file lines up (one tab, four columns); nothing else of the source is
      read other than it is written: a name that is bound nowhere raises
      [NameError] where it is read, an item assignment on an object that
      supports none raises [TypeError]. *)

From Stdlib Require Import String ZArith QArith Qabs List Bool Lia Permutation Sorted Floats.
Import ListNotations.
Open Scope Z_scope.

(** ** Exceptions and results *)

Inductive exn : Type :=
| KeyError
| IndexError
| AttributeError
| ValueError
| TypeError
| NameError
| columnError.

Inductive result (A : Type) : Type :=
| Ok (a : A)
| Raise (e : exn).

Arguments Ok {A} a.
Arguments Raise {A} e.

Definition bind {A B : Type} (c : result A) (k : A -> result B) : result B :=
  match c with
  | Ok a => k a
  | Raise e => Raise e
  end.

Notation "x <- c ;; k" := (bind c (fun x => k))
  (at level 61, c at next level, right associativity).
Notation "' pat <- c ;; k" := (bind c (fun x => match x with pat => k end))
  (at level 61, pat pattern, c at next level, right associativity).

(** A [for] loop whose body may raise: the state is threaded through the
    items, the first exception ends the loop. *)
Fixpoint for_each {S I : Type} (body : S -> I -> result S) (items : list I) (s : S)
  : result S :=
  match items with
  | [] => Ok s
  | i :: rest => s' <- body s i ;; for_each body rest s'
  end.

(** ** Geometry *)

Definition coord : Type := (Q * Q)%type.

(** A shapely [LineString] is its coordinate sequence; a [Point] is one
    coordinate pair. *)
Definition LineString : Type := list coord.

Definition Q_eqb (a b : Q) : bool :=
  (Qnum a =? Qnum b) && (Pos.eqb (Qden a) (Qden b)).

Definition coord_eqb (a b : coord) : bool :=
  Q_eqb (fst a) (fst b) && Q_eqb (snd a) (snd b).

Fixpoint line_eqb (a b : LineString) : bool :=
  match a, b with
  | [], [] => true
  | p :: a', q :: b' => coord_eqb p q && line_eqb a' b'
  | _, _ => false
  end.

(** ** Rows *)

Record Node : Type := mkNode {
  n_index : Z;          (* index label of the row *)
  nodeID : Z;
  n_geometry : coord;   (* Point *)
  n_x : Q;
  n_y : Q
}.

(** A cell of the scratch column 'coords'. *)
Inductive coords_cell : Type :=
| Empty                          (* None *)
| Coordinates (l : list coord)   (* a list of coordinate pairs *)
| Number.                        (* a number of numpy *)

Record Edge : Type := mkEdge {
  streetID : Z;                    (* also the index label of the row *)
  e_u : Z;
  e_v : Z;
  e_geometry : LineString;
  e_highway : option string;       (* None: no value (or no such column) *)
  e_pedestrian : Z;                (* column 'pedestrian' *)
  e_attrs : list (string * Z);     (* further int64 columns, e.g. densities *)
  e_code : option (Z * Z);         (* scratch column 'code': the string a-b *)
  e_coords : coords_cell;          (* scratch column 'coords' *)
  e_length : option float          (* column 'length' *)
}.

Definition set_index (i : Z) (n : Node) : Node :=
  mkNode i (nodeID n) (n_geometry n) (n_x n) (n_y n).
Definition set_xy (n : Node) : Node :=
  mkNode (n_index n) (nodeID n) (n_geometry n) (fst (n_geometry n)) (snd (n_geometry n)).

Definition set_u (a : Z) (e : Edge) : Edge :=
  mkEdge (streetID e) a (e_v e) (e_geometry e) (e_highway e) (e_pedestrian e)
         (e_attrs e) (e_code e) (e_coords e) (e_length e).
Definition set_v (a : Z) (e : Edge) : Edge :=
  mkEdge (streetID e) (e_u e) a (e_geometry e) (e_highway e) (e_pedestrian e)
         (e_attrs e) (e_code e) (e_coords e) (e_length e).
Definition set_geometry (g : LineString) (e : Edge) : Edge :=
  mkEdge (streetID e) (e_u e) (e_v e) g (e_highway e) (e_pedestrian e)
         (e_attrs e) (e_code e) (e_coords e) (e_length e).
Definition set_pedestrian (p : Z) (e : Edge) : Edge :=
  mkEdge (streetID e) (e_u e) (e_v e) (e_geometry e) (e_highway e) p
         (e_attrs e) (e_code e) (e_coords e) (e_length e).
Definition set_attrs (a : list (string * Z)) (e : Edge) : Edge :=
  mkEdge (streetID e) (e_u e) (e_v e) (e_geometry e) (e_highway e) (e_pedestrian e)
         a (e_code e) (e_coords e) (e_length e).
Definition set_code (c : option (Z * Z)) (e : Edge) : Edge :=
  mkEdge (streetID e) (e_u e) (e_v e) (e_geometry e) (e_highway e) (e_pedestrian e)
         (e_attrs e) c (e_coords e) (e_length e).
Definition set_coords (c : coords_cell) (e : Edge) : Edge :=
  mkEdge (streetID e) (e_u e) (e_v e) (e_geometry e) (e_highway e) (e_pedestrian e)
         (e_attrs e) (e_code e) c (e_length e).
Definition set_length (l : option float) (e : Edge) : Edge :=
  mkEdge (streetID e) (e_u e) (e_v e) (e_geometry e) (e_highway e) (e_pedestrian e)
         (e_attrs e) (e_code e) (e_coords e) l.

(** ** Numeric columns addressed by name *)

Fixpoint lookup_attr (c : string) (a : list (string * Z)) : option Z :=
  match a with
  | [] => None
  | (k, z) :: rest => if String.eqb k c then Some z else lookup_attr c rest
  end.

Fixpoint update_attr (c : string) (z : Z) (a : list (string * Z)) : list (string * Z) :=
  match a with
  | [] => [(c, z)]
  | (k, w) :: rest =>
      if String.eqb k c then (k, z) :: rest else (k, w) :: update_attr c z rest
  end.

(** [row[column]]: [KeyError] when the column name is [None] or names no
    column of the row. *)
Definition get_attr (column : option string) (e : Edge) : result Z :=
  match column with
  | None => Raise KeyError
  | Some c =>
      match lookup_attr c (e_attrs e) with
      | Some z => Ok z
      | None => Raise KeyError
      end
  end.

Definition set_attr (c : string) (z : Z) (e : Edge) : Edge :=
  set_attrs (update_attr c z (e_attrs e)) e.

(** ** Label-based access ([.loc], [.at], [.drop]) *)

Definition has_label (i : Z) (e : Edge) : bool := streetID e =? i.

(** [edges_gdf.loc[i]] *)
Definition loc_edge (i : Z) (edges : list Edge) : result Edge :=
  match find (has_label i) edges with
  | Some e => Ok e
  | None => Raise KeyError
  end.

(** [edges_gdf.at[i, column] = value], as the update [f] of the row. *)
Definition at_edge (i : Z) (f : Edge -> Edge) (edges : list Edge) : list Edge :=
  map (fun e => if has_label i e then f e else e) edges.

Definition mem (i : Z) (l : list Z) : bool := existsb (Z.eqb i) l.

(** [edges_gdf.drop(labels, axis = 0)]: every label has to be there. *)
Definition drop_edges (labels : list Z) (edges : list Edge) : result (list Edge) :=
  if forallb (fun i => existsb (has_label i) edges) labels
  then Ok (filter (fun e => negb (mem (streetID e) labels)) edges)
  else Raise KeyError.

Definition loc_node (i : Z) (nodes : list Node) : result Node :=
  match find (fun n => n_index n =? i) nodes with
  | Some n => Ok n
  | None => Raise KeyError
  end.

Definition drop_nodes (labels : list Z) (nodes : list Node) : result (list Node) :=
  if forallb (fun i => existsb (fun n => n_index n =? i) nodes) labels
  then Ok (filter (fun n => negb (mem (n_index n) labels)) nodes)
  else Raise KeyError.

(** ** Sorting and sets *)

Section Sorting.
Variable A : Type.
Variable leb : A -> A -> bool.

Fixpoint insert_sorted (a : A) (l : list A) : list A :=
  match l with
  | [] => [a]
  | b :: rest => if leb a b then a :: l else b :: insert_sorted a rest
  end.

(** Sorting by insertion: rows with equal keys keep their table order
    (pandas sorts with quicksort, which may order equal keys otherwise). *)
Fixpoint sort_rows (l : list A) : list A :=
  match l with
  | [] => []
  | a :: rest => insert_sorted a (sort_rows rest)
  end.
End Sorting.

Arguments insert_sorted {A} leb a l.
Arguments sort_rows {A} leb l.

Fixpoint unique (l : list Z) : list Z :=
  match l with
  | [] => []
  | a :: rest => if mem a rest then unique rest else a :: unique rest
  end.

(** The elements of a Python set of node identifiers, without repetition
    and in ascending order.  (CPython iterates a set in the order of its hash
    slots, which is the ascending order only while every identifier is
    smaller than the size of the table of the set; the properties stated
    over [set_of] below hold for every order of the elements.) *)
Definition set_of (l : list Z) : list Z := sort_rows Z.leb (unique l).

(** ** Degree Classifier: [value_counts] of 'u' plus [value_counts] of 'v' *)

Definition value_count (k : Z) (column : list Z) : Z :=
  Z.of_nat (List.length (filter (Z.eqb k) column)).

Definition dd (edges : list Edge) : list (Z * Z) :=
  map (fun k => (k, value_count k (map e_u edges) + value_count k (map e_v edges)))
      (set_of (map e_u edges ++ map e_v edges)).

Definition with_degree (d : Z) (edges : list Edge) : list Z :=
  map fst (filter (fun kv => snd kv =? d) (dd edges)).

Definition is_nodes_simplified (edges_gdf : list Edge) : bool :=
  match with_degree 2 edges_gdf with
  | [] => true
  | _ => false
  end.

(** ** Pseudo-Node Contractor: [simplify_graph] *)

Definition incident (nodeID : Z) (e : Edge) : bool :=
  (e_u e =? nodeID) || (e_v e =? nodeID).

(** The four shared-endpoint cases: the new endpoints of the first edge and
    the two coordinate lists to concatenate. *)
Definition relate (first second : Edge) (index_first index_second : Z)
    (edges_gdf : list Edge) : result (list Edge * LineString * LineString) :=
  if e_u first =? e_u second then
    r1 <- loc_edge index_first edges_gdf ;;
    let edges1 := at_edge index_first (set_u (e_v r1)) edges_gdf in
    r2 <- loc_edge index_second edges1 ;;
    Ok (at_edge index_first (set_v (e_v r2)) edges1,
        rev (e_geometry first), e_geometry second)
  else if e_u first =? e_v second then
    r2 <- loc_edge index_second edges_gdf ;;
    Ok (at_edge index_first (set_u (e_u r2)) edges_gdf,
        e_geometry second, e_geometry first)
  else if e_v first =? e_u second then
    r2 <- loc_edge index_second edges_gdf ;;
    Ok (at_edge index_first (set_v (e_v r2)) edges_gdf,
        e_geometry first, e_geometry second)
  else
    r2 <- loc_edge index_second edges_gdf ;;
    Ok (at_edge index_first (set_v (e_u r2)) edges_gdf,
        e_geometry first, e_geometry second).

(** Lines 221 and 222: the density of the first edge becomes the larger of
    the two. *)
Definition keep_max (update_densities : bool) (densities_column : option string)
    (index_first index_second : Z) (edges_gdf : list Edge) : result (list Edge) :=
  if update_densities then
    r1 <- loc_edge index_first edges_gdf ;;
    d1 <- get_attr densities_column r1 ;;
    r2 <- loc_edge index_second edges_gdf ;;
    d2 <- get_attr densities_column r2 ;;
    match densities_column with
    | Some c => Ok (at_edge index_first (set_attr c (Z.max d1 d2)) edges_gdf)
    | None => Raise KeyError
    end
  else Ok edges_gdf.

(** One turn of the loop over the degree-2 nodes. *)
Definition contract (update_densities : bool) (densities_column : option string)
    (tables : list Node * list Edge) (node : Z) : result (list Node * list Edge) :=
  let '(nodes_gdf, edges_gdf) := tables in
  match filter (incident node) edges_gdf with
  | [] =>
      nodes1 <- drop_nodes [node] nodes_gdf ;;
      Ok (nodes1, edges_gdf)
  | [_] => Ok (nodes_gdf, edges_gdf)
  | first :: second :: _ =>
      let index_first := streetID first in
      let index_second := streetID second in
      ' (edges1, line_coordsA, line_coordsB) <-
          relate first second index_first index_second edges_gdf ;;
      edges2 <- keep_max update_densities densities_column
                         index_first index_second edges1 ;;
      r <- loc_edge index_first edges2 ;;
      if e_u r =? e_v r then
        edges3 <- drop_edges [index_first; index_second] edges2 ;;
        nodes1 <- drop_nodes [node] nodes_gdf ;;
        Ok (nodes1, edges3)
      else
        let new_line := line_coordsA ++ line_coordsB in
        let edges3 := at_edge index_first (set_geometry new_line) edges2 in
        r2 <- loc_edge index_second edges3 ;;
        let edges4 :=
          if e_pedestrian r2 =? 1
          then at_edge index_first (set_pedestrian 1) edges3 else edges3 in
        edges5 <- drop_edges [index_second] edges4 ;;
        nodes1 <- drop_nodes [node] nodes_gdf ;;
        Ok (nodes1, edges5)
  end.

Definition simplify_graph (nodes_gdf : list Node) (edges_gdf : list Edge)
    (update_densities : bool) (densities_column : option string)
  : result (list Node * list Edge) :=
  match with_degree 2 edges_gdf with
  | [] => Ok (nodes_gdf, edges_gdf)
  | to_edit_list =>
      for_each (contract update_densities densities_column) to_edit_list
               (nodes_gdf, edges_gdf)
  end.

(** ** Identity Resolver: [duplicate_nodes] *)

(** A cell of the node table, as an attribute access [table.name] yields it. *)
Inductive cell : Type :=
| IntCell (z : Z)
| NumCell (q : Q)
| PointCell (p : coord).

Definition cell_eqb (a b : cell) : bool :=
  match a, b with
  | IntCell z, IntCell w => z =? w
  | NumCell q, NumCell r => Q_eqb q r
  | PointCell p, PointCell q => coord_eqb p q
  | _, _ => false
  end.

(** [nodes.name]: the column of that name; a table has no other attribute
    that holds data, so any other name raises [AttributeError]. *)
Definition node_column (name : string) (nodes : list Node) : result (list cell) :=
  if String.eqb name "nodeID" then Ok (map (fun n => IntCell (nodeID n)) nodes)
  else if String.eqb name "geometry" then Ok (map (fun n => PointCell (n_geometry n)) nodes)
  else if String.eqb name "x" then Ok (map (fun n => NumCell (n_x n)) nodes)
  else if String.eqb name "y" then Ok (map (fun n => NumCell (n_y n)) nodes)
  else Raise AttributeError.

(** [table[mask]] *)
Fixpoint select {A : Type} (mask : list bool) (rows : list A) : list A :=
  match mask, rows with
  | true :: mask', r :: rows' => r :: select mask' rows'
  | false :: mask', _ :: rows' => select mask' rows'
  | _, _ => []
  end.

Fixpoint list_Z_eqb (a b : list Z) : bool :=
  match a, b with
  | [], [] => true
  | z :: a', w :: b' => (z =? w) && list_Z_eqb a' b'
  | _, _ => false
  end.

(** Line 64, on the table that the caller passed: the index becomes the
    [nodeID] column when the two differ. *)
Definition reindex (nodes_gdf : list Node) : list Node :=
  if list_Z_eqb (map n_index nodes_gdf) (map nodeID nodes_gdf) then nodes_gdf
  else map (fun n => set_index (nodeID n) n) nodes_gdf.

(** [G.drop_duplicates()] on the geometries, first occurrence kept. *)
Fixpoint first_of_each (seen : list coord) (nodes : list Node) : list Node :=
  match nodes with
  | [] => []
  | n :: rest =>
      if existsb (coord_eqb (n_geometry n)) seen then first_of_each seen rest
      else n :: first_of_each (n_geometry n :: seen) rest
  end.

Definition rename_endpoint (node index : Z) (e : Edge) : Edge :=
  let e1 := if e_u e =? node then set_u index e else e in
  if e_v e1 =? node then set_v index e1 else e1.

(** The body of the loop over [to_edit]; [attribute] is the name that line 79
    reads from [new_nodes]. *)
Definition readjust (attribute : string) (nodes_gdf new_nodes : list Node)
    (edges_gdf : list Edge) (node : Z) : result (list Edge) :=
  r <- loc_node node nodes_gdf ;;
  let geo := n_geometry r in
  column <- node_column attribute new_nodes ;;
  let tmp := select (map (cell_eqb (PointCell geo)) column) new_nodes in
  match tmp with
  | [] => Raise IndexError
  | representative :: _ =>
      let index := nodeID representative in
      Ok (map (rename_endpoint node index) edges_gdf)
  end.

Definition duplicate_nodes_reading (attribute : string)
    (nodes_gdf : list Node) (edges_gdf : list Edge) : result (list Node * list Edge) :=
  let nodes_gdf := reindex nodes_gdf in
  let new_nodes := first_of_each [] nodes_gdf in
  let to_edit :=
    set_of (filter (fun i => negb (mem i (map n_index new_nodes)))
                   (map n_index nodes_gdf)) in
  match to_edit with
  | [] => Ok (nodes_gdf, edges_gdf)
  | _ =>
      edges1 <- for_each (readjust attribute nodes_gdf new_nodes) to_edit edges_gdf ;;
      Ok (new_nodes, edges1)
  end.

(** Line 79 reads [new_nodes.geomety]. *)
Definition duplicate_nodes : list Node -> list Edge -> result (list Node * list Edge) :=
  duplicate_nodes_reading "geomety".

(** ** Dead-End Pruner: [fix_dead_ends] *)

Definition fix_dead_ends (nodes_gdf : list Node) (edges_gdf : list Edge)
  : result (list Node * list Edge) :=
  match with_degree 1 edges_gdf with
  | [] => Ok (nodes_gdf, edges_gdf)
  | to_delete_list =>
      nodes1 <- drop_nodes to_delete_list nodes_gdf ;;
      let edges1 := filter (fun e => negb (mem (e_u e) to_delete_list)) edges_gdf in
      let edges2 := filter (fun e => negb (mem (e_v e) to_delete_list)) edges1 in
      Ok (nodes1, edges2)
  end.

(** ** Canonical endpoint-pair keys: [is_edges_simplified] *)

(** The string [a-b] with the lower identifier first, as the pair (a, b). *)
Definition canonical (e : Edge) : Z * Z :=
  if e_u e <=? e_v e then (e_u e, e_v e) else (e_v e, e_u e).

Definition pair_eqb (a b : Z * Z) : bool :=
  (fst a =? fst b) && (snd a =? snd b).

Definition code_eqb (a b : option (Z * Z)) : bool :=
  match a, b with
  | Some p, Some q => pair_eqb p q
  | None, None => true
  | _, _ => false
  end.

(** The two masked assignments of the 'code' column. *)
Definition assign_code (edges_gdf : list Edge) : list Edge :=
  map (fun e => set_code (Some (canonical e)) e) edges_gdf.

Definition code_count (key : Z * Z) (edges_gdf : list Edge) : nat :=
  List.length (filter (fun e => code_eqb (e_code e) (Some key)) edges_gdf).

Fixpoint codes (seen : list (Z * Z)) (edges_gdf : list Edge) : list (Z * Z) :=
  match edges_gdf with
  | [] => []
  | e :: rest =>
      match e_code e with
      | Some k =>
          if existsb (pair_eqb k) seen then codes seen rest
          else k :: codes (k :: seen) rest
      | None => codes seen rest
      end
  end.

(** The keys of [value_counts] of 'code' that count more than one row. *)
Definition shared_codes (edges_gdf : list Edge) : list (Z * Z) :=
  filter (fun k => (1 <? code_count k edges_gdf)%nat) (codes [] edges_gdf).

(** The function writes the 'code' column of the table it is given: the
    result is the boolean and that table after the call. *)
Definition is_edges_simplified (edges_gdf : list Edge) : bool * list Edge :=
  let edges1 := map (set_code None) edges_gdf in
  let edges2 := assign_code edges1 in
  match shared_codes edges2 with
  | [] => (true, edges2)
  | _ => (false, edges2)
  end.

(** ** Geometry Reconciler: [correct_edges] *)

(** Line 410 binds [line_coords] to [old_line_geometry.coords], which is
    a [CoordinateSequence] of shapely and not a list of it (lines 206 to 219
    and 304 wrap the same attribute in [list]). *)
Inductive sequence : Type :=
| CoordinateSequence (c : list coord)
| PyList (c : list coord).

Definition items (s : sequence) : list coord :=
  match s with
  | CoordinateSequence c => c
  | PyList c => c
  end.

(** [l[0] = c] and [l[-1] = c] on a list. *)
Definition set_first (c : coord) (line_coords : list coord) : result (list coord) :=
  match line_coords with
  | [] => Raise IndexError
  | _ :: rest => Ok (c :: rest)
  end.

Fixpoint set_last (c : coord) (line_coords : list coord) : result (list coord) :=
  match line_coords with
  | [] => Raise IndexError
  | [_] => Ok [c]
  | p :: rest => rest1 <- set_last c rest ;; Ok (p :: rest1)
  end.

(** [line_coords[i] = c]: a [CoordinateSequence] supports no item
    assignment. *)
Definition setitem (set : coord -> list coord -> result (list coord)) (c : coord)
    (line_coords : sequence) : result sequence :=
  match line_coords with
  | CoordinateSequence _ => Raise TypeError
  | PyList l => l1 <- set c l ;; Ok (PyList l1)
  end.

(** Lines 410 to 415; [coords] is what line 410 binds to [line_coords].  The
    right-hand side of an assignment is evaluated before the item is
    assigned.  A line of shapely has no single coordinate, so that the
    constructor [LineString] of line 413 accepts every list built here from
    a line. *)
Definition update_line_geometry_coords_reading (coords : LineString -> sequence)
    (u v : Z) (nodes_gdf : list Node) (old_line_geometry : LineString)
  : result LineString :=
  let line_coords := coords old_line_geometry in
  nu <- loc_node u nodes_gdf ;;
  line_coords1 <- setitem set_first (n_x nu, n_y nu) line_coords ;;
  nv <- loc_node v nodes_gdf ;;
  line_coords2 <- setitem set_last (n_x nv, n_y nv) line_coords1 ;;
  Ok (items line_coords2).

Definition update_line_geometry_coords
  : Z -> Z -> list Node -> LineString -> result LineString :=
  update_line_geometry_coords_reading CoordinateSequence.

Fixpoint apply_rows {A B : Type} (f : A -> result B) (rows : list A) : result (list B) :=
  match rows with
  | [] => Ok []
  | r :: rest => b <- f r ;; bs <- apply_rows f rest ;; Ok (b :: bs)
  end.

(** Line 390.  On a table without rows [apply] returns an empty table, not
    a column, and the assignment of it to the 'geometry' column raises
    [ValueError]. *)
Definition correct_edges_reading (coords : LineString -> sequence)
    (nodes_gdf : list Node) (edges_gdf : list Edge) : result (list Edge) :=
  match edges_gdf with
  | [] => Raise ValueError
  | _ =>
      apply_rows
        (fun row =>
           g <- update_line_geometry_coords_reading coords (e_u row) (e_v row)
                  nodes_gdf (e_geometry row) ;;
           Ok (set_geometry g row))
        edges_gdf
  end.

Definition correct_edges : list Node -> list Edge -> result (list Edge) :=
  correct_edges_reading CoordinateSequence.

(** ** Road types *)

Definition to_remove : list string := ["primary_link"; "elevator"]%string.
Definition pedestrian : list string :=
  ["footway"; "pedestrian"; "living_street"; "path"]%string.

(** [column.isin(values)] on one cell; a missing value is in no list. *)
Definition isin (value : option string) (values : list string) : bool :=
  match value with
  | Some s => existsb (String.eqb s) values
  | None => false
  end.

(** Lines 283 to 288; [highway_column] is ['highway' in edges_gdf.columns]. *)
Definition tag_highways (highway_column : bool) (edges_gdf : list Edge) : list Edge :=
  if highway_column then
    let edges1 := map (set_pedestrian 0) edges_gdf in
    let edges2 := filter (fun e => negb (isin (e_highway e) to_remove)) edges1 in
    map (fun e => if isin (e_highway e) pedestrian then set_pedestrian 1 e else e) edges2
  else edges_gdf.

(** ** Duplicate/Parallel Edge Resolver and the convergence loop *)

Definition key_eqb (a b : option LineString) : bool :=
  match a, b with
  | Some l, Some m => line_eqb l m
  | None, None => true
  | _, _ => false
  end.

(** [drop_duplicates] on a column of coordinate sequences, first row kept. *)
Fixpoint drop_duplicates (key : Edge -> option LineString) (seen : list (option LineString))
    (edges_gdf : list Edge) : list Edge :=
  match edges_gdf with
  | [] => []
  | e :: rest =>
      if existsb (key_eqb (key e)) seen then drop_duplicates key seen rest
      else e :: drop_duplicates key (key e :: seen) rest
  end.

(** The mask of line 305: the rows whose string u-v is not their code. *)
Definition swapped (e : Edge) : bool :=
  negb (code_eqb (Some (e_u e, e_v e)) (e_code e)).

(** The coordinates of a row from its lower to its higher node. *)
Definition ordered_coords (e : Edge) : list coord :=
  if swapped e then rev (e_geometry e) else e_geometry e.

Definition same_point_count (edges_gdf : list Edge) : bool :=
  match edges_gdf with
  | [] => true
  | e :: rest =>
      forallb (fun x => (List.length (e_geometry x) =? List.length (e_geometry e))%nat)
              rest
  end.

(** Lines 304 to 306.  Line 304 fills the column with the coordinate lists.
    Lines 305 and 306 assign, to the rows under the mask, the list of the
    reversed coordinate lists of all rows of the table.  pandas passes that
    list to numpy, which makes an array of it and writes to the masked row at
    position i the i-th item of the array, counted over all its dimensions:
    when the lines differ in their number of points the array holds the
    lists, and row i receives its own reversed list; when they all have the
    same number of points the array is one of numbers, and row i receives a
    number. *)
Definition assign_coords (edges_gdf : list Edge) : list Edge :=
  let numbers := same_point_count edges_gdf in
  map (fun e =>
         if swapped e
         then set_coords (if numbers then Number else Coordinates (rev (e_geometry e))) e
         else set_coords (Coordinates (e_geometry e)) e)
      edges_gdf.

(** [tuple(cell)] of line 313: neither None nor a number can be iterated. *)
Definition tuple (cell : coords_cell) : result (list coord) :=
  match cell with
  | Coordinates l => Ok l
  | Empty => Raise TypeError
  | Number => Raise TypeError
  end.

(** The key of line 314: the tuple of a cell that holds coordinates. *)
Definition tmp_key (e : Edge) : option LineString :=
  match e_coords e with
  | Coordinates l => Some l
  | _ => None
  end.

(** numpy int64 addition: the sum in 64 bits, two's complement. *)
Definition wrap64 (z : Z) : Z := (z + 2 ^ 63) mod 2 ^ 64 - 2 ^ 63.
Definition int64_add (a b : Z) : Z := wrap64 (a + b).

(** Ascending order on the 'length' column, rows without a number last
    ([sort_values] puts NaN last). *)
Definition measured (e : Edge) : option float :=
  match e_length e with
  | Some x => if PrimFloat.is_nan x then None else Some x
  | None => None
  end.

Definition length_leb (a b : Edge) : bool :=
  match measured a, measured b with
  | Some x, Some y => PrimFloat.leb x y
  | Some _, None => true
  | None, Some _ => false
  | None, None => true
  end.

Definition streetID_leb (a b : Edge) : bool := streetID a <=? streetID b.

(** [nodes_gdf['x'], nodes_gdf['y'] = list(zip( *[...]))]: the unpacking
    fails on a table without rows. *)
Definition assign_xy (nodes_gdf : list Node) : result (list Node) :=
  match nodes_gdf with
  | [] => Raise ValueError
  | _ => Ok (map set_xy nodes_gdf)
  end.

(** A read of a global name: its value when the module binds the name,
    [NameError] when it binds it nowhere. *)
Definition global {A : Type} (binding : option A) : result A :=
  match binding with
  | Some a => Ok a
  | None => Raise NameError
  end.

(** Line 277. *)
Definition without_loops (edges_gdf : list Edge) : list Edge :=
  filter (fun e => negb (e_u e =? e_v e)) edges_gdf.

(** Lines 269 to 288; [double_nodes] is what the module binds to the name
    that line 279 calls. *)
Definition enter_with
    (double_nodes : option (list Node -> list Edge -> result (list Node * list Edge)))
    (highway_column : bool) (nodes_gdf : list Node) (edges_gdf : list Edge)
  : result (list Node * list Edge) :=
  let nodes1 := map (fun n => set_index (nodeID n) n) nodes_gdf in
  nodes2 <- assign_xy nodes1 ;;
  let edges1 := without_loops edges_gdf in
  f <- global double_nodes ;;
  ' (nodes3, edges2) <- f nodes2 edges1 ;;
  let edges3 := sort_rows streetID_leb edges2 in
  let edges4 := map (fun e => set_coords Empty (set_code None e)) edges3 in
  Ok (nodes3, tag_highways highway_column edges4).

(** The module binds the name [double_nodes] nowhere. *)
Definition enter : bool -> list Node -> list Edge -> result (list Node * list Edge) :=
  enter_with None.

(** Lines 359 to 368.  Line 359 reads the name [detect_islands], which the
    module binds nowhere (the parameter of the function is
    [remove_disconnected_islands], and [graph_fromGDF] of line 360 is bound
    nowhere either): the block raises [NameError] before it looks at the
    tables. *)
Definition drop_islands (nodes_gdf : list Node) (edges_gdf : list Edge)
  : result (list Node * list Edge) :=
  Raise NameError.

(** Lines 353 to 374. *)
Definition leave (nodes_gdf : list Node) (edges_gdf : list Edge)
  : result (list Node * list Edge) :=
  nodes1 <- assign_xy nodes_gdf ;;
  let edges1 := map (fun e => set_coords Empty (set_code None e)) edges_gdf in
  edges2 <- correct_edges nodes1 edges1 ;;
  drop_islands nodes1 edges2.

Section Collaborators.

(** shapely: [geometry.length], a double. *)
Variable line_length : LineString -> float.
(** utilities: [uf.center_line]. *)
Variable center_line : LineString -> LineString -> LineString.

(** [line_geometry_connector.length > (line_geometry.length * 1.30)], on
    doubles; the double of the literal 1.30 is 0x1.4cccccccccccdp+0. *)
Definition longer_by_30 (line_geometry_connector line_geometry : LineString) : bool :=
  PrimFloat.ltb (PrimFloat.mul (line_length line_geometry) 0x1.4cccccccccccdp+0%float)
                (line_length line_geometry_connector).

(** Lines 340 to 342: the density of the connector is added to that of
    the reference edge; the two are int64 scalars of numpy. *)
Definition add_density (update_densities : bool) (densities_column : option string)
    (ix_line ix_line_connector : Z) (edges_gdf : list Edge) : result (list Edge) :=
  if update_densities then
    match densities_column with
    | None => Raise columnError
    | Some c =>
        r <- loc_edge ix_line edges_gdf ;;
        d <- get_attr densities_column r ;;
        rc <- loc_edge ix_line_connector edges_gdf ;;
        dc <- get_attr densities_column rc ;;
        Ok (at_edge ix_line (set_attr c (int64_add d dc)) edges_gdf)
    end
  else Ok edges_gdf.

(** One turn of the loop over [tmp.itertuples()] (lines 328 to 343). *)
Definition merge_connector (line_geometry : LineString) (ix_line : Z)
    (update_densities : bool) (densities_column : option string)
    (edges_gdf : list Edge) (connector : Edge) : result (list Edge) :=
  if streetID connector =? ix_line then Ok edges_gdf
  else
    let line_geometry_connector := e_geometry connector in
    let ix_line_connector := streetID connector in
    let edges1 :=
      if longer_by_30 line_geometry_connector line_geometry then edges_gdf
      else
        let cl := center_line line_geometry line_geometry_connector in
        at_edge ix_line (set_geometry cl) edges_gdf in
    rc <- loc_edge ix_line_connector edges1 ;;
    let edges2 :=
      if e_pedestrian rc =? 1
      then at_edge ix_line (set_pedestrian 1) edges1 else edges1 in
    edges3 <- add_density update_densities densities_column
                          ix_line ix_line_connector edges2 ;;
    drop_edges [ix_line_connector] edges3.

(** One turn of the loop over the shared codes (lines 321 to 343). *)
Definition merge_parallel (update_densities : bool) (densities_column : option string)
    (edges_gdf : list Edge) (key : Z * Z) : result (list Edge) :=
  let tmp :=
    sort_rows length_leb
      (filter (fun e => code_eqb (e_code e) (Some key)) edges_gdf) in
  match tmp with
  | [] => Raise IndexError
  | reference :: _ =>
      let line_geometry := e_geometry reference in
      let ix_line := streetID reference in
      for_each (merge_connector line_geometry ix_line update_densities densities_column)
               tmp edges_gdf
  end.

(** Lines 317 to 343. *)
Definition merge_same_uv (same_uv_edges update_densities : bool)
    (densities_column : option string) (edges_gdf : list Edge) : result (list Edge) :=
  if same_uv_edges then
    for_each (merge_parallel update_densities densities_column)
             (shared_codes edges_gdf) edges_gdf
  else Ok edges_gdf.

(** Lines 295 to 314. *)
Definition drop_duplicate_geometries (edges_gdf : list Edge) : result (list Edge) :=
  let edges1 := map (fun e => set_length (Some (line_length (e_geometry e))) e) edges_gdf in
  let edges2 := assign_code edges1 in
  let edges3 := assign_coords edges2 in
  let edges4 := drop_duplicates (fun e => Some (e_geometry e)) [] edges3 in
  _ <- apply_rows (fun e => tuple (e_coords e)) edges4 ;;
  Ok (drop_duplicates tmp_key [] edges4).

(** The body of the [while] loop (lines 294 to 351). *)
Definition cycle_body (dead_ends same_uv_edges update_densities : bool)
    (densities_column : option string) (tables : list Node * list Edge)
  : result (list Node * list Edge) :=
  let '(nodes_gdf, edges_gdf) := tables in
  edges1 <- drop_duplicate_geometries edges_gdf ;;
  edges2 <- merge_same_uv same_uv_edges update_densities densities_column edges1 ;;
  let to_keep := set_of (unique (map e_u edges2) ++ unique (map e_v edges2)) in
  let nodes1 := filter (fun n => mem (nodeID n) to_keep) nodes_gdf in
  ' (nodes2, edges3) <-
      (if dead_ends then fix_dead_ends nodes1 edges2 else Ok (nodes1, edges2)) ;;
  simplify_graph nodes2 edges3 update_densities densities_column.

(** The [while] loop, run for at most [fuel] evaluations of its condition;
    [Ok None] when the loop is still running after them.  The condition
    evaluates both tests, and [is_edges_simplified] leaves its 'code'
    column in the working table. *)
Fixpoint convergence_loop (fuel : nat) (dead_ends same_uv_edges update_densities : bool)
    (densities_column : option string) (nodes_gdf : list Node) (edges_gdf : list Edge)
    (cycle : Z) : result (option (list Node * list Edge * Z)) :=
  match fuel with
  | O => Ok None
  | S fuel' =>
      let '(edges_simplified, edges1) := is_edges_simplified edges_gdf in
      let nodes_simplified := is_nodes_simplified edges1 in
      if negb edges_simplified || negb nodes_simplified then
        ' (nodes2, edges2) <-
            cycle_body dead_ends same_uv_edges update_densities densities_column
                       (nodes_gdf, edges1) ;;
        convergence_loop fuel' dead_ends same_uv_edges update_densities
                         densities_column nodes2 edges2 (cycle + 1)
      else Ok (Some (nodes_gdf, edges1, cycle))
  end.

(** [clean_network]; [remove_disconnected_islands] is a parameter that the
    body never reads. *)
Definition clean_network (fuel : nat) (highway_column : bool)
    (nodes_gdf : list Node) (edges_gdf : list Edge)
    (dead_ends remove_disconnected_islands same_uv_edges update_densities : bool)
    (densities_column : option string) : result (option (list Node * list Edge)) :=
  ' (nodes1, edges1) <- enter highway_column nodes_gdf edges_gdf ;;
  looped <- convergence_loop fuel dead_ends same_uv_edges update_densities
                             densities_column nodes1 edges1 0 ;;
  match looped with
  | None => Ok None
  | Some (nodes2, edges2, _) =>
      ' (nodes3, edges3) <- leave nodes2 edges2 ;;
      Ok (Some (nodes3, edges3))
  end.

End Collaborators.

(** ** Table objects and calls

    The functions of the file receive references to table objects.  A call
    may assign into the object it was given, or copy it first and assign
    into the copy.  The store keeps the table objects in allocation order; a
    reference is a position in it.  An action returns its result and the
    store it leaves behind, also when it raises. *)

Module Objects.

Record store : Type := mkStore {
  node_objects : list (list Node);
  edge_objects : list (list Edge)
}.

Definition action (A : Type) : Type := store -> result A * store.

Definition ret {A : Type} (a : A) : action A := fun s => (Ok a, s).
Definition raise {A : Type} (e : exn) : action A := fun s => (Raise e, s).
Definition seq {A B : Type} (c : action A) (k : A -> action B) : action B :=
  fun s =>
    match c s with
    | (Ok a, s1) => k a s1
    | (Raise e, s1) => (Raise e, s1)
    end.

Fixpoint replace {A : Type} (r : nat) (a : A) (l : list A) : list A :=
  match l, r with
  | [], _ => []
  | _ :: rest, O => a :: rest
  | b :: rest, S r' => b :: replace r' a rest
  end.

Definition read_nodes (r : nat) : action (list Node) :=
  fun s => (Ok (nth r (node_objects s) []), s).
Definition read_edges (r : nat) : action (list Edge) :=
  fun s => (Ok (nth r (edge_objects s) []), s).
Definition write_nodes (r : nat) (t : list Node) : action unit :=
  fun s => (Ok tt, mkStore (replace r t (node_objects s)) (edge_objects s)).
Definition write_edges (r : nat) (t : list Edge) : action unit :=
  fun s => (Ok tt, mkStore (node_objects s) (replace r t (edge_objects s))).

(** [table.copy()]: a new object with the same rows. *)
Definition copy_nodes (r : nat) : action nat :=
  fun s => (Ok (List.length (node_objects s)),
            mkStore (node_objects s ++ [nth r (node_objects s) []]) (edge_objects s)).
Definition copy_edges (r : nat) : action nat :=
  fun s => (Ok (List.length (edge_objects s)),
            mkStore (node_objects s) (edge_objects s ++ [nth r (edge_objects s) []])).

(** A function that opens with
    [nodes_gdf, edges_gdf = nodes_gdf.copy(), edges_gdf.copy()] and from
    then on works on these two objects, which it returns. *)
Definition on_copies (f : list Node -> list Edge -> result (list Node * list Edge))
    (nodes_gdf edges_gdf : nat) : action (nat * nat) :=
  seq (copy_nodes nodes_gdf) (fun nodes1 =>
  seq (copy_edges edges_gdf) (fun edges1 =>
  seq (read_nodes nodes1) (fun tn =>
  seq (read_edges edges1) (fun te =>
    match f tn te with
    | Ok (tn1, te1) =>
        seq (write_nodes nodes1 tn1) (fun _ =>
        seq (write_edges edges1 te1) (fun _ => ret (nodes1, edges1)))
    | Raise e => raise e
    end)))).

(** [duplicate_nodes]: line 64 assigns the index of the object passed in,
    line 65 copies. *)
Definition duplicate_nodes_call (nodes_gdf edges_gdf : nat) : action (nat * nat) :=
  seq (read_nodes nodes_gdf) (fun t =>
  seq (write_nodes nodes_gdf (reindex t)) (fun _ =>
    on_copies duplicate_nodes nodes_gdf edges_gdf)).

Definition fix_dead_ends_call : nat -> nat -> action (nat * nat) :=
  on_copies fix_dead_ends.

Definition simplify_graph_call (update_densities : bool)
    (densities_column : option string) : nat -> nat -> action (nat * nat) :=
  on_copies (fun n e => simplify_graph n e update_densities densities_column).

(** [clean_network] opens with the two copies as well; it may still be in
    its loop when the fuel is spent, and then has returned nothing. *)
Definition clean_network_call
    (line_length : LineString -> float)
    (center_line : LineString -> LineString -> LineString)
    (fuel : nat) (highway_column : bool)
    (dead_ends remove_disconnected_islands same_uv_edges update_densities : bool)
    (densities_column : option string)
    (nodes_gdf edges_gdf : nat) : action (option (nat * nat)) :=
seq (copy_nodes nodes_gdf) (fun nodes1 =>
seq (copy_edges edges_gdf) (fun edges1 =>
seq (read_nodes nodes1) (fun tn =>
seq (read_edges edges1) (fun te =>
  match clean_network line_length center_line
                      fuel highway_column tn te dead_ends remove_disconnected_islands
                      same_uv_edges update_densities densities_column with
  | Ok (Some (tn1, te1)) =>
      seq (write_nodes nodes1 tn1) (fun _ =>
      seq (write_edges edges1 te1) (fun _ => ret (Some (nodes1, edges1))))
  | Ok None => ret None
  | Raise e => raise e
  end)))).

Definition is_nodes_simplified_call (edges_gdf : nat) : action bool :=
  seq (read_edges edges_gdf) (fun t => ret (is_nodes_simplified t)).

(** [is_edges_simplified]: lines 155 to 157 assign the 'code' column of
    the object passed in. *)
Definition is_edges_simplified_call (edges_gdf : nat) : action bool :=
  seq (read_edges edges_gdf) (fun t =>
  seq (write_edges edges_gdf (snd (is_edges_simplified t))) (fun _ =>
    ret (fst (is_edges_simplified t)))).

End Objects.

(** ** Index reset: [reset_index_gdf]

    The function returns new tables.  (Line 33 also adds the column
    'old_nodeID' to the node table it was given; the node rows here carry no
    such column.) *)

(** The rows of a table with their positions, counted from [start]:
    [reset_index(drop = True)] followed by a read of the index. *)
Fixpoint positions {A : Type} (start : Z) (rows : list A) : list (Z * A) :=
  match rows with
  | [] => []
  | r :: rest => (start, r) :: positions (start + 1) rest
  end.

(** [pd.merge(left, right, how = 'left', left_on = key, right_on = 'old_nodeID')]
    where [right] holds the columns 'old_nodeID' and 'nodeID': the rows of
    [left] in their order, each paired with the 'nodeID' of every row of
    [right] whose 'old_nodeID' is its key, in the order of [right], or paired
    once with NaN ([None]) when [right] has no such row. *)
Definition merge_left {A : Type} (key : A -> Z) (right : list (Z * Z)) (left : list A)
  : list (A * option Z) :=
  flat_map
    (fun row =>
       match filter (fun r => fst r =? key row) right with
       | [] => [(row, None)]
       | matching => map (fun r => (row, Some (snd r))) matching
       end)
    left.

(** A row of the edge table that [reset_index_gdf] returns: its 'u' and 'v'
    come out of the two merges, and are NaN where no node matched. *)
Record Relinked : Type := mkRelinked {
  r_streetID : Z;
  r_u : option Z;
  r_v : option Z;
  r_geometry : LineString;
  r_highway : option string;
  r_pedestrian : Z;
  r_attrs : list (string * Z);
  r_code : option (Z * Z);
  r_coords : coords_cell;
  r_length : option float
}.

(** Lines 33 to 35 and 43: the node row at position [i]. *)
Definition renumber (p : Z * Node) : Node :=
  mkNode (fst p) (fst p) (n_geometry (snd p)) (n_x (snd p)) (n_y (snd p)).

(** The columns 'old_nodeID' and 'nodeID' of the renumbered node table. *)
Definition old_new (numbered : list (Z * Node)) : list (Z * Z) :=
  map (fun p => (n_index (snd p), fst p)) numbered.

(** Lines 38 to 45: the merged row at position [i], with the new 'u', 'v'
    and 'streetID' and without the old ones. *)
Definition relink (p : Z * (Edge * option Z * option Z)) : Relinked :=
  let '(i, (row, u, v)) := p in
  mkRelinked i u v (e_geometry row) (e_highway row) (e_pedestrian row)
             (e_attrs row) (e_code row) (e_coords row) (e_length row).

Definition reset_index_gdf (nodes_gdf : list Node) (edges_gdf : list Edge)
  : list Node * list Relinked :=
  let numbered := positions 0 nodes_gdf in
  let nodes1 := map renumber numbered in
  let edges1 := merge_left e_u (old_new numbered) edges_gdf in
  let edges2 := merge_left (fun row => e_v (fst row)) (old_new numbered) edges1 in
  (nodes1, map relink (positions 0 edges2)).

(** The returned row as an edge row, when both of its ends are node
    identifiers. *)
Definition edge_of (r : Relinked) : option Edge :=
  match r_u r, r_v r with
  | Some u, Some v =>
      Some (mkEdge (r_streetID r) u v (r_geometry r) (r_highway r) (r_pedestrian r)
                   (r_attrs r) (r_code r) (r_coords r) (r_length r))
  | _, _ => None
  end.

(** The new identifier that the merge finds for an old one, when at most
    one node row carries the old one. *)
Definition new_of (right : list (Z * Z)) (k : Z) : option Z :=
  match filter (fun r => fst r =? k) right with
  | [] => None
  | r :: _ => Some (snd r)
  end.

(** The number of node rows labelled [k]. *)
Definition label_count (k : Z) (nodes_gdf : list Node) : nat :=
  List.length (filter (fun n => n_index n =? k) nodes_gdf).

(** ** Degrees and far ends *)

(** The number of edge ends at node [k]: the value of [dd] at [k], and 0
    where [dd] has no key [k]. *)
Definition degree (k : Z) (edges_gdf : list Edge) : Z :=
  value_count k (map e_u edges_gdf) + value_count k (map e_v edges_gdf).

(** A row of the table of lines 295 to 306: its length, its code and its
    cell of 'coords'; [numbers] tells whether the lines of the table all have
    the same number of points. *)
Definition with_coords (line_length : LineString -> float) (numbers : bool) (e : Edge)
  : Edge :=
  let e2 := set_code (Some (canonical e))
                     (set_length (Some (line_length (e_geometry e))) e) in
  if e_v e <? e_u e
  then set_coords (if numbers then Number else Coordinates (rev (e_geometry e))) e2
  else set_coords (Coordinates (e_geometry e)) e2.

(** The end of an edge that is not the given node. *)
Definition other_end (node : Z) (e : Edge) : Z :=
  if e_u e =? node then e_v e else e_u e.

(** A line of shapely has at least two coordinates. *)
Definition is_line (e : Edge) : Prop := (2 <= List.length (e_geometry e))%nat.

Definition pair_dec (a b : Z * Z) : {a = b} + {a <> b}.
Proof. decide equality; apply Z.eq_dec. Defined.

(** ** Worked inputs

    Small networks on integer coordinates, and computable stand-ins for the
    collaborators: on axis-parallel lines [rectilinear_length] is the length
    shapely reports. *)

Definition pt (a b : Z) : coord := (inject_Z a, inject_Z b).

Definition node_at (i a b : Z) : Node :=
  mkNode i i (pt a b) (inject_Z a) (inject_Z b).

Definition street (i a b : Z) (g : LineString) : Edge :=
  mkEdge i a b g None 0 [] None Empty None.

Definition street_with (i a b : Z) (g : LineString) (ped : Z) (density : Z) : Edge :=
  mkEdge i a b g None ped [("density"%string, density)] None Empty None.

Fixpoint rectilinear (l : LineString) : Q :=
  match l with
  | p :: rest =>
      match rest with
      | q :: _ =>
          Qred (Qabs (fst q - fst p) + Qabs (snd q - snd p) + rectilinear rest)
      | [] => 0
      end
  | [] => 0
  end.

(** The double of a whole number (exact below 2^53). *)
Fixpoint float_of_positive (p : positive) : float :=
  match p with
  | xH => 1%float
  | xO q => PrimFloat.mul 2%float (float_of_positive q)
  | xI q => PrimFloat.add (PrimFloat.mul 2%float (float_of_positive q)) 1%float
  end.

Definition float_of_Z (z : Z) : float :=
  match z with
  | Z0 => 0%float
  | Zpos p => float_of_positive p
  | Zneg p => PrimFloat.opp (float_of_positive p)
  end.

Definition rectilinear_length (l : LineString) : float :=
  float_of_Z (Qnum (rectilinear l) / Zpos (Qden (rectilinear l))).

Fixpoint between (a b : LineString) : LineString :=
  match a, b with
  | p :: a', q :: b' =>
      (Qred ((fst p + fst q) / 2), Qred ((snd p + snd q) / 2)) :: between a' b'
  | _, _ => []
  end.

(** Two streets that both end in node 1 (the fourth case of [relate]). *)
Definition chain_nodes : list Node := [node_at 0 0 0; node_at 1 1 0; node_at 2 2 0].
Definition chain_edges : list Edge :=
  [street 0 0 1 [pt 0 0; pt 1 0]; street 1 2 1 [pt 2 0; pt 1 0]].

Definition tagged_street (i a b : Z) (g : LineString) (highway : string) : Edge :=
  mkEdge i a b g (Some highway) 0 [] None Empty None.

(** A footway, a link road and a residential street out of node 1. *)
Definition star_nodes : list Node :=
  [node_at 0 0 0; node_at 1 1 0; node_at 2 2 0; node_at 3 1 1].
Definition star_edges : list Edge :=
  [tagged_street 0 0 1 [pt 0 0; pt 1 0] "footway";
   tagged_street 1 1 2 [pt 1 0; pt 2 0] "primary_link";
   tagged_street 2 1 3 [pt 1 0; pt 1 1] "residential"].

(** Seven streets between nodes 0 and 1, one of each road type that lines
    285 and 287 name, and a residential street. *)
Definition road_types : list Edge :=
  [tagged_street 0 0 1 [pt 0 0; pt 1 0] "footway";
   tagged_street 1 0 1 [pt 0 0; pt 1 0] "primary_link";
   tagged_street 2 0 1 [pt 0 0; pt 1 0] "residential";
   tagged_street 3 0 1 [pt 0 0; pt 1 0] "elevator";
   tagged_street 4 0 1 [pt 0 0; pt 1 0] "pedestrian";
   tagged_street 5 0 1 [pt 0 0; pt 1 0] "living_street";
   tagged_street 6 0 1 [pt 0 0; pt 1 0] "path"].


(** Two nodes eight units apart, the direct street of length 8 between
    them (density 3), a parallel street of length 10 (within the 30% bound)
    and a detour of length 14 (beyond it), both pedestrian with density 7. *)
Definition pair_nodes : list Node := [node_at 0 0 0; node_at 1 8 0].
Definition direct : Edge := street_with 0 0 1 [pt 0 0; pt 2 0; pt 6 0; pt 8 0] 0 3.
Definition near : Edge := street_with 1 0 1 [pt 0 0; pt 0 1; pt 8 1; pt 8 0] 1 7.
Definition detour : Edge := street_with 2 0 1 [pt 0 0; pt 0 3; pt 8 3; pt 8 0] 1 7.


(** Nodes 0 and 1 in one place, and a street from node 1 to node 2. *)
Definition twin_nodes : list Node := [node_at 0 0 0; node_at 1 0 0; node_at 2 1 0].
Definition twin_edges : list Edge := [street 0 1 2 [pt 0 0; pt 1 0]].

(** The twin nodes with a street between them and a street to node 2. *)
Definition twin_street_edges : list Edge :=
  [street 0 0 1 [pt 0 0; pt 0 0]; street 1 0 2 [pt 0 0; pt 1 0]].

(** A node table whose index is not its [nodeID] column. *)
Definition shifted_nodes : list Node :=
  [mkNode 10 0 (pt 0 0) 0 0; mkNode 11 1 (pt 1 0) 1 0; mkNode 12 2 (pt 2 0) 2 0].

(** The nodes indexed 10, 11, 12 with two streets between them, and with
    a street to a node 99 that the table does not hold. *)
Definition far_edges : list Edge :=
  [street 5 10 11 [pt 0 0; pt 1 0]; street 9 12 11 [pt 2 0; pt 1 0]].
Definition stray_edge : Edge := street 5 10 99 [pt 0 0; pt 1 0].

(** The chain 0 - 1 - 2 whose second street is pedestrian. *)
Definition walk_chain_edges : list Edge :=
  [street_with 0 0 1 [pt 0 0; pt 1 0] 0 3; street_with 1 1 2 [pt 1 0; pt 2 0] 1 7].

(** Three streets around a block, and nothing else. *)
Definition ring_nodes : list Node := [node_at 0 0 0; node_at 1 1 0; node_at 2 1 1].
Definition ring_edges : list Edge :=
  [street 0 0 1 [pt 0 0; pt 1 0]; street 1 1 2 [pt 1 0; pt 1 1];
   street 2 2 0 [pt 1 1; pt 0 1; pt 0 0]].

(** Two nodes four units apart, and a street between them whose line was
    drawn one unit above them. *)
Definition drifted_nodes : list Node := [node_at 0 0 0; node_at 1 4 0].
Definition drifted_edges : list Edge := [street 0 0 1 [pt 0 1; pt 2 1; pt 4 1]].

(** ** Where a line starts and ends *)

Definition starts_at (l : LineString) (p : coord) : Prop := hd_error l = Some p.
Definition ends_at (l : LineString) (p : coord) : Prop := hd_error (rev l) = Some p.

(** ** A table and the table it came from

    [kept R out inp]: the rows of [out] are rows of [inp], in their order,
    some left out, each related by [R] to the row it was. *)

Inductive kept (R : Edge -> Edge -> Prop) : list Edge -> list Edge -> Prop :=
| kept_nil : kept R [] []
| kept_drop (e : Edge) (out inp : list Edge) :
    kept R out inp -> kept R out (e :: inp)
| kept_keep (e1 e : Edge) (out inp : list Edge) :
    R e1 e -> kept R out inp -> kept R (e1 :: out) (e :: inp).

(** The same street: label and road type. *)
Definition same_street (e1 e : Edge) : Prop :=
  streetID e1 = streetID e /\ e_highway e1 = e_highway e.

(** The same street between the same nodes. *)
Definition same_ends (e1 e : Edge) : Prop :=
  same_street e1 e /\ e_u e1 = e_u e /\ e_v e1 = e_v e.

Definition no_loop (e : Edge) : Prop := e_u e <> e_v e.

(** * Properties *)

(** ** Results *)

Lemma bind_Ok {A B : Type} (c : result A) (k : A -> result B) (b : B) :
  bind c k = Ok b -> exists a, c = Ok a /\ k a = Ok b.
Proof.
  destruct c as [a|e]; simpl; intro H.
  - exists a; split; [reflexivity | exact H].
  - discriminate H.
Qed.

(** A loop whose body keeps an invariant keeps it, whenever it ends without
    an exception. *)
Lemma for_each_invariant {S I : Type} (P : S -> Prop) (body : S -> I -> result S) :
  (forall s i s', P s -> body s i = Ok s' -> P s') ->
  forall items s s', P s -> for_each body items s = Ok s' -> P s'.
Proof.
  intros step items; induction items as [|i rest IH]; intros s s' Hs H; simpl in H.
  - injection H as <-; exact Hs.
  - apply bind_Ok in H as (s1 & H1 & H2).
    eapply IH; [eapply step; eassumption | exact H2].
Qed.

(** ** Geometry Reconciler *)

Lemma loc_node_present (i : Z) (nodes : list Node) :
  In i (map n_index nodes) ->
  exists n, loc_node i nodes = Ok n /\ n_index n = i /\ In n nodes.
Proof.
  unfold loc_node; induction nodes as [|m rest IH]; simpl; intros H.
  - contradiction.
  - destruct (n_index m =? i) eqn:E.
    + exists m; apply Z.eqb_eq in E; auto.
    + destruct H as [H|H]; [apply Z.eqb_neq in E; contradiction|].
      destruct (IH H) as (n & Hn & Hi & Hin); exists n; auto.
Qed.

Lemma set_last_snoc (c q : coord) (l : list coord) :
  set_last c (l ++ [q]) = Ok (l ++ [c]).
Proof.
  induction l as [|p l IH]; simpl.
  - reflexivity.
  - rewrite IH; simpl; destruct (l ++ [q]) eqn:E; [|reflexivity].
    destruct l; discriminate E.
Qed.

Lemma line_ends (l : LineString) :
  (2 <= List.length l)%nat -> exists p mid q, l = p :: mid ++ [q].
Proof.
  destruct l as [|p rest]; simpl; [lia|]; intro H.
  destruct (exists_last (l := rest)) as (mid & q & ->).
  - destruct rest; simpl in H; [lia | discriminate].
  - exists p, mid, q; reflexivity.
Qed.

Lemma loc_node_missing (i : Z) (nodes : list Node) :
  ~ In i (map n_index nodes) -> loc_node i nodes = Raise KeyError.
Proof.
  intro H; unfold loc_node.
  destruct (find (fun n => n_index n =? i) nodes) as [n|] eqn:F; [|reflexivity].
  apply find_some in F as [Hin Hi]; apply Z.eqb_eq in Hi.
  exfalso; apply H; rewrite <- Hi; apply in_map; exact Hin.
Qed.

(** With [line_coords] a list, the two assignments replace the first and
    the last coordinate. *)
Lemma update_line_geometry_coords_on_list (u v : Z) (nodes : list Node) (nu nv : Node)
    (p q : coord) (mid : list coord) :
  loc_node u nodes = Ok nu -> loc_node v nodes = Ok nv ->
  update_line_geometry_coords_reading PyList u v nodes (p :: mid ++ [q])
  = Ok ((n_x nu, n_y nu) :: mid ++ [(n_x nv, n_y nv)]).
Proof.
  intros Hu Hv; unfold update_line_geometry_coords_reading.
  rewrite Hu; cbn [bind setitem set_first]; rewrite Hv; cbn [bind].
  change ((n_x nu, n_y nu) :: mid ++ [q]) with (((n_x nu, n_y nu) :: mid) ++ [q]).
  rewrite set_last_snoc; reflexivity.
Qed.

(** As written, the first assignment raises once its right-hand side has
    found the node [u]. *)
Lemma update_line_geometry_coords_raises (u v : Z) (nodes : list Node) (g : LineString) :
  (In u (map n_index nodes) ->
   update_line_geometry_coords u v nodes g = Raise TypeError) /\
  (~ In u (map n_index nodes) ->
   update_line_geometry_coords u v nodes g = Raise KeyError).
Proof.
  unfold update_line_geometry_coords, update_line_geometry_coords_reading; split; intro H.
  - destruct (loc_node_present _ _ H) as (n & -> & _); reflexivity.
  - rewrite (loc_node_missing _ _ H); reflexivity.
Qed.

Lemma correct_edges_first_row (nodes : list Node) (e : Edge) (rest : list Edge) :
  (In (e_u e) (map n_index nodes) -> correct_edges nodes (e :: rest) = Raise TypeError) /\
  (~ In (e_u e) (map n_index nodes) -> correct_edges nodes (e :: rest) = Raise KeyError).
Proof.
  unfold correct_edges, correct_edges_reading; cbn [apply_rows].
  fold update_line_geometry_coords.
  destruct (update_line_geometry_coords_raises (e_u e) (e_v e) nodes (e_geometry e))
    as [Hin Hout].
  split; intro H; [rewrite (Hin H) | rewrite (Hout H)]; reflexivity.
Qed.

Lemma correct_edges_on_lists (nodes_gdf : list Node) (edges_gdf : list Edge) :
  edges_gdf <> [] ->
  (forall e, In e edges_gdf ->
     In (e_u e) (map n_index nodes_gdf) /\ In (e_v e) (map n_index nodes_gdf)) ->
  (forall e, In e edges_gdf -> (2 <= List.length (e_geometry e))%nat) ->
  exists edges1,
    correct_edges_reading PyList nodes_gdf edges_gdf = Ok edges1 /\
    Forall2
      (fun e e1 =>
         exists nu nv p mid q,
           loc_node (e_u e) nodes_gdf = Ok nu /\
           loc_node (e_v e) nodes_gdf = Ok nv /\
           e_geometry e = p :: mid ++ [q] /\
           e_geometry e1 = (n_x nu, n_y nu) :: mid ++ [(n_x nv, n_y nv)] /\
           e1 = set_geometry (e_geometry e1) e)
      edges_gdf edges1.
Proof.
  intros Hrows Hnodes Hlines.
  assert (H : exists edges1,
            apply_rows
              (fun row =>
                 g <- update_line_geometry_coords_reading PyList (e_u row) (e_v row)
                        nodes_gdf (e_geometry row) ;;
                 Ok (set_geometry g row))
              edges_gdf = Ok edges1 /\
            Forall2
              (fun e e1 =>
                 exists nu nv p mid q,
                   loc_node (e_u e) nodes_gdf = Ok nu /\
                   loc_node (e_v e) nodes_gdf = Ok nv /\
                   e_geometry e = p :: mid ++ [q] /\
                   e_geometry e1 = (n_x nu, n_y nu) :: mid ++ [(n_x nv, n_y nv)] /\
                   e1 = set_geometry (e_geometry e1) e)
              edges_gdf edges1).
  { clear Hrows; induction edges_gdf as [|e rest IH].
    - exists []; split; [reflexivity | constructor].
    - destruct IH as (rest1 & Hrest & Hall).
      + intros e' He'; apply Hnodes; right; exact He'.
      + intros e' He'; apply Hlines; right; exact He'.
      + destruct (Hnodes e (or_introl eq_refl)) as [Hu Hv].
        destruct (loc_node_present _ _ Hu) as (nu & Hnu & _).
        destruct (loc_node_present _ _ Hv) as (nv & Hnv & _).
        destruct (line_ends _ (Hlines e (or_introl eq_refl))) as (p & mid & q & Hg).
        exists (set_geometry ((n_x nu, n_y nu) :: mid ++ [(n_x nv, n_y nv)]) e :: rest1).
        split.
        * cbn [apply_rows]; rewrite Hg.
          rewrite (update_line_geometry_coords_on_list _ _ _ _ _ p q mid Hnu Hnv);
            cbn [bind].
          rewrite Hrest; reflexivity.
        * constructor; [|exact Hall].
          exists nu, nv, p, mid, q; repeat split; assumption. }
  unfold correct_edges_reading; destruct edges_gdf; [contradiction | exact H].
Qed.

(** C4.  [correct_edges] returns no edge table.  On a node table that holds
    the [u] of the first row of the edge table, line 411 raises [TypeError]:
    it assigns an item of the coordinate sequence of shapely, which
    supports no item assignment; the street whose line was drawn beside its
    nodes is such a call.  Had line 410 bound the list of the coordinates,
    the same lines would return, on a node table that holds every [u] and
    [v], the table given row for row, each line starting at the (x, y) of the
    row's [u] node and ending at the (x, y) of its [v] node, with the
    coordinates in between as they were; the line drawn beside its nodes
    would be moved onto them. *)
Theorem correct_edges_raises_TypeError :
  (forall (nodes_gdf : list Node) (e : Edge) (rest : list Edge),
      In (e_u e) (map n_index nodes_gdf) ->
      correct_edges nodes_gdf (e :: rest) = Raise TypeError) /\
  correct_edges drifted_nodes drifted_edges = Raise TypeError /\
  (forall (nodes_gdf : list Node) (edges_gdf : list Edge),
      edges_gdf <> [] ->
      (forall e, In e edges_gdf ->
         In (e_u e) (map n_index nodes_gdf) /\ In (e_v e) (map n_index nodes_gdf)) ->
      (forall e, In e edges_gdf -> (2 <= List.length (e_geometry e))%nat) ->
      exists edges1,
        correct_edges_reading PyList nodes_gdf edges_gdf = Ok edges1 /\
        Forall2
          (fun e e1 =>
             exists nu nv p mid q,
               loc_node (e_u e) nodes_gdf = Ok nu /\
               loc_node (e_v e) nodes_gdf = Ok nv /\
               e_geometry e = p :: mid ++ [q] /\
               e_geometry e1 = (n_x nu, n_y nu) :: mid ++ [(n_x nv, n_y nv)] /\
               e1 = set_geometry (e_geometry e1) e)
          edges_gdf edges1) /\
  correct_edges_reading PyList drifted_nodes drifted_edges
  = Ok [street 0 0 1 [pt 0 0; pt 2 1; pt 4 0]].
Proof.
  split; [intros nodes e rest; apply correct_edges_first_row|].
  split; [reflexivity|].
  split; [exact correct_edges_on_lists | reflexivity].
Qed.

(** ** Kept rows *)

Lemma same_street_refl (e : Edge) : same_street e e.
Proof. split; reflexivity. Qed.

Lemma same_ends_refl (e : Edge) : same_ends e e.
Proof. repeat split; reflexivity. Qed.

Lemma same_street_trans (a b c : Edge) :
  same_street a b -> same_street b c -> same_street a c.
Proof. intros [H1 H2] [H3 H4]; split; congruence. Qed.

Lemma same_ends_trans (a b c : Edge) :
  same_ends a b -> same_ends b c -> same_ends a c.
Proof.
  intros (H1 & H2 & H3) (H4 & H5 & H6); repeat split;
    try (eapply same_street_trans; eassumption); congruence.
Qed.

Lemma same_ends_street (a b : Edge) : same_ends a b -> same_street a b.
Proof. intros [H _]; exact H. Qed.

Create HintDb rows.
#[local] Hint Resolve same_street_refl same_ends_refl same_ends_street : rows.
#[local] Hint Constructors kept : rows.

Section Kept.
Variable R : Edge -> Edge -> Prop.

Lemma kept_refl (l : list Edge) : (forall e, R e e) -> kept R l l.
Proof. intro HR; induction l; auto with rows. Qed.

Lemma kept_trans (a b c : list Edge) :
  (forall x y z, R x y -> R y z -> R x z) ->
  kept R a b -> kept R b c -> kept R a c.
Proof.
  intros HR Hab Hbc; revert a Hab.
  induction Hbc as [|e out inp Hbc IH|e1 e out inp He Hbc IH]; intros a Hab.
  - exact Hab.
  - constructor; apply IH; exact Hab.
  - inversion Hab; subst.
    + constructor; apply IH; assumption.
    + constructor; [eapply HR; eassumption | apply IH; assumption].
Qed.

Lemma kept_map (f : Edge -> Edge) (l : list Edge) :
  (forall e, R (f e) e) -> kept R (map f l) l.
Proof. intro Hf; induction l; simpl; auto with rows. Qed.

Lemma kept_filter (p : Edge -> bool) (l : list Edge) :
  (forall e, R e e) -> kept R (filter p l) l.
Proof.
  intro HR; induction l as [|e l IH]; simpl; [constructor|].
  destruct (p e); auto with rows.
Qed.

Lemma kept_Forall (P : Edge -> Prop) (out inp : list Edge) :
  (forall e1 e, R e1 e -> P e -> P e1) ->
  kept R out inp -> Forall P inp -> Forall P out.
Proof.
  intros HP H; induction H; intro Hall; auto.
  - inversion Hall; auto.
  - inversion Hall; subst; constructor; eauto.
Qed.

Lemma kept_In (out inp : list Edge) (e1 : Edge) :
  kept R out inp -> In e1 out -> exists e, In e inp /\ R e1 e.
Proof.
  intro H; induction H; intro Hin.
  - contradiction.
  - destruct (IHkept Hin) as (x & Hx & Hr); exists x; split; [right|]; assumption.
  - destruct Hin as [<-|Hin].
    + exists e; split; [left; reflexivity | assumption].
    + destruct (IHkept Hin) as (x & Hx & Hr); exists x; split; [right|]; assumption.
Qed.

Lemma kept_labels (out inp : list Edge) :
  (forall e1 e, R e1 e -> streetID e1 = streetID e) ->
  kept R out inp -> NoDup (map streetID inp) -> NoDup (map streetID out).
Proof.
  intros HR H; induction H as [|e out inp H IH|e1 e out inp He H IH];
    simpl; intro Hnd.
  - constructor.
  - inversion Hnd; auto.
  - inversion Hnd as [|x l Hnotin Hnd']; subst; constructor; auto.
    intro Hin; apply Hnotin.
    apply in_map_iff in Hin as (y & Hy & Hyin).
    destruct (kept_In _ _ _ H Hyin) as (z & Hz & Hyz).
    apply in_map_iff; exists z; split; [|assumption].
    rewrite <- (HR _ _ Hyz), Hy; apply HR; assumption.
Qed.

Lemma kept_length (out inp : list Edge) :
  kept R out inp -> (List.length out <= List.length inp)%nat.
Proof. intro H; induction H; simpl; lia. Qed.
End Kept.

Lemma kept_weaken (R R1 : Edge -> Edge -> Prop) (out inp : list Edge) :
  (forall e1 e, R e1 e -> R1 e1 e) -> kept R out inp -> kept R1 out inp.
Proof. intros HR H; induction H; auto with rows. Qed.

(** ** What the column assignments leave alone *)

Lemma set_geometry_ends (g : LineString) (e : Edge) : same_ends (set_geometry g e) e.
Proof. repeat split. Qed.
Lemma set_pedestrian_ends (p : Z) (e : Edge) : same_ends (set_pedestrian p e) e.
Proof. repeat split. Qed.
Lemma set_attr_ends (c : string) (z : Z) (e : Edge) : same_ends (set_attr c z e) e.
Proof. repeat split. Qed.
Lemma set_code_ends (c : option (Z * Z)) (e : Edge) : same_ends (set_code c e) e.
Proof. repeat split. Qed.
Lemma set_coords_ends (c : coords_cell) (e : Edge) : same_ends (set_coords c e) e.
Proof. repeat split. Qed.
Lemma set_length_ends (l : option float) (e : Edge) : same_ends (set_length l e) e.
Proof. repeat split. Qed.
Lemma set_u_street (a : Z) (e : Edge) : same_street (set_u a e) e.
Proof. repeat split. Qed.
Lemma set_v_street (a : Z) (e : Edge) : same_street (set_v a e) e.
Proof. repeat split. Qed.

#[local] Hint Resolve set_geometry_ends set_pedestrian_ends set_attr_ends
  set_code_ends set_coords_ends set_length_ends set_u_street set_v_street : rows.
#[local] Hint Resolve same_ends_trans same_street_trans : rows.

Lemma at_edge_kept (R : Edge -> Edge -> Prop) (i : Z) (f : Edge -> Edge) (l : list Edge) :
  (forall e, R e e) -> (forall e, R (f e) e) -> kept R (at_edge i f l) l.
Proof.
  intros Hrefl Hf; unfold at_edge; apply kept_map.
  intro e; destruct (has_label i e); auto.
Qed.

Lemma drop_edges_kept (R : Edge -> Edge -> Prop) (labels : list Z) (l out : list Edge) :
  (forall e, R e e) -> drop_edges labels l = Ok out -> kept R out l.
Proof.
  intros Hrefl H; unfold drop_edges in H.
  destruct (forallb _ labels); [|discriminate].
  injection H as <-; apply kept_filter; exact Hrefl.
Qed.

Lemma drop_duplicates_kept (R : Edge -> Edge -> Prop) (key : Edge -> option LineString)
    (l : list Edge) :
  (forall e, R e e) -> forall seen, kept R (drop_duplicates key seen l) l.
Proof.
  intro Hrefl; induction l as [|e l IH]; intro seen; simpl; [constructor|].
  destruct (existsb _ seen); auto with rows.
Qed.

Lemma kept_ends_trans (a b c : list Edge) :
  kept same_ends a b -> kept same_ends b c -> kept same_ends a c.
Proof. apply kept_trans; exact same_ends_trans. Qed.

Lemma kept_street_trans (a b c : list Edge) :
  kept same_street a b -> kept same_street b c -> kept same_street a c.
Proof. apply kept_trans; exact same_street_trans. Qed.

Lemma kept_ends_street (a b : list Edge) : kept same_ends a b -> kept same_street a b.
Proof. apply kept_weaken; exact same_ends_street. Qed.

(** A loop over table rewrites, each of which keeps rows, keeps rows. *)
Lemma for_each_kept {I : Type} (R : Edge -> Edge -> Prop)
    (body : list Edge -> I -> result (list Edge)) :
  (forall e, R e e) -> (forall x y z, R x y -> R y z -> R x z) ->
  (forall s i s', body s i = Ok s' -> kept R s' s) ->
  forall items s s', for_each body items s = Ok s' -> kept R s' s.
Proof.
  intros Hrefl Htrans Hbody items s s' H.
  apply (for_each_invariant (fun t => kept R t s) body) with (items := items) (s := s).
  - intros t i t' Ht Hstep; eapply kept_trans; eauto.
  - apply kept_refl; exact Hrefl.
  - exact H.
Qed.

Section CollaboratorsKept.
Variable line_length : LineString -> float.
Variable center_line : LineString -> LineString -> LineString.

Lemma add_density_kept (ud : bool) (dc : option string) (i j : Z)
    (edges out : list Edge) :
  add_density ud dc i j edges = Ok out -> kept same_ends out edges.
Proof.
  unfold add_density; intro H; destruct ud.
  - destruct dc as [c|]; [|discriminate].
    apply bind_Ok in H as (r & _ & H).
    apply bind_Ok in H as (d & _ & H).
    apply bind_Ok in H as (rc & _ & H).
    apply bind_Ok in H as (d' & _ & H).
    injection H as <-; apply at_edge_kept; auto with rows.
  - injection H as <-; apply kept_refl; auto with rows.
Qed.

Lemma merge_connector_kept (line_geometry : LineString) (ix_line : Z) (ud : bool)
    (dc : option string) (edges out : list Edge) (connector : Edge) :
  merge_connector line_length center_line line_geometry ix_line ud dc edges connector
  = Ok out ->
  kept same_ends out edges.
Proof.
  unfold merge_connector; intro H.
  destruct (streetID connector =? ix_line).
  { injection H as <-; apply kept_refl; auto with rows. }
  apply bind_Ok in H as (rc & _ & H).
  apply bind_Ok in H as (edges3 & H3 & H).
  eapply kept_ends_trans; [eapply drop_edges_kept; eauto with rows|].
  eapply kept_ends_trans; [eapply add_density_kept; exact H3|].
  eapply kept_ends_trans.
  { destruct (e_pedestrian rc =? 1);
      [apply at_edge_kept | apply kept_refl]; auto with rows. }
  destruct (longer_by_30 _ _ _);
    [apply kept_refl | apply at_edge_kept]; auto with rows.
Qed.

Lemma merge_parallel_kept (ud : bool) (dc : option string) (edges out : list Edge)
    (key : Z * Z) :
  merge_parallel line_length center_line ud dc edges key = Ok out ->
  kept same_ends out edges.
Proof.
  unfold merge_parallel; intro H.
  destruct (sort_rows length_leb _) as [|reference others]; [discriminate|].
  eapply for_each_kept; [| |intros s i s' Hs; eapply merge_connector_kept; exact Hs|exact H];
    eauto with rows.
Qed.

Lemma merge_same_uv_kept (same_uv ud : bool) (dc : option string)
    (edges out : list Edge) :
  merge_same_uv line_length center_line same_uv ud dc edges = Ok out ->
  kept same_ends out edges.
Proof.
  unfold merge_same_uv; intro H; destruct same_uv.
  - eapply for_each_kept;
      [| |intros s i s' Hs; eapply merge_parallel_kept; exact Hs|exact H];
      eauto with rows.
  - injection H as <-; apply kept_refl; auto with rows.
Qed.

Lemma drop_duplicate_geometries_kept (edges out : list Edge) :
  drop_duplicate_geometries line_length edges = Ok out -> kept same_ends out edges.
Proof.
  unfold drop_duplicate_geometries, assign_coords, assign_code; intro H.
  apply bind_Ok in H as (tuples & _ & H); injection H as <-.
  eapply kept_ends_trans; [apply drop_duplicates_kept; auto with rows|].
  eapply kept_ends_trans; [apply drop_duplicates_kept; auto with rows|].
  eapply kept_ends_trans; [apply kept_map|].
  { intro e; destruct (swapped e); auto with rows. }
  eapply kept_ends_trans; apply kept_map; auto with rows.
Qed.
End CollaboratorsKept.

Lemma fix_dead_ends_kept (nodes nodes1 : list Node) (edges edges1 : list Edge) :
  fix_dead_ends nodes edges = Ok (nodes1, edges1) -> kept same_ends edges1 edges.
Proof.
  unfold fix_dead_ends; intro H.
  destruct (with_degree 1 edges) as [|k ks].
  - injection H as _ <-; apply kept_refl; auto with rows.
  - apply bind_Ok in H as (n1 & _ & H); injection H as _ <-.
    eapply kept_ends_trans; apply kept_filter; auto with rows.
Qed.

Lemma is_edges_simplified_kept (edges : list Edge) :
  kept same_ends (snd (is_edges_simplified edges)) edges.
Proof.
  unfold is_edges_simplified.
  assert (H : kept same_ends (assign_code (map (set_code None) edges)) edges).
  { unfold assign_code; eapply kept_ends_trans; apply kept_map; auto with rows. }
  destruct (shared_codes _); exact H.
Qed.

Lemma tag_highways_kept (highway_column : bool) (edges : list Edge) :
  kept same_ends (tag_highways highway_column edges) edges.
Proof.
  unfold tag_highways; destruct highway_column; [|apply kept_refl; auto with rows].
  eapply kept_ends_trans; [apply kept_map|].
  { intro e; destruct (isin _ _); auto with rows. }
  eapply kept_ends_trans; [apply kept_filter | apply kept_map]; auto with rows.
Qed.

(** ** Rows by label *)

Lemma loc_edge_In (i : Z) (l : list Edge) (r : Edge) :
  loc_edge i l = Ok r -> In r l /\ streetID r = i.
Proof.
  unfold loc_edge; destruct (find (has_label i) l) eqn:E; [|discriminate].
  intro H; injection H as <-.
  apply find_some in E as [Hin Hl]; split; [exact Hin | apply Z.eqb_eq; exact Hl].
Qed.

Lemma loc_edge_unique (i : Z) (l : list Edge) (r x : Edge) :
  NoDup (map streetID l) -> loc_edge i l = Ok r ->
  In x l -> streetID x = i -> x = r.
Proof.
  unfold loc_edge; induction l as [|e l IH]; simpl; intros Hnd H Hin Hx.
  - contradiction.
  - inversion Hnd as [|y ys Hnotin Hnd']; subst.
    unfold has_label at 1 in H.
    destruct (streetID e =? streetID x) eqn:E.
    + injection H as <-; apply Z.eqb_eq in E.
      destruct Hin as [Hin|Hin]; [symmetry; exact Hin|].
      exfalso; apply Hnotin; rewrite E; apply in_map; exact Hin.
    + destruct Hin as [->|Hin]; [rewrite Z.eqb_refl in E; discriminate|].
      apply IH; auto.
Qed.

Lemma loc_edge_self (l : list Edge) (x : Edge) :
  NoDup (map streetID l) -> In x l -> loc_edge (streetID x) l = Ok x.
Proof.
  intros Hnd Hin.
  destruct (loc_edge (streetID x) l) as [r|err] eqn:E.
  - f_equal; symmetry; eapply loc_edge_unique; eauto.
  - unfold loc_edge in E.
    destruct (find (has_label (streetID x)) l) eqn:F; [discriminate|].
    exfalso; pose proof (find_none _ _ F x Hin) as Hx.
    unfold has_label in Hx; rewrite Z.eqb_refl in Hx; discriminate.
Qed.

Lemma loc_edge_missing (i : Z) (l : list Edge) :
  ~ In i (map streetID l) -> loc_edge i l = Raise KeyError.
Proof.
  intro Hnot; unfold loc_edge.
  destruct (find (has_label i) l) eqn:F; [|reflexivity].
  apply find_some in F as [Hin Hl]; unfold has_label in Hl.
  apply Z.eqb_eq in Hl; exfalso; apply Hnot; rewrite <- Hl; apply in_map; exact Hin.
Qed.

Lemma at_edge_In (i : Z) (f : Edge -> Edge) (l : list Edge) (e : Edge) :
  In e (at_edge i f l) ->
  (In e l /\ has_label i e = false) \/
  (exists x, In x l /\ streetID x = i /\ e = f x).
Proof.
  unfold at_edge; intro H; apply in_map_iff in H as (x & Hx & Hin).
  destruct (has_label i x) eqn:E.
  - right; exists x; repeat split; auto; apply Z.eqb_eq; exact E.
  - left; subst; auto.
Qed.

Lemma at_edge_id (i : Z) (l : list Edge) : at_edge i (fun e => e) l = l.
Proof.
  unfold at_edge; induction l as [|e l IH]; simpl; [reflexivity|].
  rewrite IH; destruct (has_label i e); reflexivity.
Qed.

Lemma at_edge_labels (i : Z) (f : Edge -> Edge) (l : list Edge) :
  (forall e, streetID (f e) = streetID e) ->
  map streetID (at_edge i f l) = map streetID l.
Proof.
  intro Hf; unfold at_edge; rewrite map_map; apply map_ext.
  intro e; destruct (has_label i e); auto.
Qed.

Lemma at_edge_twice (i : Z) (f g : Edge -> Edge) (l : list Edge) :
  (forall e, streetID (f e) = streetID e) ->
  at_edge i g (at_edge i f l) = at_edge i (fun e => g (f e)) l.
Proof.
  intro Hf; unfold at_edge; rewrite map_map; apply map_ext; intro e.
  destruct (has_label i e) eqn:E.
  - unfold has_label in *; rewrite Hf, E; reflexivity.
  - rewrite E; reflexivity.
Qed.

(** Away from the label an assignment writes to, a property of the rows
    stays. *)
Lemma at_edge_elsewhere (P : Edge -> Prop) (i : Z) (f : Edge -> Edge) (l : list Edge) :
  (forall e, streetID (f e) = streetID e) ->
  (forall x, In x l -> streetID x <> i -> P x) ->
  forall x, In x (at_edge i f l) -> streetID x <> i -> P x.
Proof.
  intros Hf HP x Hin Hx.
  apply at_edge_In in Hin as [[Hin _]|(y & Hy & Hi & ->)]; [auto|].
  exfalso; apply Hx; rewrite Hf; exact Hi.
Qed.

Lemma loc_edge_at_edge (i : Z) (f : Edge -> Edge) (l : list Edge) (r : Edge) :
  (forall e, streetID (f e) = streetID e) ->
  loc_edge i l = Ok r -> loc_edge i (at_edge i f l) = Ok (f r).
Proof.
  intro Hf; unfold loc_edge, at_edge; induction l as [|e l IH]; simpl; [discriminate|].
  destruct (has_label i e) eqn:E.
  - intro H; injection H as <-.
    unfold has_label in *; rewrite Hf, E; reflexivity.
  - rewrite E; exact IH.
Qed.

Lemma loc_edge_at_other (i j : Z) (f : Edge -> Edge) (l : list Edge) :
  (forall e, streetID (f e) = streetID e) -> i <> j ->
  loc_edge j (at_edge i f l) = loc_edge j l.
Proof.
  intros Hf Hij; unfold loc_edge, at_edge; induction l as [|e l IH]; simpl; [reflexivity|].
  destruct (has_label i e) eqn:E.
  - unfold has_label in *; rewrite Hf.
    apply Z.eqb_eq in E; rewrite E.
    destruct (i =? j) eqn:F; [apply Z.eqb_eq in F; contradiction | exact IH].
  - destruct (has_label j e); [reflexivity | exact IH].
Qed.

Lemma drop_edges_present (labels : list Z) (l : list Edge) :
  (forall i, In i labels -> In i (map streetID l)) ->
  drop_edges labels l = Ok (filter (fun e => negb (mem (streetID e) labels)) l).
Proof.
  intro H; unfold drop_edges.
  replace (forallb _ labels) with true; [reflexivity|].
  symmetry; apply forallb_forall; intros i Hi.
  apply existsb_exists; apply H in Hi.
  apply in_map_iff in Hi as (e & He & Hin).
  exists e; split; [exact Hin | apply Z.eqb_eq; exact He].
Qed.

Lemma drop_nodes_present (node : Z) (nodes : list Node) :
  In node (map n_index nodes) ->
  drop_nodes [node] nodes = Ok (filter (fun n => negb (mem (n_index n) [node])) nodes).
Proof.
  intro H; unfold drop_nodes; simpl.
  replace (existsb (fun n => n_index n =? node) nodes) with true; [reflexivity|].
  symmetry; apply existsb_exists.
  apply in_map_iff in H as (n & Hn & Hin).
  exists n; split; [exact Hin | apply Z.eqb_eq; exact Hn].
Qed.

Lemma mem_In (i : Z) (l : list Z) : mem i l = true <-> In i l.
Proof.
  unfold mem; rewrite existsb_exists; split.
  - intros (x & Hx & E); apply Z.eqb_eq in E; subst; exact Hx.
  - intro H; exists i; split; [exact H | apply Z.eqb_refl].
Qed.

(** ** The contraction step *)

(** [relate] assigns endpoints of the first edge and nothing else. *)
Lemma relate_shape (first second : Edge) (i j : Z) (edges edges1 : list Edge)
    (A B : LineString) :
  relate first second i j edges = Ok (edges1, A, B) ->
  exists f,
    (forall e, same_street (f e) e /\ e_geometry (f e) = e_geometry e /\
               e_pedestrian (f e) = e_pedestrian e /\ e_attrs (f e) = e_attrs e) /\
    edges1 = at_edge i f edges.
Proof.
  unfold relate; intro H.
  destruct (e_u first =? e_u second).
  { apply bind_Ok in H as (r1 & _ & H); apply bind_Ok in H as (r2 & _ & H).
    injection H as <- _ _.
    exists (fun e => set_v (e_v r2) (set_u (e_v r1) e)); split.
    - intro e; repeat split.
    - rewrite at_edge_twice; reflexivity. }
  destruct (e_u first =? e_v second).
  { apply bind_Ok in H as (r2 & _ & H); injection H as <- _ _.
    exists (set_u (e_u r2)); split; [intro e; repeat split | reflexivity]. }
  destruct (e_v first =? e_u second).
  { apply bind_Ok in H as (r2 & _ & H); injection H as <- _ _.
    exists (set_v (e_v r2)); split; [intro e; repeat split | reflexivity]. }
  apply bind_Ok in H as (r2 & _ & H); injection H as <- _ _.
  exists (set_v (e_u r2)); split; [intro e; repeat split | reflexivity].
Qed.

Lemma keep_max_kept (ud : bool) (dc : option string) (i j : Z) (edges out : list Edge) :
  keep_max ud dc i j edges = Ok out -> kept same_ends out edges.
Proof.
  unfold keep_max; intro H; destruct ud.
  - apply bind_Ok in H as (r1 & _ & H).
    apply bind_Ok in H as (d1 & _ & H).
    apply bind_Ok in H as (r2 & _ & H).
    apply bind_Ok in H as (d2 & _ & H).
    destruct dc as [c|]; [|discriminate].
    injection H as <-; apply at_edge_kept; auto with rows.
  - injection H as <-; apply kept_refl; auto with rows.
Qed.

Lemma contract_kept (ud : bool) (dc : option string) (nodes nodes1 : list Node)
    (edges edges1 : list Edge) (node : Z) :
  contract ud dc (nodes, edges) node = Ok (nodes1, edges1) ->
  kept same_street edges1 edges.
Proof.
  unfold contract; intro H.
  destruct (filter (incident node) edges) as [|first [|second rest]].
  - apply bind_Ok in H as (n1 & _ & H); injection H as _ <-.
    apply kept_refl; auto with rows.
  - injection H as _ <-; apply kept_refl; auto with rows.
  - apply bind_Ok in H as ([[e1 A] B] & Hrel & H).
    apply bind_Ok in H as (e2 & Hmax & H).
    apply bind_Ok in H as (r & _ & H).
    apply relate_shape in Hrel as (f & Hf & ->).
    apply keep_max_kept in Hmax; apply kept_ends_street in Hmax.
    assert (H1 : kept same_street (at_edge (streetID first) f edges) edges).
    { apply at_edge_kept; auto with rows; intro e; apply Hf. }
    destruct (e_u r =? e_v r).
    + apply bind_Ok in H as (e3 & H3 & H).
      apply bind_Ok in H as (n1 & _ & H); injection H as _ <-.
      eapply kept_street_trans; [eapply drop_edges_kept; eauto with rows|].
      exact (kept_street_trans _ _ _ Hmax H1).
    + apply bind_Ok in H as (r2 & _ & H).
      apply bind_Ok in H as (e5 & H5 & H).
      apply bind_Ok in H as (n1 & _ & H); injection H as _ <-.
      eapply kept_street_trans; [eapply drop_edges_kept; eauto with rows|].
      apply (kept_street_trans _ e2 _); [|exact (kept_street_trans _ _ _ Hmax H1)].
      apply kept_ends_street.
      apply (kept_ends_trans _ (at_edge (streetID first) (set_geometry (A ++ B)) e2) _);
        [|apply at_edge_kept; auto with rows].
      destruct (e_pedestrian r2 =? 1);
        [apply at_edge_kept | apply kept_refl]; auto with rows.
Qed.

Lemma drop_edges_Ok (labels : list Z) (l out : list Edge) :
  drop_edges labels l = Ok out ->
  out = filter (fun e => negb (mem (streetID e) labels)) l.
Proof.
  unfold drop_edges; destruct (forallb _ labels); [|discriminate].
  intro H; injection H as <-; reflexivity.
Qed.

Lemma keep_max_shape (ud : bool) (dc : option string) (i j : Z) (edges out : list Edge) :
  keep_max ud dc i j edges = Ok out ->
  exists g, (forall e, same_ends (g e) e) /\ out = at_edge i g edges.
Proof.
  unfold keep_max; intro H; destruct ud.
  - apply bind_Ok in H as (r1 & _ & H).
    apply bind_Ok in H as (d1 & _ & H).
    apply bind_Ok in H as (r2 & _ & H).
    apply bind_Ok in H as (d2 & _ & H).
    destruct dc as [c|]; [|discriminate].
    injection H as <-; exists (set_attr c (Z.max d1 d2)); split; auto with rows.
  - injection H as <-; exists (fun e => e); split;
      [auto with rows | symmetry; apply at_edge_id].
Qed.

Lemma no_loop_ends (e1 e : Edge) : same_ends e1 e -> no_loop e -> no_loop e1.
Proof. intros (_ & Hu & Hv); unfold no_loop; congruence. Qed.

Lemma same_street_label (e1 e : Edge) : same_street e1 e -> streetID e1 = streetID e.
Proof. intros [H _]; exact H. Qed.

Lemma same_ends_label (e1 e : Edge) : same_ends e1 e -> streetID e1 = streetID e.
Proof. intros [[H _] _]; exact H. Qed.

(** A contraction leaves no edge that starts and ends in one node. *)
Lemma contract_no_loop (ud : bool) (dc : option string) (nodes nodes1 : list Node)
    (edges edges1 : list Edge) (node : Z) :
  NoDup (map streetID edges) -> Forall no_loop edges ->
  contract ud dc (nodes, edges) node = Ok (nodes1, edges1) ->
  Forall no_loop edges1.
Proof.
  intros Hnd Hall H; unfold contract in H.
  destruct (filter (incident node) edges) as [|first [|second rest]].
  - apply bind_Ok in H as (n1 & _ & H); injection H as _ <-; exact Hall.
  - injection H as _ <-; exact Hall.
  - apply bind_Ok in H as ([[e1 A] B] & Hrel & H).
    apply bind_Ok in H as (e2 & Hmax & H).
    apply bind_Ok in H as (r & Hr & H).
    apply relate_shape in Hrel as (f & Hf & ->).
    apply keep_max_shape in Hmax as (g & Hg & ->).
    set (i := streetID first) in *.
    assert (Helse : forall x, In x (at_edge i g (at_edge i f edges)) ->
                              streetID x <> i -> no_loop x).
    { apply at_edge_elsewhere; [intro e; apply same_ends_label, Hg|].
      apply at_edge_elsewhere; [intro e; apply same_street_label, Hf|].
      intros x Hx _; revert x Hx; apply Forall_forall; exact Hall. }
    assert (Hnd2 : NoDup (map streetID (at_edge i g (at_edge i f edges)))).
    { rewrite !at_edge_labels; [exact Hnd| |];
        intro e; [apply same_street_label, Hf | apply same_ends_label, Hg]. }
    destruct (e_u r =? e_v r) eqn:E.
    + apply bind_Ok in H as (e3 & H3 & H).
      apply bind_Ok in H as (n1 & _ & H); injection H as _ <-.
      apply drop_edges_Ok in H3; subst e3.
      apply Forall_forall; intros x Hx.
      apply filter_In in Hx as [Hx Hl]; apply Helse; [exact Hx|].
      intro Hi; rewrite Hi in Hl; simpl in Hl.
      rewrite Z.eqb_refl in Hl; discriminate.
    + apply bind_Ok in H as (r2 & _ & H).
      apply bind_Ok in H as (e5 & H5 & H).
      apply bind_Ok in H as (n1 & _ & H); injection H as _ <-.
      assert (Hall2 : Forall no_loop (at_edge i g (at_edge i f edges))).
      { apply Forall_forall; intros x Hx.
        destruct (Z.eq_dec (streetID x) i) as [Hi|Hi]; [|apply Helse; assumption].
        rewrite (loc_edge_unique _ _ _ _ Hnd2 Hr Hx Hi).
        apply Z.eqb_neq; exact E. }
      eapply kept_Forall; [exact no_loop_ends| |exact Hall2].
      eapply kept_ends_trans; [eapply drop_edges_kept; eauto with rows|].
      apply (kept_ends_trans _
               (at_edge i (set_geometry (A ++ B)) (at_edge i g (at_edge i f edges))) _);
        [|apply at_edge_kept; auto with rows].
      destruct (e_pedestrian r2 =? 1);
        [apply at_edge_kept | apply kept_refl]; auto with rows.
Qed.

(** ** Unique labels and no loops, through the passes *)

Lemma kept_ends_sound (out inp : list Edge) :
  kept same_ends out inp ->
  NoDup (map streetID inp) /\ Forall no_loop inp ->
  NoDup (map streetID out) /\ Forall no_loop out.
Proof.
  intros H [Hnd Hall]; split.
  - eapply kept_labels; [|exact H|exact Hnd]; exact same_ends_label.
  - eapply kept_Forall; [exact no_loop_ends|exact H|exact Hall].
Qed.

Lemma simplify_graph_sound (ud : bool) (dc : option string) (nodes nodes1 : list Node)
    (edges edges1 : list Edge) :
  NoDup (map streetID edges) /\ Forall no_loop edges ->
  simplify_graph nodes edges ud dc = Ok (nodes1, edges1) ->
  NoDup (map streetID edges1) /\ Forall no_loop edges1.
Proof.
  intros Hinv H; unfold simplify_graph in H.
  destruct (with_degree 2 edges) as [|k ks]; [injection H as _ <-; exact Hinv|].
  apply (for_each_invariant
           (fun t => NoDup (map streetID (snd t)) /\ Forall no_loop (snd t))
           (contract ud dc)) with (items := k :: ks) (s := (nodes, edges))
                                  (s' := (nodes1, edges1)); [|exact Hinv|exact H].
  intros [n e] node [n1 e1] [Hnd Hall] Hstep; simpl in *; split.
  - eapply kept_labels; [|eapply contract_kept; exact Hstep|exact Hnd].
    exact same_street_label.
  - eapply contract_no_loop; eassumption.
Qed.

Lemma insert_sorted_perm {A : Type} (leb : A -> A -> bool) (a : A) (l : list A) :
  Permutation (insert_sorted leb a l) (a :: l).
Proof.
  induction l as [|b l IH]; simpl; [reflexivity|].
  destruct (leb a b); [reflexivity|].
  rewrite IH; apply perm_swap.
Qed.

Lemma sort_rows_perm {A : Type} (leb : A -> A -> bool) (l : list A) :
  Permutation (sort_rows leb l) l.
Proof.
  induction l as [|a l IH]; simpl; [reflexivity|].
  rewrite insert_sorted_perm; constructor; exact IH.
Qed.

(** As the source stands, the Identity Resolver returns only when it has
    nothing to rename: the first duplicate it looks at makes it read a
    column that no node table has. *)
Lemma duplicate_nodes_Ok (nodes nodes1 : list Node) (edges edges1 : list Edge) :
  duplicate_nodes nodes edges = Ok (nodes1, edges1) ->
  nodes1 = reindex nodes /\ edges1 = edges.
Proof.
  unfold duplicate_nodes, duplicate_nodes_reading; intro H.
  destruct (set_of _) as [|node rest].
  - injection H as <- <-; split; reflexivity.
  - apply bind_Ok in H as (e1 & H & _); simpl in H.
    apply bind_Ok in H as (e2 & H & _); unfold readjust in H.
    apply bind_Ok in H as (r & _ & H); discriminate H.
Qed.

Section CollaboratorsSound.
Variable line_length : LineString -> float.
Variable center_line : LineString -> LineString -> LineString.

Lemma cycle_body_sound (dead_ends same_uv ud : bool) (dc : option string)
    (nodes nodes1 : list Node) (edges edges1 : list Edge) :
  NoDup (map streetID edges) /\ Forall no_loop edges ->
  cycle_body line_length center_line dead_ends same_uv ud dc (nodes, edges)
  = Ok (nodes1, edges1) ->
  NoDup (map streetID edges1) /\ Forall no_loop edges1.
Proof.
  intros Hinv H; unfold cycle_body in H.
  apply bind_Ok in H as (e1 & H1 & H).
  apply bind_Ok in H as (e2 & H2 & H).
  apply bind_Ok in H as ([n2 e3] & H3 & H).
  eapply simplify_graph_sound; [|exact H].
  assert (Hinv2 : NoDup (map streetID e2) /\ Forall no_loop e2).
  { eapply kept_ends_sound; [eapply merge_same_uv_kept; exact H2|].
    eapply kept_ends_sound; [eapply drop_duplicate_geometries_kept; exact H1|exact Hinv]. }
  destruct dead_ends.
  - eapply kept_ends_sound; [eapply fix_dead_ends_kept; exact H3|exact Hinv2].
  - injection H3 as _ <-; exact Hinv2.
Qed.

Lemma convergence_loop_sound (fuel : nat) (dead_ends same_uv ud : bool)
    (dc : option string) :
  forall (nodes : list Node) (edges : list Edge) (cycle : Z)
         (nodes1 : list Node) (edges1 : list Edge) (cycle1 : Z),
  NoDup (map streetID edges) /\ Forall no_loop edges ->
  convergence_loop line_length center_line fuel dead_ends same_uv ud dc
                   nodes edges cycle = Ok (Some (nodes1, edges1, cycle1)) ->
  NoDup (map streetID edges1) /\ Forall no_loop edges1.
Proof.
  induction fuel as [|fuel IH]; intros nodes edges cycle nodes1 edges1 cycle1 Hinv H;
    simpl in H; [discriminate|].
  pose proof (is_edges_simplified_kept edges) as Hk.
  destruct (is_edges_simplified edges) as [simplified e1]; simpl in Hk.
  pose proof (kept_ends_sound _ _ Hk Hinv) as Hinv1.
  destruct (negb simplified || negb (is_nodes_simplified e1)).
  - apply bind_Ok in H as ([n2 e2] & H2 & H).
    eapply IH; [|exact H]; eapply cycle_body_sound; eassumption.
  - injection H as _ <- _; exact Hinv1.
Qed.
End CollaboratorsSound.

Lemma simplify_graph_kept (ud : bool) (dc : option string) (nodes nodes1 : list Node)
    (edges edges1 : list Edge) :
  simplify_graph nodes edges ud dc = Ok (nodes1, edges1) -> kept same_street edges1 edges.
Proof.
  unfold simplify_graph; intro H.
  destruct (with_degree 2 edges) as [|k ks];
    [injection H as _ <-; apply kept_refl; auto with rows|].
  apply (for_each_invariant (fun t => kept same_street (snd t) edges) (contract ud dc))
    with (items := k :: ks) (s := (nodes, edges)) (s' := (nodes1, edges1));
    [|apply kept_refl; auto with rows|exact H].
  intros [n e] node [n1 e1] Hk Hstep; simpl in *.
  eapply kept_street_trans; [eapply contract_kept; exact Hstep|exact Hk].
Qed.

Section CollaboratorsStreets.
Variable line_length : LineString -> float.
Variable center_line : LineString -> LineString -> LineString.

Lemma cycle_body_kept (dead_ends same_uv ud : bool) (dc : option string)
    (nodes nodes1 : list Node) (edges edges1 : list Edge) :
  cycle_body line_length center_line dead_ends same_uv ud dc (nodes, edges)
  = Ok (nodes1, edges1) ->
  kept same_street edges1 edges.
Proof.
  unfold cycle_body; intro H.
  apply bind_Ok in H as (e1 & H1 & H).
  apply bind_Ok in H as (e2 & H2 & H).
  apply bind_Ok in H as ([n2 e3] & H3 & H).
  eapply kept_street_trans; [eapply simplify_graph_kept; exact H|].
  apply kept_ends_street.
  apply (kept_ends_trans _ e2 _).
  - destruct dead_ends.
    + eapply fix_dead_ends_kept; exact H3.
    + injection H3 as _ <-; apply kept_refl; auto with rows.
  - eapply kept_ends_trans; [eapply merge_same_uv_kept; exact H2|].
    eapply drop_duplicate_geometries_kept; exact H1.
Qed.

Lemma convergence_loop_kept (fuel : nat) (dead_ends same_uv ud : bool)
    (dc : option string) :
  forall (nodes : list Node) (edges : list Edge) (cycle : Z)
         (nodes1 : list Node) (edges1 : list Edge) (cycle1 : Z),
  convergence_loop line_length center_line fuel dead_ends same_uv ud dc
                   nodes edges cycle = Ok (Some (nodes1, edges1, cycle1)) ->
  kept same_street edges1 edges.
Proof.
  induction fuel as [|fuel IH]; intros nodes edges cycle nodes1 edges1 cycle1 H;
    simpl in H; [discriminate|].
  pose proof (is_edges_simplified_kept edges) as Hk.
  destruct (is_edges_simplified edges) as [simplified e1]; simpl in Hk.
  apply kept_ends_street in Hk.
  destruct (negb simplified || negb (is_nodes_simplified e1)).
  - apply bind_Ok in H as ([n2 e2] & H2 & H).
    eapply kept_street_trans; [eapply IH; exact H|].
    eapply kept_street_trans; [eapply cycle_body_kept; exact H2|exact Hk].
  - injection H as _ <- _; exact Hk.
Qed.

(** ** The call as written

    Line 276 fails on a node table without rows; on every other node table
    line 279 reads a name that is bound nowhere.  No call gets further. *)

Lemma enter_raises (highway_column : bool) (nodes : list Node) (edges : list Edge) :
  (nodes = [] -> enter highway_column nodes edges = Raise ValueError) /\
  (nodes <> [] -> enter highway_column nodes edges = Raise NameError).
Proof.
  unfold enter, enter_with; split; intro H.
  - subst nodes; reflexivity.
  - destruct nodes as [|n rest]; [contradiction | reflexivity].
Qed.

Lemma clean_network_raises (fuel : nat) (highway_column : bool)
    (nodes : list Node) (edges : list Edge)
    (dead_ends remove same_uv ud : bool) (dc : option string) :
  (nodes = [] ->
   clean_network line_length center_line fuel highway_column nodes edges
                 dead_ends remove same_uv ud dc = Raise ValueError) /\
  (nodes <> [] ->
   clean_network line_length center_line fuel highway_column nodes edges
                 dead_ends remove same_uv ud dc = Raise NameError).
Proof.
  unfold clean_network.
  destruct (enter_raises highway_column nodes edges) as [Hempty Hrows].
  split; intro H; [rewrite (Hempty H) | rewrite (Hrows H)]; reflexivity.
Qed.
End CollaboratorsStreets.

(** ** Road types at entry *)

Lemma tag_highways_rows (edges : list Edge) (e : Edge) :
  In e (tag_highways true edges) ->
  isin (e_highway e) to_remove = false /\
  e_pedestrian e = (if isin (e_highway e) pedestrian then 1 else 0).
Proof.
  unfold tag_highways; intro H.
  apply in_map_iff in H as (x & Hx & Hin).
  apply filter_In in Hin as [Hin Hkeep].
  apply in_map_iff in Hin as (y & Hy & _).
  apply negb_true_iff in Hkeep.
  subst x; simpl in *.
  destruct (isin (e_highway y) pedestrian) eqn:E; subst e; simpl; rewrite E; auto.
Qed.

Lemma tag_highways_keeps (edges : list Edge) (x : Edge) :
  In x edges -> isin (e_highway x) to_remove = false ->
  In (streetID x) (map streetID (tag_highways true edges)).
Proof.
  intros Hin Hkeep; unfold tag_highways.
  rewrite map_map; apply in_map_iff.
  exists (set_pedestrian 0 x); split.
  - destruct (isin _ pedestrian); reflexivity.
  - apply filter_In; split; [apply in_map; exact Hin|].
    simpl; rewrite Hkeep; reflexivity.
Qed.

Lemma tag_highways_highway (edges : list Edge) (e : Edge) :
  In e (tag_highways true edges) ->
  exists x, In x edges /\ streetID e = streetID x /\ e_highway e = e_highway x /\
            e_u e = e_u x /\ e_v e = e_v x /\ e_geometry e = e_geometry x.
Proof.
  unfold tag_highways; intro H.
  apply in_map_iff in H as (x & Hx & Hin).
  apply filter_In in Hin as [Hin _].
  apply in_map_iff in Hin as (y & Hy & Hin).
  exists y; split; [exact Hin|].
  subst x e; destruct (isin _ pedestrian); simpl; auto.
Qed.

(** C10.  Lines 283 to 288 are not reached: with a 'highway' column as
    without one, the call on a node table with a row raises [NameError] at
    line 279, as on the three streets out of node 1, and no edge is removed
    or flagged.  The lines themselves, on the table they are given: a row
    is left for every row that is no 'primary_link' and no 'elevator', and
    for no other; what is left is the street it was, and its pedestrian
    flag is 1 on 'footway', 'pedestrian', 'living_street' and 'path' and 0
    on every other road type; on the seven road types, the two are removed
    and the four are flagged. *)
Theorem highway_block_is_not_reached :
  (forall (line_length : LineString -> float)
          (center_line : LineString -> LineString -> LineString)
          (fuel : nat) (nodes : list Node) (edges : list Edge)
          (dead_ends remove same_uv ud : bool) (dc : option string),
      nodes <> [] ->
      clean_network line_length center_line fuel true nodes edges
                    dead_ends remove same_uv ud dc = Raise NameError)
  /\
  (forall fuel : nat,
      clean_network rectilinear_length between fuel true star_nodes star_edges
                    false true true false None = Raise NameError)
  /\
  (forall (edges : list Edge) (e : Edge),
      In e (tag_highways true edges) ->
      isin (e_highway e) to_remove = false /\
      e_pedestrian e = (if isin (e_highway e) pedestrian then 1 else 0) /\
      exists x, In x edges /\ streetID e = streetID x /\ e_highway e = e_highway x /\
                e_u e = e_u x /\ e_v e = e_v x /\ e_geometry e = e_geometry x)
  /\
  (forall (edges : list Edge) (x : Edge),
      In x edges -> isin (e_highway x) to_remove = false ->
      In (streetID x) (map streetID (tag_highways true edges)))
  /\
  map (fun e => (e_highway e, e_pedestrian e)) (tag_highways true road_types)
  = [(Some "footway", 1); (Some "residential", 0); (Some "pedestrian", 1);
     (Some "living_street", 1); (Some "path", 1)]%string.
Proof.
  split; [|split; [|split; [|split]]].
  - intros line_length center_line fuel nodes edges dead_ends remove same_uv ud dc H.
    apply clean_network_raises; exact H.
  - intro fuel; reflexivity.
  - intros edges e H.
    destruct (tag_highways_rows edges e H) as [H1 H2].
    split; [exact H1|]; split; [exact H2|].
    apply tag_highways_highway; exact H.
  - exact tag_highways_keeps.
  - reflexivity.
Qed.

(** ** The four cases of the contraction *)

Lemma starts_at_app (a b : LineString) (p : coord) :
  starts_at a p -> starts_at (a ++ b) p.
Proof. unfold starts_at; destruct a; simpl; [discriminate | auto]. Qed.

Lemma ends_at_app (a b : LineString) (p : coord) :
  ends_at b p -> ends_at (a ++ b) p.
Proof.
  unfold ends_at; rewrite rev_app_distr.
  destruct (rev b); simpl; [discriminate | auto].
Qed.

Lemma ends_at_rev (l : LineString) (p : coord) : starts_at l p -> ends_at (rev l) p.
Proof. unfold starts_at, ends_at; rewrite rev_involutive; auto. Qed.

Lemma starts_at_rev (l : LineString) (p : coord) : ends_at l p -> starts_at (rev l) p.
Proof. unfold starts_at, ends_at; auto. Qed.

(** In the first three cases (the two edges both start in the shared
    node, or one ends where the other starts) the two coordinate lists meet
    in one point and the merged line runs from the new [u] to the new [v];
    [pos] gives the coordinates of a node. *)
Lemma relate_joins (pos : Z -> coord) (edges : list Edge) (first second : Edge) :
  NoDup (map streetID edges) -> In first edges -> In second edges ->
  streetID first <> streetID second ->
  starts_at (e_geometry first) (pos (e_u first)) ->
  ends_at (e_geometry first) (pos (e_v first)) ->
  starts_at (e_geometry second) (pos (e_u second)) ->
  ends_at (e_geometry second) (pos (e_v second)) ->
  (e_u first =? e_u second) || (e_u first =? e_v second) || (e_v first =? e_u second)
  = true ->
  exists edges1 A B r,
    relate first second (streetID first) (streetID second) edges = Ok (edges1, A, B) /\
    loc_edge (streetID first) edges1 = Ok r /\
    (exists p, ends_at A p /\ starts_at B p) /\
    starts_at (A ++ B) (pos (e_u r)) /\ ends_at (A ++ B) (pos (e_v r)).
Proof.
  intros Hnd Hf Hs Hij Hfs Hfe Hss Hse Hcase.
  pose proof (loc_edge_self _ _ Hnd Hf) as Lf.
  pose proof (loc_edge_self _ _ Hnd Hs) as Ls.
  unfold relate.
  destruct (e_u first =? e_u second) eqn:E1.
  { apply Z.eqb_eq in E1.
    rewrite Lf; cbn [bind].
    rewrite (loc_edge_at_other _ _ (set_u (e_v first)) _ (fun e => eq_refl) Hij).
    rewrite Ls; cbn [bind].
    eexists; eexists; eexists; eexists; split; [reflexivity|]; split.
    - rewrite at_edge_twice by reflexivity.
      apply (loc_edge_at_edge _ (fun e => set_v (e_v second) (set_u (e_v first) e)));
        [reflexivity | exact Lf].
    - simpl; split; [|split].
      + exists (pos (e_u first)); split;
          [apply ends_at_rev; exact Hfs | rewrite E1; exact Hss].
      + apply starts_at_app, starts_at_rev; exact Hfe.
      + apply ends_at_app; exact Hse. }
  destruct (e_u first =? e_v second) eqn:E2.
  { apply Z.eqb_eq in E2.
    rewrite Ls; cbn [bind].
    eexists; eexists; eexists; eexists; split; [reflexivity|]; split.
    - apply (loc_edge_at_edge _ (set_u (e_u second))); [reflexivity | exact Lf].
    - simpl; split; [|split].
      + exists (pos (e_u first)); split; [rewrite E2; exact Hse | exact Hfs].
      + apply starts_at_app; exact Hss.
      + apply ends_at_app; exact Hfe. }
  destruct (e_v first =? e_u second) eqn:E3; [|discriminate Hcase].
  apply Z.eqb_eq in E3.
  rewrite Ls; cbn [bind].
  eexists; eexists; eexists; eexists; split; [reflexivity|]; split.
  - apply (loc_edge_at_edge _ (set_v (e_v second))); [reflexivity | exact Lf].
  - simpl; split; [|split].
    + exists (pos (e_v first)); split; [exact Hfe | rewrite E3; exact Hss].
    + apply starts_at_app; exact Hfs.
    + apply ends_at_app; exact Hse.
Qed.

(** C1.  Two streets 0 -> 1 and 2 -> 1 that both end in the degree-2 node 1
    (the last of the four cases): the coordinates of the second are appended
    as they are.  At the join the first list ends in node 1 and the second
    starts in node 2, and the merged line of the surviving edge 0 -> 2 ends
    in the coordinates of node 1, not in those of its new [v], node 2. *)
Theorem simplify_graph_last_case_not_joined :
  exists nodes1 r edges1,
    simplify_graph chain_nodes chain_edges false None = Ok (nodes1, [r]) /\
    e_u r = 0 /\ e_v r = 2 /\
    relate (street 0 0 1 [pt 0 0; pt 1 0]) (street 1 2 1 [pt 2 0; pt 1 0]) 0 1 chain_edges
    = Ok (edges1, [pt 0 0; pt 1 0], [pt 2 0; pt 1 0]) /\
    ends_at [pt 0 0; pt 1 0] (pt 1 0) /\
    starts_at [pt 2 0; pt 1 0] (pt 2 0) /\
    e_geometry r = [pt 0 0; pt 1 0; pt 2 0; pt 1 0] /\
    loc_node (e_v r) chain_nodes = Ok (node_at 2 2 0) /\
    ~ ends_at (e_geometry r) (n_geometry (node_at 2 2 0)).
Proof.
  eexists; eexists; eexists.
  split; [vm_compute; reflexivity|].
  split; [reflexivity|]; split; [reflexivity|].
  split; [vm_compute; reflexivity|].
  split; [reflexivity|]; split; [reflexivity|].
  split; [reflexivity|]; split; [reflexivity|].
  vm_compute; intro H; discriminate H.
Qed.

(** ** Densities *)

Lemma lookup_update_attr (c : string) (z : Z) (a : list (string * Z)) :
  lookup_attr c (update_attr c z a) = Some z.
Proof.
  induction a as [|[k w] a IH]; simpl.
  - rewrite String.eqb_refl; reflexivity.
  - destruct (String.eqb k c) eqn:E; simpl; rewrite E; [reflexivity | exact IH].
Qed.

Lemma filter_first_two (p : Edge -> bool) (edges : list Edge) (a b : Edge)
    (rest : list Edge) :
  NoDup (map streetID edges) -> filter p edges = a :: b :: rest ->
  In a edges /\ In b edges /\ streetID a <> streetID b.
Proof.
  intros Hnd H.
  assert (Ha : In a (filter p edges)) by (rewrite H; simpl; auto).
  assert (Hb : In b (filter p edges)) by (rewrite H; simpl; auto).
  apply filter_In in Ha as [Ha _]; apply filter_In in Hb as [Hb _].
  repeat split; auto.
  assert (Hnd1 : NoDup (map streetID (filter p edges))).
  { eapply kept_labels; [exact same_ends_label| |exact Hnd].
    apply kept_filter; auto with rows. }
  rewrite H in Hnd1; simpl in Hnd1.
  inversion Hnd1 as [|x l Hnotin _]; subst.
  intro E; apply Hnotin; left; symmetry; exact E.
Qed.

Lemma loc_edge_filter (i : Z) (p : Edge -> bool) (l : list Edge) :
  (forall e, streetID e = i -> p e = true) ->
  loc_edge i (filter p l) = loc_edge i l.
Proof.
  intro Hp; unfold loc_edge; induction l as [|e l IH]; simpl; [reflexivity|].
  destruct (has_label i e) eqn:E.
  - rewrite Hp by (apply Z.eqb_eq; exact E); simpl; rewrite E; reflexivity.
  - destruct (p e); simpl; [rewrite E|]; exact IH.
Qed.

Lemma loc_edge_kept_label (i : Z) (labels : list Z) (l : list Edge) :
  ~ In i labels ->
  loc_edge i (filter (fun e => negb (mem (streetID e) labels)) l) = loc_edge i l.
Proof.
  intro Hi; apply loc_edge_filter; intros e <-.
  apply negb_true_iff; destruct (mem (streetID e) labels) eqn:E; [|reflexivity].
  apply mem_In in E; contradiction.
Qed.

Lemma loc_edge_dropped (i : Z) (labels : list Z) (l : list Edge) :
  In i labels ->
  loc_edge i (filter (fun e => negb (mem (streetID e) labels)) l) = Raise KeyError.
Proof.
  intro Hi; apply loc_edge_missing; intro H.
  apply in_map_iff in H as (e & He & Hin); apply filter_In in Hin as [_ Hin].
  apply negb_true_iff in Hin; subst i.
  apply mem_In in Hi; rewrite Hi in Hin; discriminate.
Qed.

Lemma at_edge_other_In (i : Z) (f : Edge -> Edge) (l : list Edge) (x : Edge) :
  In x l -> streetID x <> i -> In x (at_edge i f l).
Proof.
  intros Hin Hx; unfold at_edge; apply in_map_iff; exists x; split; [|exact Hin].
  unfold has_label; destruct (streetID x =? i) eqn:E; [|reflexivity].
  apply Z.eqb_eq in E; contradiction.
Qed.

(** On a table with unique labels [relate] does not raise; it rewrites the
    endpoints of the first edge only, and unless the two edges run between
    the same two nodes the first edge does not become a loop. *)
Lemma relate_total (edges : list Edge) (first second : Edge) :
  NoDup (map streetID edges) -> In first edges -> In second edges ->
  streetID first <> streetID second ->
  exists f A B,
    relate first second (streetID first) (streetID second) edges
    = Ok (at_edge (streetID first) f edges, A, B) /\
    (forall e, same_street (f e) e /\ e_geometry (f e) = e_geometry e /\
               e_pedestrian (f e) = e_pedestrian e /\ e_attrs (f e) = e_attrs e) /\
    (~ (e_u first = e_u second /\ e_v first = e_v second) ->
     ~ (e_u first = e_v second /\ e_v first = e_u second) ->
     e_u (f first) <> e_v (f first)).
Proof.
  intros Hnd Hf Hs Hij.
  pose proof (loc_edge_self _ _ Hnd Hf) as Lf.
  pose proof (loc_edge_self _ _ Hnd Hs) as Ls.
  unfold relate.
  destruct (e_u first =? e_u second) eqn:E1.
  { apply Z.eqb_eq in E1.
    rewrite Lf; cbn [bind].
    rewrite (loc_edge_at_other _ _ (set_u (e_v first)) _ (fun e => eq_refl) Hij).
    rewrite Ls; cbn [bind].
    rewrite at_edge_twice by reflexivity.
    eexists; eexists; eexists; split; [reflexivity|]; split.
    - intro e; repeat split.
    - simpl; intros H1 _ E; apply H1; auto. }
  apply Z.eqb_neq in E1.
  destruct (e_u first =? e_v second) eqn:E2.
  { apply Z.eqb_eq in E2.
    rewrite Ls; cbn [bind].
    eexists; eexists; eexists; split; [reflexivity|]; split.
    - intro e; repeat split.
    - simpl; intros _ H2 E; apply H2; auto. }
  apply Z.eqb_neq in E2.
  destruct (e_v first =? e_u second) eqn:E3;
    rewrite Ls; cbn [bind];
    (eexists; eexists; eexists; split; [reflexivity|]; split;
     [intro e; repeat split | simpl; intros _ _ E; auto]).
Qed.


(** ** Loops *)

Lemma without_loops_rows (edges : list Edge) :
  Forall no_loop (without_loops edges) /\
  (forall e, In e edges -> no_loop e -> In e (without_loops edges)) /\
  (forall e, In e (without_loops edges) -> In e edges).
Proof.
  unfold without_loops; split; [|split].
  - apply Forall_forall; intros x Hx; apply filter_In in Hx as [_ Hx].
    apply negb_true_iff, Z.eqb_neq in Hx; exact Hx.
  - intros e He Hloop; apply filter_In; split; [exact He|].
    apply negb_true_iff, Z.eqb_neq; exact Hloop.
  - intros e He; apply filter_In in He as [He _]; exact He.
Qed.

(** Two edges between the same two nodes: the four cases give the first
    edge one node for both of its ends. *)
Lemma relate_parallel (edges : list Edge) (first second : Edge) :
  NoDup (map streetID edges) -> In first edges -> In second edges ->
  streetID first <> streetID second ->
  (e_u first = e_u second /\ e_v first = e_v second) \/
  (e_u first = e_v second /\ e_v first = e_u second) ->
  exists f A B,
    relate first second (streetID first) (streetID second) edges
    = Ok (at_edge (streetID first) f edges, A, B) /\
    (forall e, streetID (f e) = streetID e) /\
    e_u (f first) = e_v (f first).
Proof.
  intros Hnd Hf Hs Hij Hpar.
  pose proof (loc_edge_self _ _ Hnd Hf) as Lf.
  pose proof (loc_edge_self _ _ Hnd Hs) as Ls.
  unfold relate.
  destruct (e_u first =? e_u second) eqn:E1.
  { apply Z.eqb_eq in E1.
    rewrite Lf; cbn [bind].
    rewrite (loc_edge_at_other _ _ (set_u (e_v first)) _ (fun e => eq_refl) Hij).
    rewrite Ls; cbn [bind].
    rewrite at_edge_twice by reflexivity.
    eexists; eexists; eexists; split; [reflexivity|]; split; [reflexivity|].
    simpl; destruct Hpar as [[_ H]|[H1 H2]]; congruence. }
  apply Z.eqb_neq in E1.
  destruct (e_u first =? e_v second) eqn:E2.
  { apply Z.eqb_eq in E2.
    rewrite Ls; cbn [bind].
    eexists; eexists; eexists; split; [reflexivity|]; split; [reflexivity|].
    simpl; destruct Hpar as [[H _]|[_ H]]; congruence. }
  apply Z.eqb_neq in E2.
  exfalso; destruct Hpar as [[H _]|[H _]]; contradiction.
Qed.

Lemma filter_at_edge_dropped (i : Z) (f : Edge -> Edge) (labels : list Z)
    (l : list Edge) :
  (forall e, streetID (f e) = streetID e) -> In i labels ->
  filter (fun e => negb (mem (streetID e) labels)) (at_edge i f l)
  = filter (fun e => negb (mem (streetID e) labels)) l.
Proof.
  intros Hf Hi; unfold at_edge; induction l as [|e rest IH]; simpl; [reflexivity|].
  destruct (has_label i e) eqn:E.
  - unfold has_label in E; apply Z.eqb_eq in E; rewrite Hf.
    replace (mem (streetID e) labels) with true
      by (symmetry; apply mem_In; rewrite E; exact Hi).
    simpl; exact IH.
  - destruct (mem (streetID e) labels); simpl; rewrite IH; reflexivity.
Qed.

(** The contraction that would leave a loop: at a node where two edges
    between the same two nodes come first, both edges and the node are
    dropped, and nothing is raised. *)
Lemma contract_discards_parallel (dc : option string) (nodes : list Node)
    (edges : list Edge) (node : Z) (first second : Edge) (rest : list Edge) :
  NoDup (map streetID edges) ->
  In node (map n_index nodes) ->
  filter (incident node) edges = first :: second :: rest ->
  (e_u first = e_u second /\ e_v first = e_v second) \/
  (e_u first = e_v second /\ e_v first = e_u second) ->
  contract false dc (nodes, edges) node
  = Ok (filter (fun n => negb (mem (n_index n) [node])) nodes,
        filter (fun e => negb (mem (streetID e) [streetID first; streetID second])) edges).
Proof.
  intros Hnd Hnode Htmp Hpar.
  destruct (filter_first_two _ _ _ _ _ Hnd Htmp) as (Hf & Hs & Hij).
  destruct (relate_parallel _ _ _ Hnd Hf Hs Hij Hpar) as (f & A & B & Hrel & Hlab & Hloop).
  unfold contract; rewrite Htmp, Hrel; cbn [bind keep_max].
  rewrite (loc_edge_at_edge _ f _ _ Hlab (loc_edge_self _ _ Hnd Hf)); cbn [bind].
  replace (e_u (f first) =? e_v (f first)) with true
    by (symmetry; apply Z.eqb_eq; exact Hloop).
  rewrite drop_edges_present.
  - cbn [bind]; rewrite (drop_nodes_present _ _ Hnode); cbn [bind].
    rewrite (filter_at_edge_dropped _ _ _ _ Hlab); [reflexivity | left; reflexivity].
  - intros k Hk; rewrite at_edge_labels by exact Hlab.
    destruct Hk as [<-|[<-|[]]]; apply in_map; assumption.
Qed.

(** C7.  [clean_network] returns no edge table at all: on every node table
    with a row the call raises [NameError] at line 279, where it calls the
    name [double_nodes], which is bound nowhere; so does the call on the
    chain with a street from node 1 to node 1.  What the claim says of the
    two places that deal with loops holds where they stand: the table that
    line 277 leaves holds the rows with [u <> v] of the table given, and no
    other; and on a table of distinct [streetID]s a contraction at a node
    where two edges between the same two nodes come first raises nothing and
    drops both edges and the node, as on the two parallel streets of the
    pair. *)
Theorem clean_network_returns_no_edge_table :
  (forall (line_length : LineString -> float)
          (center_line : LineString -> LineString -> LineString)
          (fuel : nat) (highway_column : bool) (nodes : list Node) (edges : list Edge)
          (dead_ends remove same_uv ud : bool) (dc : option string),
      nodes <> [] ->
      clean_network line_length center_line fuel highway_column nodes edges
                    dead_ends remove same_uv ud dc = Raise NameError)
  /\
  (forall fuel : nat,
      clean_network rectilinear_length between fuel false
                    chain_nodes (street 7 1 1 [pt 1 0; pt 1 0] :: chain_edges)
                    false true true false None = Raise NameError)
  /\
  (forall edges : list Edge,
      Forall (fun e => e_u e <> e_v e) (without_loops edges) /\
      (forall e, In e edges -> e_u e <> e_v e -> In e (without_loops edges)) /\
      (forall e, In e (without_loops edges) -> In e edges))
  /\
  (forall (dc : option string) (nodes : list Node) (edges : list Edge) (node : Z)
          (first second : Edge) (rest : list Edge),
      NoDup (map streetID edges) ->
      In node (map n_index nodes) ->
      filter (incident node) edges = first :: second :: rest ->
      (e_u first = e_u second /\ e_v first = e_v second) \/
      (e_u first = e_v second /\ e_v first = e_u second) ->
      contract false dc (nodes, edges) node
      = Ok (filter (fun n => negb (mem (n_index n) [node])) nodes,
            filter (fun e => negb (mem (streetID e) [streetID first; streetID second]))
                   edges))
  /\
  contract false None (pair_nodes, [direct; near]) 0 = Ok ([node_at 1 8 0], []).
Proof.
  split; [|split; [|split; [|split]]].
  - intros line_length center_line fuel highway_column nodes edges
           dead_ends remove same_uv ud dc H.
    apply clean_network_raises; exact H.
  - intro fuel; reflexivity.
  - exact without_loops_rows.
  - exact contract_discards_parallel.
  - reflexivity.
Qed.

(** ** The merge of a parallel edge into the reference edge *)

Lemma at_edge_when (b : bool) (i : Z) (f : Edge -> Edge) (l : list Edge) :
  (if b then at_edge i f l else l) = at_edge i (fun e => if b then f e else e) l.
Proof. destruct b; [reflexivity | symmetry; apply at_edge_id]. Qed.

Lemma at_edge_unless (b : bool) (i : Z) (f : Edge -> Edge) (l : list Edge) :
  (if b then l else at_edge i f l) = at_edge i (fun e => if b then e else f e) l.
Proof. destruct b; [symmetry; apply at_edge_id | reflexivity]. Qed.

Section CollaboratorsMerge.
Variable line_length : LineString -> float.
Variable center_line : LineString -> LineString -> LineString.

(** One connector: it does not raise, the connector is gone, the other
    rows are as they were, and the reference edge takes the centre line
    unless the connector is more than 30% longer, has its pedestrian flag
    set when the connector's is 1, and, with density tracking, carries the
    64-bit sum of the two densities. *)
Lemma merge_connector_effect (line_geometry : LineString) (ix_line : Z) (ud : bool)
    (c : string) (edges : list Edge) (r connector : Edge) (d dcn : Z) :
  NoDup (map streetID edges) ->
  loc_edge ix_line edges = Ok r ->
  In connector edges ->
  streetID connector <> ix_line ->
  (ud = true -> lookup_attr c (e_attrs r) = Some d /\
                lookup_attr c (e_attrs connector) = Some dcn) ->
  exists out r1,
    merge_connector line_length center_line line_geometry ix_line ud (Some c)
                    edges connector = Ok out /\
    loc_edge ix_line out = Ok r1 /\
    e_geometry r1
    = (if longer_by_30 line_length (e_geometry connector) line_geometry
       then e_geometry r
       else center_line line_geometry (e_geometry connector)) /\
    e_pedestrian r1 = (if e_pedestrian connector =? 1 then 1 else e_pedestrian r) /\
    (if ud then lookup_attr c (e_attrs r1) = Some (int64_add d dcn)
     else e_attrs r1 = e_attrs r) /\
    e_u r1 = e_u r /\ e_v r1 = e_v r /\
    loc_edge (streetID connector) out = Raise KeyError /\
    (forall x, In x edges -> streetID x <> ix_line ->
               streetID x <> streetID connector -> In x out).
Proof.
  intros Hnd Lr Hc Hne Hdens.
  pose proof (loc_edge_self _ _ Hnd Hc) as Lc.
  assert (Hne' : ix_line <> streetID connector) by (intro E; apply Hne; symmetry; exact E).
  unfold merge_connector.
  replace (streetID connector =? ix_line) with false
    by (symmetry; apply Z.eqb_neq; exact Hne).
  rewrite at_edge_unless.
  set (g1 := fun e => if longer_by_30 line_length (e_geometry connector) line_geometry
                      then e
                      else set_geometry (center_line line_geometry (e_geometry connector)) e).
  assert (Hg1 : forall e, streetID (g1 e) = streetID e)
    by (intro e; unfold g1; destruct (longer_by_30 _ _ _); reflexivity).
  rewrite (loc_edge_at_other _ _ g1 _ Hg1 Hne'), Lc; cbn [bind].
  rewrite at_edge_when.
  set (g2 := fun e => if e_pedestrian connector =? 1 then set_pedestrian 1 e else e).
  assert (Hg2 : forall e, streetID (g2 e) = streetID e)
    by (intro e; unfold g2; destruct (e_pedestrian connector =? 1); reflexivity).
  set (e2 := at_edge ix_line g2 (at_edge ix_line g1 edges)).
  assert (L2 : loc_edge ix_line e2 = Ok (g2 (g1 r))).
  { unfold e2; repeat (apply loc_edge_at_edge; [assumption|]); exact Lr. }
  assert (L2c : loc_edge (streetID connector) e2 = Ok connector).
  { unfold e2; rewrite !loc_edge_at_other; auto. }
  assert (Hattrs : e_attrs (g2 (g1 r)) = e_attrs r).
  { unfold g2, g1; destruct (e_pedestrian connector =? 1);
      destruct (longer_by_30 _ _ _); reflexivity. }
  assert (Hdrop : forall l, map streetID l = map streetID edges ->
            drop_edges [streetID connector] l
            = Ok (filter (fun e => negb (mem (streetID e) [streetID connector])) l)).
  { intros l Hl; apply drop_edges_present.
    intros k [<-|[]]; rewrite Hl; apply in_map; exact Hc. }
  assert (Hl2 : map streetID e2 = map streetID edges)
    by (unfold e2; rewrite !at_edge_labels; auto).
  assert (Hkeep : ~ In ix_line [streetID connector])
    by (intros [E|[]]; apply Hne; exact E).
  assert (Hfields :
            e_geometry (g2 (g1 r))
            = (if longer_by_30 line_length (e_geometry connector) line_geometry
               then e_geometry r
               else center_line line_geometry (e_geometry connector)) /\
            e_pedestrian (g2 (g1 r))
            = (if e_pedestrian connector =? 1 then 1 else e_pedestrian r) /\
            e_u (g2 (g1 r)) = e_u r /\ e_v (g2 (g1 r)) = e_v r).
  { unfold g2, g1; destruct (e_pedestrian connector =? 1);
      destruct (longer_by_30 _ _ _); repeat split. }
  destruct Hfields as (Fg & Fp & Fu & Fv).
  assert (Hothers : forall l, (forall x, In x e2 -> streetID x <> ix_line -> In x l) ->
            forall x, In x edges -> streetID x <> ix_line ->
                      streetID x <> streetID connector ->
                      In x (filter (fun e => negb (mem (streetID e) [streetID connector])) l)).
  { intros l Hl x Hx H1 H2; apply filter_In; split.
    - apply Hl; [|exact H1].
      unfold e2; repeat (apply at_edge_other_In; [|exact H1]); exact Hx.
    - apply negb_true_iff; simpl.
      replace (streetID x =? streetID connector) with false; [reflexivity|].
      symmetry; apply Z.eqb_neq; exact H2. }
  unfold add_density; destruct ud.
  - destruct (Hdens eq_refl) as [Hd Hdc].
    rewrite L2; cbn [bind]; unfold get_attr at 1; rewrite Hattrs, Hd; cbn [bind].
    rewrite L2c; cbn [bind]; unfold get_attr at 1; rewrite Hdc; cbn [bind].
    rewrite Hdrop by (rewrite at_edge_labels; auto).
    eexists; exists (set_attr c (int64_add d dcn) (g2 (g1 r))); split; [reflexivity|].
    split; [|repeat split; try assumption].
    + rewrite loc_edge_kept_label by exact Hkeep.
      apply loc_edge_at_edge; [reflexivity | exact L2].
    + simpl; apply lookup_update_attr.
    + apply loc_edge_dropped; left; reflexivity.
    + apply Hothers; intros x Hx H1; apply at_edge_other_In; assumption.
  - cbn [bind]; rewrite Hdrop by exact Hl2.
    eexists; exists (g2 (g1 r)); split; [reflexivity|].
    split; [|repeat split; try assumption].
    + rewrite loc_edge_kept_label by exact Hkeep; exact L2.
    + apply loc_edge_dropped; left; reflexivity.
    + apply Hothers; auto.
Qed.
End CollaboratorsMerge.

Lemma loc_edge_present (i : Z) (l : list Edge) :
  In i (map streetID l) -> exists r, loc_edge i l = Ok r.
Proof.
  intro H; unfold loc_edge.
  destruct (find (has_label i) l) eqn:F; [eexists; reflexivity|].
  apply in_map_iff in H as (e & He & Hin).
  pose proof (find_none _ _ F e Hin) as Hn; unfold has_label in Hn.
  rewrite He, Z.eqb_refl in Hn; discriminate.
Qed.

Lemma loc_edge_absent (i : Z) (l : list Edge) (err : exn) :
  loc_edge i l = Raise err -> ~ In i (map streetID l).
Proof.
  intros H Hin; apply loc_edge_present in Hin as (r & Hr).
  rewrite Hr in H; discriminate.
Qed.

Lemma kept_ends_absent (i : Z) (out inp : list Edge) :
  kept same_ends out inp -> ~ In i (map streetID inp) -> ~ In i (map streetID out).
Proof.
  intros Hk Hnot Hin; apply Hnot.
  apply in_map_iff in Hin as (e & He & Hin).
  destruct (kept_In _ _ _ _ Hk Hin) as (x & Hx & Hr).
  apply in_map_iff; exists x; split; [|exact Hx].
  rewrite <- He; symmetry; apply same_ends_label; exact Hr.
Qed.

Section CollaboratorsGroup.
Variable line_length : LineString -> float.
Variable center_line : LineString -> LineString -> LineString.

(** The loop over the connectors of one group, from any table in which
    the reference edge and the connectors are: every connector is merged
    in and dropped in turn. *)
Lemma merge_connectors_effect (line_geometry : LineString) (ix_line : Z) (ud : bool)
    (c : string) (others : list Edge) :
  forall (live : list Edge) (r : Edge) (d : Z) (ds : list Z),
  NoDup (map streetID live) ->
  loc_edge ix_line live = Ok r ->
  Forall (fun conn => In conn live /\ streetID conn <> ix_line) others ->
  NoDup (map streetID others) ->
  (ud = true -> lookup_attr c (e_attrs r) = Some d) ->
  Forall2 (fun conn dcn => ud = true -> lookup_attr c (e_attrs conn) = Some dcn)
          others ds ->
  exists out r1,
    for_each (merge_connector line_length center_line line_geometry ix_line ud (Some c))
             others live = Ok out /\
    loc_edge ix_line out = Ok r1 /\
    e_geometry r1
    = fold_left
        (fun g conn =>
           if longer_by_30 line_length (e_geometry conn) line_geometry then g
           else center_line line_geometry (e_geometry conn))
        others (e_geometry r) /\
    e_pedestrian r1
    = fold_left (fun p conn => if e_pedestrian conn =? 1 then 1 else p)
                others (e_pedestrian r) /\
    (if ud then lookup_attr c (e_attrs r1) = Some (fold_left int64_add ds d)
     else e_attrs r1 = e_attrs r) /\
    e_u r1 = e_u r /\ e_v r1 = e_v r /\
    (forall conn, In conn others -> loc_edge (streetID conn) out = Raise KeyError) /\
    (forall x, In x live -> streetID x <> ix_line ->
               ~ In (streetID x) (map streetID others) -> In x out).
Proof.
  induction others as [|conn rest IH]; intros live r d ds Hnd Lr Hin Hlabels Hd Hds.
  - exists live, r; simpl; repeat split; auto.
    + inversion Hds; subst; destruct ud; auto.
    + intros conn [].
  - inversion Hin as [|x l [Hconn Hne] Hin']; subst.
    inversion Hlabels as [|x l Hnotin Hlabels']; subst.
    inversion Hds as [|x dcn l ds' Hdcn Hds']; subst.
    destruct (merge_connector_effect line_length center_line line_geometry ix_line ud c
                live r conn d dcn Hnd Lr Hconn Hne)
      as (out1 & r1 & Hstep & L1 & Fg & Fp & Fd & Fu & Fv & Hgone & Hstay).
    { intro E; split; [apply Hd | apply Hdcn]; exact E. }
    pose proof (merge_connector_kept _ _ _ _ _ _ _ _ _ Hstep) as Hk1.
    destruct (IH out1 r1 (int64_add d dcn) ds') as
        (out & r2 & Hloop & L2 & Gg & Gp & Gd & Gu & Gv & Ggone & Gstay).
    + eapply kept_labels; [exact same_ends_label|exact Hk1|exact Hnd].
    + exact L1.
    + apply Forall_forall; intros y Hy.
      pose proof (proj1 (Forall_forall _ _) Hin' y Hy) as [Hylive Hyne].
      split; [|exact Hyne].
      apply Hstay; auto.
      intro E; apply Hnotin; rewrite <- E; apply in_map; exact Hy.
    + exact Hlabels'.
    + intro E; destruct ud; [exact Fd | discriminate].
    + exact Hds'.
    + exists out, r2; simpl; rewrite Hstep; cbn [bind].
      split; [exact Hloop|]; split; [exact L2|].
      split; [rewrite Gg, Fg; reflexivity|].
      split; [rewrite Gp, Fp; reflexivity|].
      split; [destruct ud; [exact Gd | rewrite Gd; exact Fd]|].
      split; [congruence|]; split; [congruence|]; split.
      * intros y [<-|Hy]; [|apply Ggone; exact Hy].
        apply loc_edge_missing.
        eapply kept_ends_absent;
          [eapply for_each_kept;
           [| |intros s i s' Hs; eapply merge_connector_kept; exact Hs|exact Hloop];
           eauto with rows|].
        eapply loc_edge_absent; exact Hgone.
      * intros y Hy H1 H2; apply Gstay; [|exact H1|].
        -- apply Hstay; auto; intro E; apply H2; left; symmetry; exact E.
        -- intro E; apply H2; right; exact E.
Qed.
End CollaboratorsGroup.

(** ** The reference edge of a group *)

Section SortedRows.
Variable A : Type.
Variable leb : A -> A -> bool.
Hypothesis leb_total : forall a b, leb a b = true \/ leb b a = true.
Hypothesis leb_trans : forall a b c, leb a b = true -> leb b c = true -> leb a c = true.

Lemma insert_sorted_sorted (a : A) (l : list A) :
  StronglySorted (fun x y => leb x y = true) l ->
  StronglySorted (fun x y => leb x y = true) (insert_sorted leb a l).
Proof.
  induction l as [|b l IH]; simpl; intro Hs.
  - repeat constructor.
  - inversion Hs as [|x xs Hs' Hall]; subst.
    destruct (leb a b) eqn:E.
    + constructor; [exact Hs|].
      constructor; [exact E|].
      eapply Forall_impl; [|exact Hall]; intros x Hx; eapply leb_trans; eauto.
    + constructor; [apply IH; exact Hs'|].
      eapply Permutation_Forall; [symmetry; apply insert_sorted_perm|].
      constructor; [|exact Hall].
      destruct (leb_total a b) as [H|H]; [rewrite H in E; discriminate | exact H].
Qed.

Lemma sort_rows_sorted (l : list A) :
  StronglySorted (fun x y => leb x y = true) (sort_rows leb l).
Proof.
  induction l as [|a l IH]; simpl; [constructor | apply insert_sorted_sorted; exact IH].
Qed.

Lemma sort_rows_head (l : list A) (h : A) (t : list A) :
  sort_rows leb l = h :: t -> forall x, In x t -> leb h x = true.
Proof.
  intros H x Hx; pose proof (sort_rows_sorted l) as Hs; rewrite H in Hs.
  inversion Hs as [|y ys _ Hall]; subst.
  exact (proj1 (Forall_forall _ _) Hall x Hx).
Qed.
End SortedRows.

(** The order of the doubles, NaN apart. *)
Lemma SFleb_is_total (x y : spec_float) :
  x <> S754_nan -> y <> S754_nan -> SFleb x y = true \/ SFleb y x = true.
Proof.
  intros Hx Hy; unfold SFleb, SFcompare.
  destruct x as [sx|sx| |sx mx ex], y as [sy|sy| |sy my ey]; try congruence;
    repeat match goal with s : bool |- _ => destruct s end; auto.
  all: change PosDef.Pos.compare_cont with Pos.compare_cont;
    fold (Pos.compare mx my); fold (Pos.compare my mx);
    rewrite (Z.compare_antisym ey ex), (Pos.compare_antisym my mx);
    destruct (ey ?= ex); simpl; auto;
    destruct (my ?= mx)%positive; simpl; auto.
Qed.

Lemma SFleb_is_transitive (x y z : spec_float) :
  SFleb x y = true -> SFleb y z = true -> SFleb x z = true.
Proof.
  unfold SFleb, SFcompare.
  destruct x as [sx|sx| |sx mx ex], y as [sy|sy| |sy my ey], z as [sz|sz| |sz mz ez];
    try discriminate; try reflexivity;
    repeat match goal with s : bool |- _ => destruct s end;
    try discriminate; try reflexivity.
  all: change PosDef.Pos.compare_cont with Pos.compare_cont;
    fold (Pos.compare mx my); fold (Pos.compare my mz); fold (Pos.compare mx mz).
  all: destruct (Z.compare_spec ex ey), (Z.compare_spec ey ez), (Z.compare_spec ex ez);
    try discriminate; try reflexivity; try lia; subst.
  all: destruct (Pos.compare_spec mx my), (Pos.compare_spec my mz),
         (Pos.compare_spec mx mz);
    simpl; try discriminate; try reflexivity; try lia.
Qed.

Lemma is_nan_false (x : float) : PrimFloat.is_nan x = false -> Prim2SF x <> S754_nan.
Proof.
  unfold PrimFloat.is_nan; rewrite eqb_spec; intros H E; rewrite E in H; discriminate.
Qed.

Lemma measured_number (e : Edge) (x : float) :
  measured e = Some x -> PrimFloat.is_nan x = false.
Proof.
  unfold measured; destruct (e_length e) as [y|]; [|discriminate].
  destruct (PrimFloat.is_nan y) eqn:E; [discriminate|].
  intro H; injection H as <-; exact E.
Qed.

Lemma length_leb_total (a b : Edge) : length_leb a b = true \/ length_leb b a = true.
Proof.
  unfold length_leb.
  destruct (measured a) as [x|] eqn:Ea, (measured b) as [y|] eqn:Eb; auto.
  rewrite !leb_spec; apply SFleb_is_total; apply is_nan_false;
    eapply measured_number; eassumption.
Qed.

Lemma length_leb_trans (a b c : Edge) :
  length_leb a b = true -> length_leb b c = true -> length_leb a c = true.
Proof.
  unfold length_leb.
  destruct (measured a) as [x|], (measured b) as [y|], (measured c) as [z|];
    auto; try discriminate.
  rewrite !leb_spec; apply SFleb_is_transitive.
Qed.

Section CollaboratorsParallel.
Variable line_length : LineString -> float.
Variable center_line : LineString -> LineString -> LineString.

(** One group of edges with the same code, on a table with unique
    labels. *)
Lemma merge_parallel_effect (ud : bool) (c : string) (edges : list Edge) (key : Z * Z)
    (reference : Edge) (others : list Edge) (d : Z) (ds : list Z) :
  NoDup (map streetID edges) ->
  sort_rows length_leb (filter (fun e => code_eqb (e_code e) (Some key)) edges)
  = reference :: others ->
  (ud = true -> lookup_attr c (e_attrs reference) = Some d) ->
  Forall2 (fun conn dcn => ud = true -> lookup_attr c (e_attrs conn) = Some dcn)
          others ds ->
  exists out r1,
    merge_parallel line_length center_line ud (Some c) edges key = Ok out /\
    loc_edge (streetID reference) out = Ok r1 /\
    e_geometry r1
    = fold_left
        (fun g conn =>
           if longer_by_30 line_length (e_geometry conn) (e_geometry reference) then g
           else center_line (e_geometry reference) (e_geometry conn))
        others (e_geometry reference) /\
    e_pedestrian r1
    = fold_left (fun p conn => if e_pedestrian conn =? 1 then 1 else p)
                others (e_pedestrian reference) /\
    (if ud then lookup_attr c (e_attrs r1) = Some (fold_left int64_add ds d)
     else e_attrs r1 = e_attrs reference) /\
    e_u r1 = e_u reference /\ e_v r1 = e_v reference /\
    (forall conn, In conn others -> loc_edge (streetID conn) out = Raise KeyError) /\
    (forall x, In x edges -> streetID x <> streetID reference ->
               ~ In (streetID x) (map streetID others) -> In x out).
Proof.
  intros Hnd Hsort Hd Hds.
  set (group := filter (fun e => code_eqb (e_code e) (Some key)) edges) in *.
  assert (Hperm : Permutation (reference :: others) group)
    by (rewrite <- Hsort; apply sort_rows_perm).
  assert (Hin : forall x, In x (reference :: others) -> In x edges).
  { intros x Hx; eapply Permutation_in in Hx; [|exact Hperm].
    apply filter_In in Hx as [Hx _]; exact Hx. }
  assert (Hlabels : NoDup (map streetID (reference :: others))).
  { eapply Permutation_NoDup; [apply Permutation_map; symmetry; exact Hperm|].
    eapply kept_labels; [exact same_ends_label| |exact Hnd].
    apply kept_filter; auto with rows. }
  simpl in Hlabels; inversion Hlabels as [|x l Hnotin Hlabels']; subst.
  unfold merge_parallel; fold group; rewrite Hsort.
  cbn [for_each]; unfold merge_connector at 1; rewrite Z.eqb_refl; cbn [bind].
  apply merge_connectors_effect; auto.
  - apply loc_edge_self; [exact Hnd | apply Hin; left; reflexivity].
  - apply Forall_forall; intros x Hx; split; [apply Hin; right; exact Hx|].
    intro E; apply Hnotin; rewrite <- E; apply in_map; exact Hx.
Qed.

(** C2.  One group of edges with the same key, on a table with unique
    labels: the group is sorted by length and its first edge, the
    reference, is no longer than any other; the loop does not raise; every
    other edge is dropped; the geometry of the reference becomes the
    centre line of its original geometry and that of the last other edge
    whose length does not exceed the double product of the reference's
    length and 1.30, and a longer edge leaves it alone; the pedestrian flag
    of every other edge, longer or not, is OR-ed into the reference, and
    with density tracking its density is added, in 64 bits. *)
Theorem merge_parallel_merges_every_other_edge (ud : bool) (c : string)
    (edges : list Edge) (key : Z * Z) (reference : Edge) (others : list Edge)
    (d : Z) (ds : list Z) :
  NoDup (map streetID edges) ->
  sort_rows length_leb (filter (fun e => code_eqb (e_code e) (Some key)) edges)
  = reference :: others ->
  (ud = true -> lookup_attr c (e_attrs reference) = Some d) ->
  Forall2 (fun conn dcn => ud = true -> lookup_attr c (e_attrs conn) = Some dcn)
          others ds ->
  (forall x, In x others -> length_leb reference x = true) /\
  exists out r1,
    merge_parallel line_length center_line ud (Some c) edges key = Ok out /\
    loc_edge (streetID reference) out = Ok r1 /\
    e_geometry r1
    = fold_left
        (fun g conn =>
           if longer_by_30 line_length (e_geometry conn) (e_geometry reference) then g
           else center_line (e_geometry reference) (e_geometry conn))
        others (e_geometry reference) /\
    e_pedestrian r1
    = fold_left (fun p conn => if e_pedestrian conn =? 1 then 1 else p)
                others (e_pedestrian reference) /\
    (if ud then lookup_attr c (e_attrs r1) = Some (fold_left int64_add ds d)
     else e_attrs r1 = e_attrs reference) /\
    (forall conn, In conn others -> loc_edge (streetID conn) out = Raise KeyError) /\
    (forall x, In x edges -> streetID x <> streetID reference ->
               ~ In (streetID x) (map streetID others) -> In x out).
Proof.
  intros Hnd Hsort Hd Hds; split.
  - eapply sort_rows_head;
      [exact length_leb_total | exact length_leb_trans | exact Hsort].
  - destruct (merge_parallel_effect ud c edges key reference others d ds
                Hnd Hsort Hd Hds)
      as (out & r1 & H1 & H2 & H3 & H4 & H5 & _ & _ & H6 & H7).
    exists out, r1; repeat split; assumption.
Qed.
End CollaboratorsParallel.

Lemma merge_parallel_merges_every_other_edge_witness :
  exists table reference others,
    drop_duplicate_geometries rectilinear_length [direct; near] = Ok table /\
    sort_rows length_leb (filter (fun e => code_eqb (e_code e) (Some (0, 1))) table)
    = reference :: others /\
    ((forall x, In x others -> length_leb reference x = true) /\
     exists out r1,
       merge_parallel rectilinear_length between true (Some "density"%string)
         table (0, 1) = Ok out /\
       loc_edge (streetID reference) out = Ok r1 /\
       e_geometry r1
       = fold_left
           (fun g conn =>
              if longer_by_30 rectilinear_length (e_geometry conn) (e_geometry reference)
              then g
              else between (e_geometry reference) (e_geometry conn))
           others (e_geometry reference) /\
       e_pedestrian r1
       = fold_left (fun p conn => if e_pedestrian conn =? 1 then 1 else p)
                   others (e_pedestrian reference) /\
       (if true then lookup_attr "density" (e_attrs r1) = Some (fold_left int64_add [7] 3)
        else e_attrs r1 = e_attrs reference) /\
       (forall conn, In conn others -> loc_edge (streetID conn) out = Raise KeyError) /\
       (forall x, In x table ->
                  streetID x <> streetID reference ->
                  ~ In (streetID x) (map streetID others) -> In x out)).
Proof.
  eexists; eexists; eexists; split; [vm_compute; reflexivity|].
  split; [vm_compute; reflexivity|].
  eapply (merge_parallel_merges_every_other_edge rectilinear_length between true
            "density" _ (0, 1) _ _ 3 [7]).
  - repeat constructor; simpl; intuition discriminate.
  - vm_compute; reflexivity.
  - intros _; reflexivity.
  - constructor; [intros _; reflexivity | constructor].
Defined.

(** C2, as stated, fails on the direct street (length 8, not pedestrian,
    density 3) and the detour (length 14, pedestrian, density 7): the detour
    is more than 30% longer, the geometry of the direct street stays, but its
    pedestrian flag becomes 1 and its density 10. *)
Lemma longer_connector_still_changes_reference :
  longer_by_30 rectilinear_length (e_geometry detour) (e_geometry direct) = true /\
  e_pedestrian direct = 0 /\
  lookup_attr "density" (e_attrs direct) = Some 3 /\
  exists table r1,
    drop_duplicate_geometries rectilinear_length [direct; detour] = Ok table /\
    merge_parallel rectilinear_length between true (Some "density"%string)
      table (0, 1) = Ok [r1] /\
    streetID r1 = streetID direct /\
    e_geometry r1 = e_geometry direct /\
    e_pedestrian r1 = 1 /\
    lookup_attr "density" (e_attrs r1) = Some 10.
Proof.
  split; [vm_compute; reflexivity|].
  split; [reflexivity|]; split; [reflexivity|].
  eexists; eexists; split; [vm_compute; reflexivity|].
  split; [vm_compute; reflexivity|].
  repeat split.
Qed.

(** The comparison of line 333 is one of doubles: the double of 1.30 lies
    above 13/10, and a connector of length 1.3 beside a reference of length
    1 is not longer than the product. *)
Lemma thirty_percent_on_doubles :
  longer_by_30 (fun l => match l with [] => 1%float | _ => 0x1.4cccccccccccdp+0%float end)
               [pt 0 0] [] = false /\
  longer_by_30 rectilinear_length (e_geometry near) (e_geometry direct) = false /\
  longer_by_30 rectilinear_length (e_geometry detour) (e_geometry direct) = true.
Proof. repeat split. Qed.





(** ** The configuration error *)

Section CollaboratorsErrors.
Variable line_length : LineString -> float.
Variable center_line : LineString -> LineString -> LineString.

Lemma merge_parallel_raises (edges : list Edge) (key : Z * Z) :
  NoDup (map streetID edges) -> (1 < code_count key edges)%nat ->
  merge_parallel line_length center_line true None edges key = Raise columnError.
Proof.
  intros Hnd Hcount; unfold merge_parallel, code_count in *.
  set (group := filter (fun e => code_eqb (e_code e) (Some key)) edges) in *.
  pose proof (sort_rows_perm length_leb group) as Hperm.
  pose proof (Permutation_length Hperm) as Hlen.
  destruct (sort_rows length_leb group) as [|reference [|conn rest]];
    simpl in Hlen; try lia.
  assert (Hlabels : NoDup (map streetID (reference :: conn :: rest))).
  { eapply Permutation_NoDup; [apply Permutation_map; symmetry; exact Hperm|].
    eapply kept_labels; [exact same_ends_label| |exact Hnd].
    apply kept_filter; auto with rows. }
  assert (Hconn : In conn edges).
  { assert (H : In conn group)
      by (eapply Permutation_in; [exact Hperm | simpl; auto]).
    apply filter_In in H as [H _]; exact H. }
  simpl in Hlabels; inversion Hlabels as [|x l Hnotin _]; subst.
  cbn [for_each]; unfold merge_connector at 1; rewrite Z.eqb_refl; cbn [bind].
  unfold merge_connector at 1.
  replace (streetID conn =? streetID reference) with false
    by (symmetry; apply Z.eqb_neq; intro E; apply Hnotin; left; exact E).
  rewrite at_edge_unless.
  destruct (loc_edge_present (streetID conn)
              (at_edge (streetID reference)
                 (fun e =>
                    if longer_by_30 line_length (e_geometry conn) (e_geometry reference)
                    then e
                    else set_geometry
                           (center_line (e_geometry reference) (e_geometry conn)) e)
                 edges)) as (rc & Hrc).
  { rewrite at_edge_labels; [apply in_map; exact Hconn|].
    intro e; destruct (longer_by_30 _ _ _); reflexivity. }
  rewrite Hrc; reflexivity.
Qed.

Lemma merge_same_uv_raises (edges : list Edge) :
  NoDup (map streetID edges) -> shared_codes edges <> [] ->
  merge_same_uv line_length center_line true true None edges = Raise columnError.
Proof.
  intros Hnd Hshared; unfold merge_same_uv.
  destruct (shared_codes edges) as [|k ks] eqn:E; [contradiction|].
  assert (Hk : In k (shared_codes edges)) by (rewrite E; left; reflexivity).
  unfold shared_codes in Hk; apply filter_In in Hk as [_ Hk].
  apply Nat.ltb_lt in Hk.
  cbn [for_each]; rewrite (merge_parallel_raises _ _ Hnd Hk); reflexivity.
Qed.

Lemma merge_same_uv_passes (ud : bool) (dc : option string) (edges : list Edge) :
  shared_codes edges = [] ->
  merge_same_uv line_length center_line true ud dc edges = Ok edges.
Proof. intro H; unfold merge_same_uv; rewrite H; reflexivity. Qed.

Lemma clean_network_no_columnError (fuel : nat) (highway_column : bool)
    (nodes : list Node) (edges : list Edge)
    (dead_ends remove same_uv ud : bool) (dc : option string) :
  clean_network line_length center_line fuel highway_column nodes edges
                dead_ends remove same_uv ud dc <> Raise columnError.
Proof.
  destruct (clean_network_raises line_length center_line fuel highway_column nodes edges
              dead_ends remove same_uv ud dc) as [Hempty Hrows].
  destruct nodes as [|n rest].
  - rewrite (Hempty eq_refl); discriminate.
  - rewrite Hrows; discriminate.
Qed.
End CollaboratorsErrors.

(** C5.  With [update_densities] and no [densities_column], no call of
    [clean_network] raises the configuration error: the call on one street
    between two nodes raises [NameError] at line 279, as every call on a node
    table with a row does (on a node table without rows line 276 raises
    [ValueError]).  Nothing before the loop looks at the two arguments.  The
    one place that raises the configuration error is the loop of the
    resolver over the edges that share a key (line 341): on a table with
    two edges on one key the resolver raises it at the first of them that it
    merges, and a table without two edges on one key passes the resolver
    unchanged. *)
Theorem configuration_error_is_not_raised :
  (forall (line_length : LineString -> float)
          (center_line : LineString -> LineString -> LineString)
          (fuel : nat) (highway_column : bool) (nodes : list Node) (edges : list Edge)
          (dead_ends remove same_uv : bool),
      clean_network line_length center_line fuel highway_column nodes edges
                    dead_ends remove same_uv true None <> Raise columnError /\
      (nodes <> [] ->
       clean_network line_length center_line fuel highway_column nodes edges
                     dead_ends remove same_uv true None = Raise NameError))
  /\
  (forall fuel : nat,
      clean_network rectilinear_length between fuel false pair_nodes [direct]
                    false true true true None = Raise NameError)
  /\
  (forall (line_length : LineString -> float)
          (center_line : LineString -> LineString -> LineString) (edges : list Edge),
      NoDup (map streetID edges) -> shared_codes edges <> [] ->
      merge_same_uv line_length center_line true true None edges = Raise columnError)
  /\
  (forall (line_length : LineString -> float)
          (center_line : LineString -> LineString -> LineString) (edges : list Edge),
      shared_codes edges = [] ->
      merge_same_uv line_length center_line true true None edges = Ok edges).
Proof.
  split; [|split; [|split]].
  - intros line_length center_line fuel highway_column nodes edges
           dead_ends remove same_uv; split.
    + apply clean_network_no_columnError.
    + apply clean_network_raises.
  - intro fuel; reflexivity.
  - intros line_length center_line edges; apply merge_same_uv_raises.
  - intros line_length center_line edges; apply merge_same_uv_passes.
Qed.

(** ** Progress of a pass that merges parallel edges *)

Lemma kept_shorter (R : Edge -> Edge -> Prop) (out inp : list Edge) (i : Z) :
  (forall e1 e, R e1 e -> streetID e1 = streetID e) ->
  kept R out inp ->
  In i (map streetID inp) -> ~ In i (map streetID out) ->
  (List.length out < List.length inp)%nat.
Proof.
  intros HR H; induction H as [|e out inp H IH|e1 e out inp He H IH]; simpl; intros Hin Hout.
  - contradiction.
  - pose proof (kept_length _ _ _ H); lia.
  - destruct Hin as [Hin|Hin].
    + exfalso; apply Hout; left; rewrite (HR _ _ He); exact Hin.
    + assert (List.length out < List.length inp)%nat; [|lia].
      apply IH; [exact Hin | intro Hi; apply Hout; right; exact Hi].
Qed.

Lemma kept_ends_full (out inp : list Edge) :
  kept same_ends out inp -> List.length out = List.length inp ->
  map e_u out = map e_u inp /\ map e_v out = map e_v inp.
Proof.
  intro H; induction H as [|e out inp H IH|e1 e out inp He H IH]; simpl; intro Hlen.
  - split; reflexivity.
  - pose proof (kept_length _ _ _ H); lia.
  - destruct IH as [Hu Hv]; [lia|].
    destruct He as (_ & Eu & Ev); rewrite Eu, Ev, Hu, Hv; split; reflexivity.
Qed.

Lemma with_degree_ends (d : Z) (a b : list Edge) :
  map e_u a = map e_u b -> map e_v a = map e_v b -> with_degree d a = with_degree d b.
Proof. intros Hu Hv; unfold with_degree, dd; rewrite Hu, Hv; reflexivity. Qed.

Lemma codes_ext (a : list Edge) :
  forall (b : list Edge) (seen : list (Z * Z)),
    map e_code a = map e_code b -> codes seen a = codes seen b.
Proof.
  induction a as [|x a IH]; intros [|y b] seen H; simpl in *; try discriminate.
  - reflexivity.
  - injection H as Hxy Hab; rewrite Hxy.
    destruct (e_code y) as [k|]; [|apply IH; exact Hab].
    destruct (existsb (pair_eqb k) seen); [apply IH | f_equal; apply IH]; exact Hab.
Qed.

Lemma code_count_ext (key : Z * Z) (a : list Edge) :
  forall b : list Edge, map e_code a = map e_code b -> code_count key a = code_count key b.
Proof.
  unfold code_count; induction a as [|x a IH]; intros [|y b] H; simpl in *;
    try discriminate; [reflexivity|].
  injection H as Hxy Hab; rewrite Hxy.
  destruct (code_eqb (e_code y) (Some key)); simpl; rewrite (IH b Hab); reflexivity.
Qed.

Lemma shared_codes_ext (a b : list Edge) :
  map e_code a = map e_code b -> shared_codes a = shared_codes b.
Proof.
  intro H; unfold shared_codes; rewrite (codes_ext a b [] H).
  apply filter_ext; intro k; rewrite (code_count_ext k a b H); reflexivity.
Qed.

Lemma canonical_codes (a b : list Edge) :
  map e_u a = map e_u b -> map e_v a = map e_v b ->
  (forall e, In e a -> e_code e = Some (canonical e)) ->
  (forall e, In e b -> e_code e = Some (canonical e)) ->
  map e_code a = map e_code b.
Proof.
  revert b; induction a as [|x a IH]; intros [|y b] Hu Hv Ha Hb; simpl in *;
    try discriminate; [reflexivity|].
  injection Hu as Hu1 Hu2; injection Hv as Hv1 Hv2.
  rewrite (Ha x (or_introl eq_refl)), (Hb y (or_introl eq_refl)).
  unfold canonical; rewrite Hu1, Hv1; f_equal.
  apply IH; auto.
Qed.

(** A node of degree 2 in a table without loops has two incident rows. *)
Lemma value_counts_incident (k : Z) (edges : list Edge) :
  Forall no_loop edges ->
  value_count k (map e_u edges) + value_count k (map e_v edges)
  = Z.of_nat (List.length (filter (incident k) edges)).
Proof.
  unfold value_count; induction edges as [|e edges IH]; intro Hall; [reflexivity|].
  inversion Hall as [|x l Hloop Hall']; subst; specialize (IH Hall').
  unfold no_loop in Hloop; cbn [map filter]; unfold incident at 1.
  rewrite (Z.eqb_sym k (e_u e)), (Z.eqb_sym k (e_v e)).
  destruct (e_u e =? k) eqn:Eu, (e_v e =? k) eqn:Ev; cbn [orb List.length];
    try (apply Z.eqb_eq in Eu); try (apply Z.eqb_eq in Ev);
    rewrite ?Nat2Z.inj_succ; lia.
Qed.

Lemma with_degree_count (d k : Z) (edges : list Edge) :
  In k (with_degree d edges) ->
  value_count k (map e_u edges) + value_count k (map e_v edges) = d.
Proof.
  unfold with_degree, dd; intro H.
  apply in_map_iff in H as ([k' n] & Hk & Hin); simpl in Hk; subst k'.
  apply filter_In in Hin as [Hin Hd]; simpl in Hd; apply Z.eqb_eq in Hd.
  apply in_map_iff in Hin as (k0 & Hk0 & _); injection Hk0 as -> <-; exact Hd.
Qed.

Lemma drop_edges_absent (labels : list Z) (l out : list Edge) (i : Z) :
  drop_edges labels l = Ok out -> In i labels ->
  In i (map streetID l) /\ ~ In i (map streetID out).
Proof.
  intros H Hi; pose proof (drop_edges_Ok _ _ _ H) as Hout; unfold drop_edges in H.
  destruct (forallb _ labels) eqn:F; [|discriminate]; split.
  - pose proof (proj1 (forallb_forall _ _) F i Hi) as Hex.
    apply existsb_exists in Hex as (e & He & Hl).
    apply in_map_iff; exists e; split; [apply Z.eqb_eq; exact Hl | exact He].
  - subst out; intro Hin; apply in_map_iff in Hin as (e & He & Hin).
    apply filter_In in Hin as [_ Hin]; apply negb_true_iff in Hin.
    subst i; apply mem_In in Hi; rewrite Hi in Hin; discriminate.
Qed.

Lemma kept_label_In (R : Edge -> Edge -> Prop) (out inp : list Edge) (i : Z) :
  (forall e1 e, R e1 e -> streetID e1 = streetID e) ->
  kept R out inp -> In i (map streetID out) -> In i (map streetID inp).
Proof.
  intros HR Hk Hin; apply in_map_iff in Hin as (e & He & Hin).
  destruct (kept_In _ _ _ _ Hk Hin) as (x & Hx & Hr).
  apply in_map_iff; exists x; split; [|exact Hx].
  rewrite <- He; symmetry; apply HR; exact Hr.
Qed.

Lemma contract_shorter (ud : bool) (dc : option string) (nodes nodes1 : list Node)
    (edges edges1 : list Edge) (node : Z) (first second : Edge) (rest : list Edge) :
  filter (incident node) edges = first :: second :: rest ->
  contract ud dc (nodes, edges) node = Ok (nodes1, edges1) ->
  (List.length edges1 < List.length edges)%nat.
Proof.
  intros Htmp H; pose proof (contract_kept _ _ _ _ _ _ _ H) as Hk.
  unfold contract in H; rewrite Htmp in H.
  apply bind_Ok in H as ([[e1 A] B] & Hrel & H).
  apply bind_Ok in H as (e2 & Hmax & H).
  apply bind_Ok in H as (r & _ & H).
  apply relate_shape in Hrel as (f & Hf & ->).
  apply keep_max_shape in Hmax as (g & Hg & ->).
  assert (Hlabels : map streetID (at_edge (streetID first) g (at_edge (streetID first) f edges))
                    = map streetID edges).
  { rewrite !at_edge_labels; auto; intro e;
      [apply same_street_label, Hf | apply same_ends_label, Hg]. }
  destruct (e_u r =? e_v r).
  - apply bind_Ok in H as (e3 & H3 & H).
    apply bind_Ok in H as (n1 & _ & H); injection H as _ <-.
    destruct (drop_edges_absent _ _ _ (streetID second) H3) as [Hin Hout];
      [simpl; auto|].
    eapply kept_shorter; [exact same_street_label|exact Hk| |exact Hout].
    rewrite <- Hlabels; exact Hin.
  - apply bind_Ok in H as (r2 & _ & H).
    apply bind_Ok in H as (e5 & H5 & H).
    apply bind_Ok in H as (n1 & _ & H); injection H as _ <-.
    destruct (drop_edges_absent _ _ _ (streetID second) H5) as [Hin Hout];
      [simpl; auto|].
    eapply kept_shorter; [exact same_street_label|exact Hk| |exact Hout].
    rewrite <- Hlabels.
    destruct (e_pedestrian r2 =? 1);
      [rewrite at_edge_labels in Hin by reflexivity|];
      rewrite at_edge_labels in Hin by reflexivity; exact Hin.
Qed.

Lemma simplify_graph_shorter (ud : bool) (dc : option string) (nodes nodes1 : list Node)
    (edges edges1 : list Edge) :
  Forall no_loop edges -> with_degree 2 edges <> [] ->
  simplify_graph nodes edges ud dc = Ok (nodes1, edges1) ->
  (List.length edges1 < List.length edges)%nat.
Proof.
  intros Hall Hdeg H; unfold simplify_graph in H.
  destruct (with_degree 2 edges) as [|k ks] eqn:E; [contradiction|].
  assert (Hk : In k (with_degree 2 edges)) by (rewrite E; left; reflexivity).
  apply with_degree_count in Hk; rewrite (value_counts_incident _ _ Hall) in Hk.
  cbn [for_each] in H; apply bind_Ok in H as ([n1 e1] & Hstep & Hrest).
  assert (Hshort : (List.length e1 < List.length edges)%nat).
  { destruct (filter (incident k) edges) as [|first [|second rest]] eqn:F;
      simpl in Hk; try lia.
    eapply contract_shorter; [exact F | exact Hstep]. }
  assert (Hkept : kept same_street edges1 e1).
  { apply (for_each_invariant (fun t => kept same_street (snd t) e1) (contract ud dc))
      with (items := ks) (s := (n1, e1)) (s' := (nodes1, edges1));
      [|apply kept_refl; auto with rows|exact Hrest].
    intros [n e] node [n2 e2] Hk2 Hs; simpl in *.
    eapply kept_street_trans; [eapply contract_kept; exact Hs|exact Hk2]. }
  pose proof (kept_length _ _ _ Hkept); lia.
Qed.

Section CollaboratorsProgress.
Variable line_length : LineString -> float.
Variable center_line : LineString -> LineString -> LineString.

Lemma merge_connector_shorter (line_geometry : LineString) (ix_line : Z) (ud : bool)
    (dc : option string) (edges out : list Edge) (connector : Edge) :
  streetID connector <> ix_line ->
  merge_connector line_length center_line line_geometry ix_line ud dc edges connector
  = Ok out ->
  (List.length out < List.length edges)%nat.
Proof.
  intros Hne H; pose proof (merge_connector_kept _ _ _ _ _ _ _ _ _ H) as Hk.
  unfold merge_connector in H.
  replace (streetID connector =? ix_line) with false in H
    by (symmetry; apply Z.eqb_neq; exact Hne).
  apply bind_Ok in H as (rc & Hrc & H).
  apply bind_Ok in H as (edges3 & _ & H).
  destruct (drop_edges_absent _ _ _ (streetID connector) H) as [_ Hout]; [simpl; auto|].
  eapply kept_shorter; [exact same_ends_label|exact Hk| |exact Hout].
  apply loc_edge_In in Hrc as [Hin Hl].
  apply (in_map streetID) in Hin; rewrite Hl in Hin.
  destruct (longer_by_30 _ _ _); [exact Hin|].
  rewrite at_edge_labels in Hin by reflexivity; exact Hin.
Qed.

Lemma merge_parallel_shorter (ud : bool) (dc : option string) (edges out : list Edge)
    (key : Z * Z) :
  NoDup (map streetID edges) -> (1 < code_count key edges)%nat ->
  merge_parallel line_length center_line ud dc edges key = Ok out ->
  (List.length out < List.length edges)%nat.
Proof.
  intros Hnd Hcount H; unfold merge_parallel, code_count in *.
  set (group := filter (fun e => code_eqb (e_code e) (Some key)) edges) in *.
  pose proof (sort_rows_perm length_leb group) as Hperm.
  pose proof (Permutation_length Hperm) as Hlen.
  destruct (sort_rows length_leb group) as [|reference [|conn rest]];
    simpl in Hlen; try lia.
  assert (Hlabels : NoDup (map streetID (reference :: conn :: rest))).
  { eapply Permutation_NoDup; [apply Permutation_map; symmetry; exact Hperm|].
    eapply kept_labels; [exact same_ends_label| |exact Hnd].
    apply kept_filter; auto with rows. }
  simpl in Hlabels; inversion Hlabels as [|x l Hnotin _]; subst.
  cbn [for_each] in H; unfold merge_connector at 1 in H.
  rewrite Z.eqb_refl in H; cbn [bind] in H.
  apply bind_Ok in H as (out1 & Hstep & Hrest).
  apply merge_connector_shorter in Hstep;
    [|intro E; apply Hnotin; left; exact E].
  assert (Hk : kept same_ends out out1).
  { eapply for_each_kept;
      [| |intros s i s' Hs; eapply merge_connector_kept; exact Hs|exact Hrest];
      eauto with rows. }
  pose proof (kept_length _ _ _ Hk); lia.
Qed.

Lemma merge_same_uv_shorter (ud : bool) (dc : option string) (edges out : list Edge) :
  NoDup (map streetID edges) -> shared_codes edges <> [] ->
  merge_same_uv line_length center_line true ud dc edges = Ok out ->
  (List.length out < List.length edges)%nat.
Proof.
  intros Hnd Hshared H; unfold merge_same_uv in H.
  destruct (shared_codes edges) as [|k ks] eqn:E; [contradiction|].
  assert (Hk : In k (shared_codes edges)) by (rewrite E; left; reflexivity).
  unfold shared_codes in Hk; apply filter_In in Hk as [_ Hk]; apply Nat.ltb_lt in Hk.
  cbn [for_each] in H; apply bind_Ok in H as (out1 & Hstep & Hrest).
  apply (merge_parallel_shorter _ _ _ _ _ Hnd Hk) in Hstep.
  assert (Hkept : kept same_ends out out1).
  { eapply for_each_kept;
      [| |intros s i s' Hs; eapply merge_parallel_kept; exact Hs|exact Hrest];
      eauto with rows. }
  pose proof (kept_length _ _ _ Hkept); lia.
Qed.

Lemma drop_duplicate_geometries_codes (edges out : list Edge) (e : Edge) :
  drop_duplicate_geometries line_length edges = Ok out ->
  In e out -> e_code e = Some (canonical e).
Proof.
  unfold drop_duplicate_geometries; intros Hout H.
  apply bind_Ok in Hout as (tuples & _ & Hout); injection Hout as <-.
  destruct (kept_In _ _ _ _
              (drop_duplicates_kept (fun a b => a = b) tmp_key _ (fun x => eq_refl) [])
              H) as (x & Hx & ->).
  destruct (kept_In _ _ _ _
              (drop_duplicates_kept (fun a b => a = b) (fun e => Some (e_geometry e)) _
                 (fun x => eq_refl) [])
              Hx) as (y & Hy & ->).
  unfold assign_coords in Hy; apply in_map_iff in Hy as (z & <- & Hz).
  unfold assign_code in Hz; apply in_map_iff in Hz as (w & <- & _).
  destruct (swapped _); reflexivity.
Qed.

(** A pass that starts from a table with two edges on one key or with a
    node of degree 2, and ends without an exception, ends with fewer edges. *)
Lemma cycle_body_shorter (dead_ends ud : bool) (dc : option string)
    (nodes nodes1 : list Node) (edges edges1 : list Edge) :
  NoDup (map streetID edges) -> Forall no_loop edges ->
  (forall e, In e edges -> e_code e = Some (canonical e)) ->
  shared_codes edges <> [] \/ with_degree 2 edges <> [] ->
  cycle_body line_length center_line dead_ends true ud dc (nodes, edges)
  = Ok (nodes1, edges1) ->
  (List.length edges1 < List.length edges)%nat.
Proof.
  intros Hnd Hall Hcodes Hcond H; unfold cycle_body in H.
  apply bind_Ok in H as (a & Ha & H).
  apply bind_Ok in H as (b & Hb & H).
  apply bind_Ok in H as ([n2 c] & Hc & H).
  pose proof (drop_duplicate_geometries_kept line_length edges a Ha) as Ka.
  pose proof (merge_same_uv_kept _ _ _ _ _ _ _ Hb) as Kb.
  assert (Kc : kept same_ends c b).
  { destruct dead_ends; [eapply fix_dead_ends_kept; exact Hc|].
    injection Hc as _ <-; apply kept_refl; auto with rows. }
  pose proof (simplify_graph_kept _ _ _ _ _ _ H) as Kd.
  pose proof (kept_length _ _ _ Ka) as La.
  pose proof (kept_length _ _ _ Kb) as Lb.
  pose proof (kept_length _ _ _ Kc) as Lc.
  pose proof (kept_length _ _ _ Kd) as Ld.
  destruct (Nat.eq_dec (List.length a) (List.length edges)) as [Ea|Ea]; [|lia].
  destruct (kept_ends_full _ _ Ka Ea) as [Hu Hv].
  assert (Hnda : NoDup (map streetID a))
    by (eapply kept_labels; [exact same_ends_label|exact Ka|exact Hnd]).
  assert (Hsh : shared_codes a = shared_codes edges).
  { apply shared_codes_ext, canonical_codes; auto.
    intros e He; eapply drop_duplicate_geometries_codes; [exact Ha | exact He]. }
  destruct (shared_codes edges) as [|k ks] eqn:Es.
  - destruct Hcond as [Hcond|Hdeg]; [contradiction|].
    unfold merge_same_uv in Hb; rewrite Hsh in Hb; injection Hb as <-.
    destruct (Nat.eq_dec (List.length c) (List.length a)) as [Ec|Ec]; [|lia].
    destruct (kept_ends_full _ _ Kc Ec) as [Hu2 Hv2].
    assert (List.length edges1 < List.length c)%nat; [|lia].
    eapply simplify_graph_shorter; [| |exact H].
    + eapply kept_Forall; [exact no_loop_ends|exact (kept_ends_trans _ _ _ Kc Ka)|exact Hall].
    + rewrite (with_degree_ends 2 c edges); [exact Hdeg| |]; congruence.
  - assert (List.length b < List.length a)%nat; [|lia].
    eapply merge_same_uv_shorter; [exact Hnda| |exact Hb].
    rewrite Hsh; discriminate.
Qed.

(** With [same_uv_edges] set the loop ends: on a table of unique labels and
    no loops, more evaluations of the loop condition than there are edges
    bring the loop to its exit or to an exception. *)
Lemma convergence_loop_ends (dead_ends ud : bool) (dc : option string) (fuel : nat) :
  forall (nodes : list Node) (edges : list Edge) (cycle : Z),
    NoDup (map streetID edges) -> Forall no_loop edges ->
    (List.length edges < fuel)%nat ->
    convergence_loop line_length center_line fuel dead_ends true ud dc nodes edges cycle
    <> Ok None.
Proof.
  induction fuel as [|fuel IH]; intros nodes edges cycle Hnd Hall Hlen; [lia|].
  cbn [convergence_loop].
  pose proof (is_edges_simplified_kept edges) as Hk.
  assert (Hsimp : forall e1, snd (is_edges_simplified edges) = e1 ->
            (fst (is_edges_simplified edges) = true <-> shared_codes e1 = []) /\
            List.length e1 = List.length edges /\
            (forall e, In e e1 -> e_code e = Some (canonical e))).
  { intros e1 <-; unfold is_edges_simplified.
    set (t := assign_code (map (set_code None) edges)).
    assert (Ht : List.length t = List.length edges /\
                 forall e, In e t -> e_code e = Some (canonical e)).
    { unfold t, assign_code; rewrite !length_map; split; [reflexivity|].
      intros e He; apply in_map_iff in He as (x & <- & _); reflexivity. }
    destruct (shared_codes t) eqn:E; simpl; rewrite E; repeat split;
      try apply Ht; intro; congruence. }
  destruct (is_edges_simplified edges) as [simplified e1]; cbn [fst snd] in *.
  destruct (Hsimp e1 eq_refl) as (Hs & Hl & Hcodes).
  destruct (kept_ends_sound _ _ Hk (conj Hnd Hall)) as [Hnd1 Hall1].
  destruct (negb simplified || negb (is_nodes_simplified e1)) eqn:Econd;
    [|discriminate].
  destruct (cycle_body line_length center_line dead_ends true ud dc (nodes, e1))
    as [[n2 e2]|err] eqn:Hbody; cbn [bind]; [|discriminate].
  destruct (cycle_body_sound _ _ _ _ _ _ _ _ _ _ (conj Hnd1 Hall1) Hbody) as [Hnd2 Hall2].
  apply IH; auto.
  assert (List.length e2 < List.length e1)%nat; [|lia].
  eapply cycle_body_shorter; [exact Hnd1|exact Hall1|exact Hcodes| |exact Hbody].
  apply orb_true_iff in Econd as [E|E]; apply negb_true_iff in E.
  - left; intro Hnil; apply Hs in Hnil; congruence.
  - right; unfold is_nodes_simplified in E.
    destruct (with_degree 2 e1); [discriminate | discriminate].
Qed.
End CollaboratorsProgress.

(** ** The loop that does not end *)

Section CollaboratorsLoop.
Variable line_length : LineString -> float.
Variable center_line : LineString -> LineString -> LineString.

(** A table that the loop body gives back as it is, while the test of
    the loop still fails on it, keeps the loop running for ever. *)
Lemma convergence_loop_stuck (dead_ends same_uv ud : bool) (dc : option string)
    (nodes : list Node) (edges : list Edge) :
  is_edges_simplified edges = (false, edges) ->
  cycle_body line_length center_line dead_ends same_uv ud dc (nodes, edges)
  = Ok (nodes, edges) ->
  forall fuel cycle,
    convergence_loop line_length center_line fuel dead_ends same_uv ud dc
                     nodes edges cycle = Ok None.
Proof.
  intros Hsimp Hbody fuel; induction fuel as [|fuel IH]; intro cycle.
  - reflexivity.
  - cbn [convergence_loop]; rewrite Hsimp; cbn [negb orb].
    rewrite Hbody; cbn [bind]; apply IH.
Qed.
End CollaboratorsLoop.

(** C6.  Three streets between the same two nodes, with [same_uv_edges]
    off.  The call does not reach its loop: it raises [NameError] at line
    279.  The loop itself, given the tables that lines 269 to 288 hand over
    when the name of line 279 stands for the module's [duplicate_nodes],
    does not end: the three streets enter it, the first pass gives a table
    that every further pass gives back unchanged and on which the test
    [is_edges_simplified] stays false, and for every number of evaluations
    of the loop condition the loop is still running. *)
Theorem parallel_edges_keep_the_loop_running :
  (forall fuel : nat,
      clean_network rectilinear_length between fuel false
                    pair_nodes [direct; near; detour] false true false false None
      = Raise NameError)
  /\
  exists nodes0 edges0 nodes edges,
    enter_with (Some duplicate_nodes) false pair_nodes [direct; near; detour]
    = Ok (nodes0, edges0) /\
    map streetID edges0 = [0; 1; 2] /\
    cycle_body rectilinear_length between false false false None
               (nodes0, snd (is_edges_simplified edges0)) = Ok (nodes, edges) /\
    map streetID edges = [0; 1; 2] /\
    is_edges_simplified edges = (false, edges) /\
    cycle_body rectilinear_length between false false false None (nodes, edges)
    = Ok (nodes, edges) /\
    forall fuel,
      convergence_loop rectilinear_length between fuel false false false None
                       nodes0 edges0 0 = Ok None.
Proof.
  split; [intro fuel; reflexivity|].
  destruct (enter_with (Some duplicate_nodes) false pair_nodes [direct; near; detour])
    as [[n0 e0]|err] eqn:Henter;
    vm_compute in Henter; [injection Henter as Hn0 He0 | discriminate Henter].
  destruct (is_edges_simplified e0) as [b e1] eqn:H1.
  pose proof H1 as Hsimp0.
  rewrite <- He0 in H1; vm_compute in H1; injection H1 as Hb He1.
  destruct (cycle_body rectilinear_length between false false false None (n0, e1))
    as [[n2 e2]|err] eqn:H2;
    rewrite <- Hn0, <- He1 in H2; vm_compute in H2;
    [injection H2 as Hn2 He2 | discriminate H2].
  assert (Hfix1 : is_edges_simplified e2 = (false, e2))
    by (rewrite <- He2; vm_compute; reflexivity).
  assert (Hfix2 : cycle_body rectilinear_length between false false false None (n2, e2)
                  = Ok (n2, e2))
    by (rewrite <- Hn2, <- He2; vm_compute; reflexivity).
  assert (Hstep : cycle_body rectilinear_length between false false false None (n0, e1)
                  = Ok (n2, e2))
    by (rewrite <- Hn0, <- He1, <- Hn2, <- He2; vm_compute; reflexivity).
  exists n0, e0, n2, e2.
  split; [reflexivity|].
  split; [rewrite <- He0; reflexivity|].
  split; [rewrite Hsimp0; cbn [snd]; exact Hstep|].
  split; [rewrite <- He2; reflexivity|].
  split; [exact Hfix1|]; split; [exact Hfix2|].
  intro fuel; destruct fuel as [|fuel]; [reflexivity|].
  cbn [convergence_loop].
  rewrite Hsimp0, <- Hb; cbn [negb orb].
  rewrite Hstep; cbn [bind].
  apply (convergence_loop_stuck rectilinear_length between false false false None
           n2 e2 Hfix1 Hfix2).
Qed.

(** ** The Identity Resolver, with and without nodes in one place *)

Lemma Q_eqb_eq (a b : Q) : Q_eqb a b = true <-> a = b.
Proof.
  unfold Q_eqb; destruct a as [n d], b as [m e]; simpl.
  rewrite andb_true_iff, Z.eqb_eq, Pos.eqb_eq; split.
  - intros [-> ->]; reflexivity.
  - intro H; injection H as -> ->; split; reflexivity.
Qed.

Lemma coord_eqb_eq (a b : coord) : coord_eqb a b = true <-> a = b.
Proof.
  unfold coord_eqb; destruct a as [x y], b as [z w]; simpl.
  rewrite andb_true_iff, !Q_eqb_eq; split.
  - intros [-> ->]; reflexivity.
  - intro H; injection H as -> ->; split; reflexivity.
Qed.

Lemma seen_In (p : coord) (seen : list coord) :
  existsb (coord_eqb p) seen = true <-> In p seen.
Proof.
  rewrite existsb_exists; split.
  - intros (q & Hq & E); apply coord_eqb_eq in E; subst; exact Hq.
  - intro H; exists p; split; [exact H | apply coord_eqb_eq; reflexivity].
Qed.

Lemma first_of_each_length (nodes : list Node) :
  forall seen, (List.length (first_of_each seen nodes) <= List.length nodes)%nat.
Proof.
  induction nodes as [|n nodes IH]; intro seen; simpl; [lia|].
  destruct (existsb _ seen); simpl; [specialize (IH seen) | specialize (IH (n_geometry n :: seen))];
    lia.
Qed.

Lemma first_of_each_all (nodes : list Node) :
  forall seen,
    (forall n, In n nodes -> ~ In (n_geometry n) seen) ->
    NoDup (map n_geometry nodes) ->
    first_of_each seen nodes = nodes.
Proof.
  induction nodes as [|n nodes IH]; intros seen Hseen Hnd; simpl; [reflexivity|].
  inversion Hnd as [|x l Hnotin Hnd']; subst.
  destruct (existsb (coord_eqb (n_geometry n)) seen) eqn:E.
  - apply seen_In in E; exfalso; apply (Hseen n); [left; reflexivity | exact E].
  - f_equal; apply IH; [|exact Hnd'].
    intros m Hm [Hg|Hg].
    + apply Hnotin; rewrite Hg; apply in_map; exact Hm.
    + apply (Hseen m); [right; exact Hm | exact Hg].
Qed.

Lemma first_of_each_full (nodes : list Node) :
  forall seen,
    List.length (first_of_each seen nodes) = List.length nodes ->
    NoDup (map n_geometry nodes) /\ forall n, In n nodes -> ~ In (n_geometry n) seen.
Proof.
  induction nodes as [|n nodes IH]; intros seen Hlen; simpl in *.
  - split; [constructor | intros n []].
  - destruct (existsb (coord_eqb (n_geometry n)) seen) eqn:E.
    + pose proof (first_of_each_length nodes seen); lia.
    + simpl in Hlen; injection Hlen as Hlen.
      destruct (IH _ Hlen) as [Hnd Hseen]; split.
      * constructor; [|exact Hnd].
        intro Hin; apply in_map_iff in Hin as (m & Hg & Hm).
        apply (Hseen m Hm); left; symmetry; exact Hg.
      * intros m [<-|Hm] Hin.
        -- apply seen_In in Hin; rewrite Hin in E; discriminate.
        -- apply (Hseen m Hm); right; exact Hin.
Qed.

Lemma reindex_labels (nodes : list Node) :
  map n_index (reindex nodes) = map nodeID nodes /\
  map n_geometry (reindex nodes) = map n_geometry nodes /\
  List.length (reindex nodes) = List.length nodes.
Proof.
  unfold reindex.
  destruct (list_Z_eqb (map n_index nodes) (map nodeID nodes)) eqn:E.
  - repeat split.
    revert E; generalize (map n_index nodes) (map nodeID nodes).
    intros a; induction a as [|x a IH]; intros [|y b] E; simpl in E;
      try discriminate; [reflexivity|].
    apply andb_true_iff in E as [Exy E]; apply Z.eqb_eq in Exy; subst.
    f_equal; apply IH; exact E.
  - rewrite !map_map, length_map; repeat split.
Qed.

Lemma unique_In (x : Z) (l : list Z) : In x l -> In x (unique l).
Proof.
  induction l as [|a l IH]; simpl; [auto|]; intros [->|H].
  - destruct (mem x l) eqn:E; [apply IH, mem_In; exact E | left; reflexivity].
  - destruct (mem a l); [|right]; apply IH; exact H.
Qed.

Lemma unique_incl (x : Z) (l : list Z) : In x (unique l) -> In x l.
Proof.
  induction l as [|a l IH]; simpl; [auto|].
  destruct (mem a l); [intro H; right; apply IH; exact H|].
  intros [->|H]; [left; reflexivity | right; apply IH; exact H].
Qed.

Lemma set_of_In (x : Z) (l : list Z) : In x (set_of l) <-> In x l.
Proof.
  unfold set_of; split; intro H.
  - apply unique_incl; eapply Permutation_in; [apply sort_rows_perm | exact H].
  - eapply Permutation_in; [symmetry; apply sort_rows_perm | apply unique_In; exact H].
Qed.

(** As written, [duplicate_nodes] hands back its tables when no two nodes
    lie in one place ... *)
Lemma duplicate_nodes_without_twins (nodes : list Node) (edges : list Edge) :
  NoDup (map n_geometry nodes) ->
  duplicate_nodes nodes edges = Ok (reindex nodes, edges).
Proof.
  intro Hnd; unfold duplicate_nodes, duplicate_nodes_reading.
  destruct (reindex_labels nodes) as (_ & Hg & _).
  rewrite first_of_each_all; [|intros n _ []|rewrite Hg; exact Hnd].
  destruct (set_of _) as [|k ks] eqn:E; [reflexivity|].
  assert (Hk : In k (set_of
                      (filter (fun i => negb (mem i (map n_index (reindex nodes))))
                              (map n_index (reindex nodes)))))
    by (rewrite E; left; reflexivity).
  apply set_of_In, filter_In in Hk as [Hin Hk].
  apply negb_true_iff in Hk; apply mem_In in Hin; rewrite Hin in Hk; discriminate.
Qed.

(** ... and raises [AttributeError] when two of them do (node identifiers
    being unique). *)
Lemma duplicate_nodes_with_twins (nodes : list Node) (edges : list Edge) :
  NoDup (map nodeID nodes) -> ~ NoDup (map n_geometry nodes) ->
  duplicate_nodes nodes edges = Raise AttributeError.
Proof.
  intros Hids Htwins; unfold duplicate_nodes, duplicate_nodes_reading.
  destruct (reindex_labels nodes) as (Hl & Hg & Hlen).
  set (nodes1 := reindex nodes) in *.
  set (new_nodes := first_of_each [] nodes1).
  assert (Hshort : (List.length new_nodes < List.length nodes1)%nat).
  { pose proof (first_of_each_length nodes1 []) as Hle; fold new_nodes in Hle.
    destruct (Nat.eq_dec (List.length new_nodes) (List.length nodes1)) as [E|E]; [|lia].
    exfalso; apply Htwins; rewrite <- Hg.
    exact (proj1 (first_of_each_full nodes1 [] E)). }
  destruct (set_of _) as [|k ks] eqn:E.
  - exfalso.
    assert (Hincl : incl (map n_index nodes1) (map n_index new_nodes)).
    { intros i Hi.
      destruct (mem i (map n_index new_nodes)) eqn:M; [apply mem_In; exact M|].
      assert (Hin : In i (set_of
                            (filter (fun i => negb (mem i (map n_index new_nodes)))
                                    (map n_index nodes1)))).
      { apply set_of_In, filter_In; split; [exact Hi | rewrite M; reflexivity]. }
      rewrite E in Hin; contradiction. }
    apply NoDup_incl_length in Hincl; [|rewrite Hl; exact Hids].
    rewrite !length_map in Hincl; lia.
  - assert (Hk : In k (map n_index nodes1)).
    { assert (Hin : In k (set_of
                            (filter (fun i => negb (mem i (map n_index new_nodes)))
                                    (map n_index nodes1))))
        by (rewrite E; left; reflexivity).
      apply set_of_In, filter_In in Hin as [Hin _]; exact Hin. }
    destruct (loc_node_present _ _ Hk) as (r & Hr & _).
    cbn [for_each]; unfold readjust at 1; rewrite Hr; reflexivity.
Qed.

(** ** The Identity Resolver on duplicates *)

(** C8.  Nodes 0 and 1 lie in one place and a street starts in node 1:
    [duplicate_nodes] raises [AttributeError] where it reads the column
    [geomety] and returns nothing.  Read with the column [geometry], the
    same lines drop node 1 and move the street to node 0. *)
Theorem duplicate_nodes_raises_on_twins :
  duplicate_nodes twin_nodes twin_edges = Raise AttributeError /\
  duplicate_nodes_reading "geometry" twin_nodes twin_edges
  = Ok ([node_at 0 0 0; node_at 2 1 0], [street 0 0 2 [pt 0 0; pt 1 0]]).
Proof. split; vm_compute; reflexivity. Qed.

(** The loops are filtered (line 277) before the name of line 279 is
    called.  On the street between the twin nodes the call raises
    [NameError] there; were the name bound to the module's
    [duplicate_nodes], the entry would raise where line 79 reads [geomety];
    and with that column read as [geometry] as well, the entry would rename
    that street into a loop after the filter. *)
Lemma renaming_follows_the_loop_filter :
  enter false twin_nodes twin_street_edges = Raise NameError /\
  enter_with (Some duplicate_nodes) false twin_nodes twin_street_edges
  = Raise AttributeError /\
  exists n0 e rest,
    enter_with (Some (duplicate_nodes_reading "geometry")) false
               twin_nodes twin_street_edges
    = Ok (n0, e :: rest) /\
    streetID e = 0 /\ e_u e = e_v e.
Proof.
  split; [reflexivity|]; split; [vm_compute; reflexivity|].
  eexists; eexists; eexists; split; [vm_compute; reflexivity|].
  split; reflexivity.
Qed.

(** ** The tables of the caller *)

Lemma replace_end {A : Type} (l : list A) (a b : A) :
  Objects.replace (List.length l) a (l ++ [b]) = l ++ [a].
Proof. induction l as [|x l IH]; simpl; [reflexivity | rewrite IH; reflexivity]. Qed.

(** A function that works on copies leaves every table object that was
    there before the call, those of the caller among them, with the rows it
    had. *)
Lemma on_copies_frame (f : list Node -> list Edge -> result (list Node * list Edge))
    (nodes_gdf edges_gdf : nat) (s : Objects.store) :
  exists new_nodes new_edges,
    Objects.node_objects (snd (Objects.on_copies f nodes_gdf edges_gdf s))
    = Objects.node_objects s ++ [new_nodes] /\
    Objects.edge_objects (snd (Objects.on_copies f nodes_gdf edges_gdf s))
    = Objects.edge_objects s ++ [new_edges].
Proof.
  unfold Objects.on_copies, Objects.seq, Objects.copy_nodes, Objects.copy_edges,
    Objects.read_nodes, Objects.read_edges; simpl.
  destruct (f _ _) as [[tn te]|err]; simpl.
  - rewrite !replace_end; eexists; eexists; split; reflexivity.
  - eexists; eexists; split; reflexivity.
Qed.

Lemma fix_dead_ends_call_frame (nodes_gdf edges_gdf : nat) (s : Objects.store) :
  (nodes_gdf < List.length (Objects.node_objects s))%nat ->
  (edges_gdf < List.length (Objects.edge_objects s))%nat ->
  nth nodes_gdf
      (Objects.node_objects (snd (Objects.fix_dead_ends_call nodes_gdf edges_gdf s))) []
  = nth nodes_gdf (Objects.node_objects s) [] /\
  nth edges_gdf
      (Objects.edge_objects (snd (Objects.fix_dead_ends_call nodes_gdf edges_gdf s))) []
  = nth edges_gdf (Objects.edge_objects s) [].
Proof.
  intros Hn He; unfold Objects.fix_dead_ends_call.
  destruct (on_copies_frame fix_dead_ends nodes_gdf edges_gdf s)
    as (tn & te & -> & ->).
  split; apply app_nth1; assumption.
Qed.

Lemma simplify_graph_call_frame (ud : bool) (dc : option string)
    (nodes_gdf edges_gdf : nat) (s : Objects.store) :
  (nodes_gdf < List.length (Objects.node_objects s))%nat ->
  (edges_gdf < List.length (Objects.edge_objects s))%nat ->
  nth nodes_gdf
      (Objects.node_objects
         (snd (Objects.simplify_graph_call ud dc nodes_gdf edges_gdf s))) []
  = nth nodes_gdf (Objects.node_objects s) [] /\
  nth edges_gdf
      (Objects.edge_objects
         (snd (Objects.simplify_graph_call ud dc nodes_gdf edges_gdf s))) []
  = nth edges_gdf (Objects.edge_objects s) [].
Proof.
  intros Hn He; unfold Objects.simplify_graph_call.
  destruct (on_copies_frame (fun n e => simplify_graph n e ud dc) nodes_gdf edges_gdf s)
    as (tn & te & -> & ->).
  split; apply app_nth1; assumption.
Qed.

Lemma clean_network_call_frame
    (line_length : LineString -> float)
    (center_line : LineString -> LineString -> LineString)
    (fuel : nat) (highway_column dead_ends remove same_uv ud : bool)
    (dc : option string) (nodes_gdf edges_gdf : nat) (s : Objects.store) :
  (nodes_gdf < List.length (Objects.node_objects s))%nat ->
  (edges_gdf < List.length (Objects.edge_objects s))%nat ->
  nth nodes_gdf
      (Objects.node_objects
         (snd (Objects.clean_network_call line_length center_line
                 fuel highway_column dead_ends remove same_uv ud dc
                 nodes_gdf edges_gdf s))) []
  = nth nodes_gdf (Objects.node_objects s) [] /\
  nth edges_gdf
      (Objects.edge_objects
         (snd (Objects.clean_network_call line_length center_line
                 fuel highway_column dead_ends remove same_uv ud dc
                 nodes_gdf edges_gdf s))) []
  = nth edges_gdf (Objects.edge_objects s) [].
Proof.
  intros Hn He.
  unfold Objects.clean_network_call, Objects.seq, Objects.copy_nodes, Objects.copy_edges,
    Objects.read_nodes, Objects.read_edges; simpl.
  destruct (clean_network _ _ _ _ _ _ _ _ _ _ _) as [[[tn te]|]|err]; simpl;
    rewrite ?replace_end; split; apply app_nth1; assumption.
Qed.

(** [duplicate_nodes] leaves the edge table it was given as it was. *)
Lemma duplicate_nodes_call_frame (nodes_gdf edges_gdf : nat) (s : Objects.store) :
  (edges_gdf < List.length (Objects.edge_objects s))%nat ->
  nth edges_gdf
      (Objects.edge_objects (snd (Objects.duplicate_nodes_call nodes_gdf edges_gdf s))) []
  = nth edges_gdf (Objects.edge_objects s) [].
Proof.
  intro He; unfold Objects.duplicate_nodes_call, Objects.seq, Objects.read_nodes,
    Objects.write_nodes; simpl.
  destruct (on_copies_frame duplicate_nodes nodes_gdf edges_gdf
              (Objects.mkStore
                 (Objects.replace nodes_gdf
                    (reindex (nth nodes_gdf (Objects.node_objects s) []))
                    (Objects.node_objects s))
                 (Objects.edge_objects s)))
    as (tn & te & _ & ->).
  apply app_nth1; exact He.
Qed.

Lemma is_nodes_simplified_call_frame (edges_gdf : nat) (s : Objects.store) :
  snd (Objects.is_nodes_simplified_call edges_gdf s) = s.
Proof. reflexivity. Qed.

(** C9.  [is_edges_simplified] on the table of the two chain streets
    returns its boolean and leaves the 'code' column written into the table
    it was given; [duplicate_nodes] on a node table indexed 10, 11, 12 leaves
    the table it was given indexed by its [nodeID] column 0, 1, 2. *)
Theorem calls_that_write_the_tables_given :
  (exists b s1,
      Objects.is_edges_simplified_call 0 (Objects.mkStore [chain_nodes] [chain_edges])
      = (Ok b, s1) /\
      nth 0 (Objects.edge_objects s1) [] <> chain_edges /\
      map e_code chain_edges = [None; None] /\
      map e_code (nth 0 (Objects.edge_objects s1) []) = [Some (0, 1); Some (1, 2)])
  /\
  (exists r s1,
      Objects.duplicate_nodes_call 0 0 (Objects.mkStore [shifted_nodes] [chain_edges])
      = (Ok r, s1) /\
      nth 0 (Objects.node_objects s1) [] <> shifted_nodes /\
      map n_index shifted_nodes = [10; 11; 12] /\
      map n_index (nth 0 (Objects.node_objects s1) []) = [0; 1; 2]).
Proof.
  split.
  - eexists; eexists; split; [vm_compute; reflexivity|].
    split; [vm_compute; intro H; discriminate H|].
    split; reflexivity.
  - eexists; eexists; split; [vm_compute; reflexivity|].
    split; [vm_compute; intro H; discriminate H|].
    split; reflexivity.
Qed.

(** * Further properties *)

Ltac distinct := repeat constructor; simpl; intuition (try discriminate; try lia).

(** ** Index reset *)

Lemma positions_range {A : Type} (rows : list A) :
  forall (s i : Z) (r : A),
    In (i, r) (positions s rows) -> s <= i < s + Z.of_nat (List.length rows).
Proof.
  induction rows as [|a rest IH]; intros s i r H; simpl in H.
  - destruct H.
  - destruct H as [H|H].
    + injection H as <- <-. simpl List.length. lia.
    + apply IH in H. simpl List.length. lia.
Qed.

Lemma positions_rows {A : Type} (rows : list A) :
  forall s, map snd (positions s rows) = rows.
Proof.
  induction rows as [|a rest IH]; intro s; simpl; [reflexivity|].
  rewrite IH; reflexivity.
Qed.

Lemma positions_labels {A : Type} (rows : list A) :
  forall s,
    map fst (positions s rows)
    = map (fun i => s + Z.of_nat i) (seq 0 (List.length rows)).
Proof.
  induction rows as [|a rest IH]; intro s; simpl; [reflexivity|].
  f_equal; [lia|].
  rewrite IH, <- seq_shift, map_map.
  apply map_ext; intro i; lia.
Qed.

Lemma positions_length {A : Type} (rows : list A) :
  forall s, List.length (positions s rows) = List.length rows.
Proof.
  induction rows as [|a rest IH]; intro s; simpl; [reflexivity|].
  rewrite IH; reflexivity.
Qed.

Lemma old_new_absent (nodes : list Node) :
  forall s k,
    ~ In k (map n_index nodes) ->
    filter (fun r => fst r =? k) (old_new (positions s nodes)) = [].
Proof.
  induction nodes as [|a rest IH]; intros s k H; simpl; [reflexivity|].
  simpl in H.
  destruct (n_index a =? k) eqn:E.
  - apply Z.eqb_eq in E; exfalso; apply H; left; exact E.
  - apply IH; intro Hin; apply H; right; exact Hin.
Qed.

Lemma old_new_single (nodes : list Node) :
  forall s k,
    NoDup (map n_index nodes) ->
    (List.length (filter (fun r => (fst r =? k)%Z) (old_new (positions s nodes))) <= 1)%nat.
Proof.
  induction nodes as [|a rest IH]; intros s k H; simpl; [lia|].
  simpl in H; inversion H as [|x l Hnot Hrest]; subst.
  destruct (n_index a =? k) eqn:E.
  - apply Z.eqb_eq in E; subst k.
    rewrite (old_new_absent rest (s + 1) (n_index a) Hnot); simpl; lia.
  - apply IH; exact Hrest.
Qed.

Lemma merge_left_single {A : Type} (key : A -> Z) (right : list (Z * Z)) (left : list A) :
  (forall k, (List.length (filter (fun r => (fst r =? k)%Z) right) <= 1)%nat) ->
  merge_left key right left = map (fun row => (row, new_of right (key row))) left.
Proof.
  intro H; unfold merge_left.
  induction left as [|row rest IH]; [reflexivity|].
  cbn [flat_map]; rewrite map_cons, IH; unfold new_of.
  specialize (H (key row)).
  destruct (filter (fun r => fst r =? key row) right) as [|r [|r1 more]];
    [reflexivity | reflexivity | simpl in H; lia].
Qed.

Lemma reset_index_gdf_single (nodes : list Node) (edges : list Edge) :
  NoDup (map n_index nodes) ->
  reset_index_gdf nodes edges
  = (map renumber (positions 0 nodes),
     map relink
       (positions 0
          (map (fun e => (e, new_of (old_new (positions 0 nodes)) (e_u e),
                          new_of (old_new (positions 0 nodes)) (e_v e)))
               edges))).
Proof.
  intro H; unfold reset_index_gdf.
  rewrite (merge_left_single e_u), (merge_left_single (fun row => e_v (fst row)));
    try (intro k; apply old_new_single; exact H).
  rewrite map_map; reflexivity.
Qed.

Lemma new_of_present (nodes : list Node) :
  forall s k,
    In k (map n_index nodes) ->
    exists i n,
      new_of (old_new (positions s nodes)) k = Some i /\
      In (i, n) (positions s nodes) /\ loc_node k nodes = Ok n.
Proof.
  induction nodes as [|a rest IH]; intros s k H; simpl in H; [destruct H|].
  unfold new_of, loc_node; simpl.
  destruct (n_index a =? k) eqn:E.
  - exists s, a; simpl; auto.
  - destruct H as [H|H]; [apply Z.eqb_neq in E; contradiction|].
    destruct (IH (s + 1) k H) as (i & n & Hnew & Hin & Hloc).
    exists i, n; split; [exact Hnew|]; split; [right; exact Hin | exact Hloc].
Qed.

Lemma new_of_absent (nodes : list Node) (s k : Z) :
  ~ In k (map n_index nodes) -> new_of (old_new (positions s nodes)) k = None.
Proof. intro H; unfold new_of; rewrite (old_new_absent nodes s k H); reflexivity. Qed.

Lemma loc_node_renumbered (nodes : list Node) :
  forall s i n,
    In (i, n) (positions s nodes) ->
    loc_node i (map renumber (positions s nodes)) = Ok (renumber (i, n)).
Proof.
  induction nodes as [|a rest IH]; intros s i n H; simpl in H; [destruct H|].
  unfold loc_node; simpl.
  destruct H as [H|H].
  - injection H as <- <-; rewrite Z.eqb_refl; reflexivity.
  - pose proof (positions_range rest _ _ _ H) as Hr.
    destruct (s =? i) eqn:E; [apply Z.eqb_eq in E; lia|].
    apply (IH (s + 1) i n H).
Qed.

Lemma relink_positions (rows : list (Edge * option Z * option Z)) :
  forall s,
    map r_streetID (map relink (positions s rows)) = map fst (positions s rows).
Proof.
  induction rows as [|[[e u] v] rest IH]; intro s; simpl; [reflexivity|].
  rewrite IH; reflexivity.
Qed.

Lemma relink_rows (f : Edge -> Edge * option Z * option Z) (edges : list Edge) :
  forall s,
    Forall2 (fun e r => exists i, r = relink (i, f e)) edges
            (map relink (positions s (map f edges))).
Proof.
  induction edges as [|e rest IH]; intro s; simpl; constructor.
  - exists s; reflexivity.
  - apply IH.
Qed.

Lemma Forall2_In_l {A B : Type} (R : A -> B -> Prop) (P : A -> Prop) (l : list A)
    (m : list B) :
  Forall2 R l m -> (forall a, In a l -> P a) -> Forall2 (fun a b => R a b /\ P a) l m.
Proof.
  induction 1 as [|a b l m Hab Hrest IH]; intro H; constructor.
  - split; [exact Hab | apply H; left; reflexivity].
  - apply IH; intros x Hx; apply H; right; exact Hx.
Qed.

Lemma Forall2_weaken {A B : Type} (R S : A -> B -> Prop) (l : list A) (m : list B) :
  (forall a b, R a b -> S a b) -> Forall2 R l m -> Forall2 S l m.
Proof. intros H; induction 1; constructor; auto. Qed.

(** X1.  [reset_index_gdf] on a node table whose index labels are distinct and
    hold every end of every edge: the nodes come back in their order with
    index and [nodeID] 0, 1, 2, ... and their geometry; the edges come back
    one for one, in their order, with [streetID] 0, 1, 2, ... and their other
    columns; and the new 'u' and 'v' of an edge name the rows that the old
    ones named (the node found under the new identifier has the geometry of
    the node found under the old one). *)
Theorem reset_index_gdf_keeps_the_network (nodes nodes1 : list Node)
    (edges : list Edge) (edges1 : list Relinked) :
  NoDup (map n_index nodes) ->
  (forall e, In e edges ->
     In (e_u e) (map n_index nodes) /\ In (e_v e) (map n_index nodes)) ->
  reset_index_gdf nodes edges = (nodes1, edges1) ->
  map n_index nodes1 = map Z.of_nat (seq 0 (List.length nodes)) /\
  map nodeID nodes1 = map n_index nodes1 /\
  map n_geometry nodes1 = map n_geometry nodes /\
  map r_streetID edges1 = map Z.of_nat (seq 0 (List.length edges)) /\
  Forall2
    (fun e r =>
       (r_geometry r = e_geometry e /\ r_highway r = e_highway e /\
        r_pedestrian r = e_pedestrian e /\ r_attrs r = e_attrs e /\
        r_code r = e_code e /\ r_coords r = e_coords e /\ r_length r = e_length e) /\
       exists a b na nb na1 nb1,
         r_u r = Some a /\ r_v r = Some b /\
         loc_node (e_u e) nodes = Ok na /\ loc_node a nodes1 = Ok na1 /\
         n_geometry na1 = n_geometry na /\
         loc_node (e_v e) nodes = Ok nb /\ loc_node b nodes1 = Ok nb1 /\
         n_geometry nb1 = n_geometry nb)
    edges edges1.
Proof.
  intros Hnd Hends H.
  rewrite (reset_index_gdf_single nodes edges Hnd) in H.
  injection H as <- <-.
  split; [|split; [|split; [|split]]].
  - rewrite map_map.
    change (map (fun x => n_index (renumber x)) (positions 0 nodes))
      with (map fst (positions 0 nodes)).
    rewrite positions_labels; apply map_ext; intro i; lia.
  - rewrite !map_map; reflexivity.
  - rewrite map_map.
    change (map (fun x => n_geometry (renumber x)) (positions 0 nodes))
      with (map (fun x => n_geometry (snd x)) (positions 0 nodes)).
    rewrite <- (map_map snd n_geometry), positions_rows; reflexivity.
  - rewrite relink_positions, positions_labels, length_map.
    apply map_ext; intro i; lia.
  - eapply Forall2_weaken;
      [|apply Forall2_In_l; [apply relink_rows | exact Hends]].
    intros e r [[i ->] [Hu Hv]]; simpl.
    split; [repeat split|].
    destruct (new_of_present nodes 0 _ Hu) as (a & na & Ha & Hina & Hla).
    destruct (new_of_present nodes 0 _ Hv) as (b & nb & Hb & Hinb & Hlb).
    exists a, b, na, nb, (renumber (a, na)), (renumber (b, nb)).
    rewrite Ha, Hb, Hla, Hlb.
    rewrite (loc_node_renumbered nodes 0 a na Hina).
    rewrite (loc_node_renumbered nodes 0 b nb Hinb).
    repeat split.
Qed.

Lemma reset_index_gdf_keeps_the_network_witness :
  map n_index (fst (reset_index_gdf shifted_nodes far_edges)) = map Z.of_nat (seq 0 3) /\
  map nodeID (fst (reset_index_gdf shifted_nodes far_edges))
  = map n_index (fst (reset_index_gdf shifted_nodes far_edges)) /\
  map n_geometry (fst (reset_index_gdf shifted_nodes far_edges))
  = map n_geometry shifted_nodes /\
  map r_streetID (snd (reset_index_gdf shifted_nodes far_edges))
  = map Z.of_nat (seq 0 2) /\
  Forall2
    (fun e r =>
       (r_geometry r = e_geometry e /\ r_highway r = e_highway e /\
        r_pedestrian r = e_pedestrian e /\ r_attrs r = e_attrs e /\
        r_code r = e_code e /\ r_coords r = e_coords e /\ r_length r = e_length e) /\
       exists a b na nb na1 nb1,
         r_u r = Some a /\ r_v r = Some b /\
         loc_node (e_u e) shifted_nodes = Ok na /\
         loc_node a (fst (reset_index_gdf shifted_nodes far_edges)) = Ok na1 /\
         n_geometry na1 = n_geometry na /\
         loc_node (e_v e) shifted_nodes = Ok nb /\
         loc_node b (fst (reset_index_gdf shifted_nodes far_edges)) = Ok nb1 /\
         n_geometry nb1 = n_geometry nb)
    far_edges (snd (reset_index_gdf shifted_nodes far_edges)).
Proof.
  apply (reset_index_gdf_keeps_the_network shifted_nodes _ far_edges _).
  - distinct.
  - intros e [<-|[<-|[]]]; simpl; auto 6.
  - reflexivity.
Defined.

Lemma merge_left_In {A : Type} (key : A -> Z) (right : list (Z * Z)) (left : list A)
    (row : A) :
  In row left ->
  exists o,
    In (row, o) (merge_left key right left) /\
    (filter (fun r => fst r =? key row) right = [] -> o = None).
Proof.
  unfold merge_left; intro H.
  induction left as [|a rest IH]; [destruct H|].
  cbn [flat_map].
  destruct H as [->|H].
  - destruct (filter (fun r => fst r =? key row) right) as [|r more] eqn:E.
    + exists None; split; [left; reflexivity | reflexivity].
    + exists (Some (snd r)); split; [left; reflexivity | discriminate].
  - destruct (IH H) as (o & Hin & Ho).
    exists o; split; [apply in_or_app; right; exact Hin | exact Ho].
Qed.

Lemma relink_In (rows : list (Edge * option Z * option Z))
    (p : Edge * option Z * option Z) :
  forall s, In p rows -> exists i, In (relink (i, p)) (map relink (positions s rows)).
Proof.
  induction rows as [|a rest IH]; intros s H; [destruct H|].
  destruct H as [->|H].
  - exists s; left; reflexivity.
  - destruct (IH (s + 1) H) as (i & Hi); exists i; right; exact Hi.
Qed.

(** X2.  [reset_index_gdf] neither drops nor reports an edge one of whose ends
    is no index label of the node table: the edge is returned with NaN in the
    place of that end, and so is no edge between two nodes any more. *)
Theorem reset_index_gdf_unmatched_end (nodes : list Node) (edges : list Edge) (e : Edge) :
  In e edges ->
  ~ In (e_u e) (map n_index nodes) \/ ~ In (e_v e) (map n_index nodes) ->
  exists r,
    In r (snd (reset_index_gdf nodes edges)) /\
    r_geometry r = e_geometry e /\
    (~ In (e_u e) (map n_index nodes) -> r_u r = None) /\
    (~ In (e_v e) (map n_index nodes) -> r_v r = None) /\
    edge_of r = None.
Proof.
  intros Hin Hmiss; unfold reset_index_gdf; cbn [snd].
  destruct (merge_left_In e_u (old_new (positions 0 nodes)) edges e Hin)
    as (ou & Hu & Hnu).
  destruct (merge_left_In (fun row => e_v (fst row)) (old_new (positions 0 nodes))
              _ (e, ou) Hu) as (ov & Hv & Hnv).
  destruct (relink_In _ (e, ou, ov) 0 Hv) as (i & Hi).
  exists (relink (i, (e, ou, ov))).
  assert (Au : ~ In (e_u e) (map n_index nodes) -> ou = None)
    by (intro H; apply Hnu, old_new_absent, H).
  assert (Av : ~ In (e_v e) (map n_index nodes) -> ov = None)
    by (intro H; apply Hnv, old_new_absent, H).
  split; [exact Hi|]; split; [reflexivity|]; split; [exact Au|]; split; [exact Av|].
  unfold edge_of; simpl.
  destruct Hmiss as [H|H].
  - rewrite (Au H); reflexivity.
  - rewrite (Av H); destruct ou; reflexivity.
Qed.

Lemma reset_index_gdf_unmatched_end_witness :
  exists r,
    In r (snd (reset_index_gdf shifted_nodes [stray_edge])) /\
    r_geometry r = e_geometry stray_edge /\
    (~ In (e_u stray_edge) (map n_index shifted_nodes) -> r_u r = None) /\
    (~ In (e_v stray_edge) (map n_index shifted_nodes) -> r_v r = None) /\
    edge_of r = None.
Proof.
  apply (reset_index_gdf_unmatched_end shifted_nodes [stray_edge] stray_edge).
  - left; reflexivity.
  - right; simpl; intuition discriminate.
Defined.

Lemma old_new_count (nodes : list Node) :
  forall s k,
    List.length (filter (fun r => fst r =? k) (old_new (positions s nodes)))
    = label_count k nodes.
Proof.
  unfold label_count.
  induction nodes as [|a rest IH]; intros s k; simpl; [reflexivity|].
  destruct (n_index a =? k); simpl; rewrite IH; reflexivity.
Qed.

Lemma merge_left_app {A : Type} (key : A -> Z) (right : list (Z * Z)) (l m : list A) :
  merge_left key right (l ++ m) = merge_left key right l ++ merge_left key right m.
Proof. unfold merge_left; apply flat_map_app. Qed.

Lemma merge_left_one {A : Type} (key : A -> Z) (right : list (Z * Z)) (row : A) :
  Forall (fun out => fst out = row) (merge_left key right [row]) /\
  List.length (merge_left key right [row])
  = Nat.max 1 (List.length (filter (fun r => fst r =? key row) right)).
Proof.
  unfold merge_left; cbn [flat_map]; rewrite app_nil_r.
  destruct (filter (fun r => fst r =? key row) right) as [|r more].
  - split; [repeat constructor | reflexivity].
  - split.
    + apply Forall_forall; intros x Hx; apply in_map_iff in Hx.
      destruct Hx as (y & <- & _); reflexivity.
    + rewrite length_map; simpl; reflexivity.
Qed.

Lemma merge_left_same_key {A : Type} (key : A -> Z) (right : list (Z * Z)) (k : Z)
    (left : list A) :
  Forall (fun row => key row = k) left ->
  List.length (merge_left key right left)
  = (List.length left
     * Nat.max 1 (List.length (filter (fun r => (fst r =? k)%Z) right)))%nat.
Proof.
  induction 1 as [|row rest Hk Hrest IH]; [reflexivity|].
  change (row :: rest) with ([row] ++ rest).
  rewrite merge_left_app, length_app, IH.
  destruct (merge_left_one key right row) as [_ ->].
  rewrite Hk; simpl; lia.
Qed.

(** X3.  The number of edge rows that [reset_index_gdf] returns: an edge is
    returned once for every pair of a node row labelled with its 'u' and a
    node row labelled with its 'v' (a missing label counting as one row), so
    an index label carried by two node rows doubles every edge that ends
    there. *)
Theorem reset_index_gdf_row_count (nodes : list Node) (edges : list Edge) :
  List.length (snd (reset_index_gdf nodes edges))
  = list_sum
      (map (fun e => (Nat.max 1 (label_count (e_u e) nodes)
                      * Nat.max 1 (label_count (e_v e) nodes))%nat)
           edges).
Proof.
  unfold reset_index_gdf; cbn [snd].
  rewrite length_map, positions_length.
  induction edges as [|e rest IH]; [reflexivity|].
  change (e :: rest) with ([e] ++ rest).
  rewrite !merge_left_app, length_app, IH.
  cbn [map list_sum app]; f_equal.
  destruct (merge_left_one e_u (old_new (positions 0 nodes)) e) as [Hrows Hlen].
  rewrite (merge_left_same_key (fun row => e_v (fst row)) _ (e_v e)).
  - rewrite Hlen, !old_new_count; reflexivity.
  - eapply Forall_impl; [|exact Hrows].
    intros row Hrow; simpl in Hrow; rewrite Hrow; reflexivity.
Qed.

Lemma loc_node_index (k : Z) (nodes : list Node) (n : Node) :
  loc_node k nodes = Ok n -> n_index n = k /\ In n nodes.
Proof.
  unfold loc_node; intro H.
  destruct (find (fun n => n_index n =? k) nodes) as [x|] eqn:E; [|discriminate H].
  injection H as <-; apply find_some in E; destruct E as [Hin Hk].
  apply Z.eqb_eq in Hk; auto.
Qed.

Lemma positions_own_label (nodes : list Node) :
  forall s i n,
    map n_index nodes = map fst (positions s nodes) ->
    In (i, n) (positions s nodes) -> n_index n = i.
Proof.
  induction nodes as [|a rest IH]; intros s i n Heq Hin; simpl in *; [destruct Hin|].
  injection Heq as Ha Hrest.
  destruct Hin as [Hin|Hin].
  - injection Hin as <- <-; exact Ha.
  - apply (IH (s + 1)); assumption.
Qed.

Lemma renumber_own_labels (nodes : list Node) :
  forall s,
    map n_index nodes = map fst (positions s nodes) ->
    map nodeID nodes = map fst (positions s nodes) ->
    map renumber (positions s nodes) = nodes.
Proof.
  induction nodes as [|a rest IH]; intros s Hi Hn; simpl in *; [reflexivity|].
  injection Hi as Ha Hrest; injection Hn as Hb Hrest1.
  rewrite (IH (s + 1) Hrest Hrest1).
  f_equal; destruct a as [i k g x y]; simpl in *; subst; reflexivity.
Qed.

Lemma relink_own_labels (edges : list Edge) :
  forall s,
    map streetID edges = map fst (positions s edges) ->
    map edge_of
        (map relink (positions s (map (fun e => (e, Some (e_u e), Some (e_v e))) edges)))
    = map Some edges.
Proof.
  induction edges as [|e rest IH]; intros s H; simpl in *; [reflexivity|].
  injection H as He Hrest.
  rewrite (IH (s + 1) Hrest); f_equal.
  unfold edge_of; simpl; rewrite <- He; destruct e; reflexivity.
Qed.

Lemma positions_NoDup {A : Type} (rows : list A) :
  forall s, NoDup (map fst (positions s rows)).
Proof.
  induction rows as [|a rest IH]; intro s; simpl; constructor; [|apply IH].
  intro H; apply in_map_iff in H; destruct H as ([i r] & Hi & Hin).
  simpl in Hi; subst i; apply positions_range in Hin; lia.
Qed.

Lemma from_zero (n : nat) :
  map Z.of_nat (seq 0 n) = map (fun i => 0 + Z.of_nat i) (seq 0 n).
Proof. apply map_ext; intro i; lia. Qed.

(** X4.  [reset_index_gdf] changes nothing on tables that are reset already:
    when index and [nodeID] of the nodes are 0, 1, 2, ..., the [streetID] of
    the edges are 0, 1, 2, ... and every end is a node, the nodes returned
    are the nodes given and the edges returned are the edges given. *)
Theorem reset_index_gdf_on_reset_tables (nodes : list Node) (edges : list Edge) :
  map n_index nodes = map Z.of_nat (seq 0 (List.length nodes)) ->
  map nodeID nodes = map Z.of_nat (seq 0 (List.length nodes)) ->
  map streetID edges = map Z.of_nat (seq 0 (List.length edges)) ->
  (forall e, In e edges ->
     In (e_u e) (map n_index nodes) /\ In (e_v e) (map n_index nodes)) ->
  fst (reset_index_gdf nodes edges) = nodes /\
  map edge_of (snd (reset_index_gdf nodes edges)) = map Some edges.
Proof.
  intros Hi Hn Hs Hends.
  rewrite from_zero, <- positions_labels in Hi.
  rewrite from_zero, <- positions_labels in Hn.
  rewrite from_zero, <- positions_labels in Hs.
  assert (Hnd : NoDup (map n_index nodes)).
  { rewrite Hi; apply positions_NoDup. }
  rewrite (reset_index_gdf_single nodes edges Hnd); cbn [fst snd].
  split; [apply renumber_own_labels; assumption|].
  rewrite <- (relink_own_labels edges 0 Hs).
  f_equal; f_equal; f_equal.
  apply map_ext_in; intros e He.
  destruct (Hends e He) as [Hu Hv].
  destruct (new_of_present nodes 0 _ Hu) as (a & na & -> & Hina & Hla).
  destruct (new_of_present nodes 0 _ Hv) as (b & nb & -> & Hinb & Hlb).
  apply loc_node_index in Hla, Hlb.
  rewrite <- (positions_own_label nodes 0 a na Hi Hina).
  rewrite <- (positions_own_label nodes 0 b nb Hi Hinb).
  destruct Hla as [-> _], Hlb as [-> _]; reflexivity.
Qed.

Lemma reset_index_gdf_on_reset_tables_witness :
  fst (reset_index_gdf chain_nodes chain_edges) = chain_nodes /\
  map edge_of (snd (reset_index_gdf chain_nodes chain_edges)) = map Some chain_edges.
Proof.
  apply (reset_index_gdf_on_reset_tables chain_nodes chain_edges).
  - reflexivity.
  - reflexivity.
  - reflexivity.
  - intros e [<-|[<-|[]]]; simpl; auto.
Defined.

(** ** The degree classifier *)

Lemma value_count_pos (k : Z) (l : list Z) : 0 < value_count k l -> In k l.
Proof.
  unfold value_count; intro H.
  destruct (filter (Z.eqb k) l) as [|x rest] eqn:E; [simpl in H; lia|].
  assert (Hx : In x (filter (Z.eqb k) l)) by (rewrite E; left; reflexivity).
  apply filter_In in Hx as [Hin Hk]; apply Z.eqb_eq in Hk; subst x; exact Hin.
Qed.

Lemma value_count_nonneg (k : Z) (l : list Z) : 0 <= value_count k l.
Proof. unfold value_count; lia. Qed.

Lemma with_degree_iff (d k : Z) (edges : list Edge) :
  0 < d -> (In k (with_degree d edges) <-> degree k edges = d).
Proof.
  intro Hd; split.
  - apply with_degree_count.
  - intro H; unfold with_degree, dd.
    apply in_map_iff; exists (k, d); split; [reflexivity|].
    apply filter_In; split; [|simpl; apply Z.eqb_refl].
    apply in_map_iff; exists k; split; [unfold degree in H; rewrite H; reflexivity|].
    apply set_of_In, in_or_app.
    unfold degree in H.
    pose proof (value_count_nonneg k (map e_u edges)).
    pose proof (value_count_nonneg k (map e_v edges)).
    destruct (Z.lt_ge_cases 0 (value_count k (map e_u edges))) as [Hu|Hu].
    + left; apply value_count_pos, Hu.
    + right; apply value_count_pos; lia.
Qed.

Lemma degree_incident (k : Z) (edges : list Edge) :
  Forall no_loop edges ->
  degree k edges = Z.of_nat (List.length (filter (incident k) edges)).
Proof. apply value_counts_incident. Qed.

(** X5.  [is_nodes_simplified] answers [True] exactly when no node
    identifier occurs exactly twice among the 'u' and 'v' of the edges; an
    edge from a node to itself counts twice at that node. *)
Theorem is_nodes_simplified_iff (edges : list Edge) :
  (is_nodes_simplified edges = true <-> forall k, degree k edges <> 2) /\
  (forall e, In e edges -> e_u e = e_v e -> 2 <= degree (e_u e) edges).
Proof.
  split.
  - unfold is_nodes_simplified; split.
    + intros H k Hk.
      apply (with_degree_iff 2 k edges) in Hk; [|lia].
      destruct (with_degree 2 edges); [destruct Hk | discriminate H].
    + intro H.
      destruct (with_degree 2 edges) as [|k rest] eqn:E; [reflexivity|].
      exfalso; apply (H k), (with_degree_iff 2 k edges); [lia|].
      rewrite E; left; reflexivity.
  - intros e Hin Hloop; unfold degree.
    assert (Hc : forall (f : Edge -> Z) l, In e l -> 1 <= value_count (f e) (map f l)).
    { intros f l; unfold value_count; induction l as [|a rest IH]; intro Hl;
        [destruct Hl|].
      simpl; destruct Hl as [->|Hl].
      - rewrite Z.eqb_refl; simpl List.length; lia.
      - specialize (IH Hl); destruct (f e =? f a); simpl List.length; lia. }
    pose proof (Hc e_u edges Hin) as Hu.
    pose proof (Hc e_v edges Hin) as Hv.
    rewrite <- Hloop in Hv; lia.
Qed.

(** ** Canonical codes *)

Lemma pair_eqb_eq (a b : Z * Z) : pair_eqb a b = true <-> a = b.
Proof.
  destruct a as [a1 a2], b as [b1 b2]; unfold pair_eqb; simpl.
  rewrite andb_true_iff, !Z.eqb_eq; split.
  - intros [-> ->]; reflexivity.
  - intro H; injection H as -> ->; auto.
Qed.

Lemma seen_code (k : Z * Z) (seen : list (Z * Z)) :
  existsb (pair_eqb k) seen = true <-> In k seen.
Proof.
  rewrite existsb_exists; split.
  - intros (x & Hin & Hx); apply pair_eqb_eq in Hx; subst x; exact Hin.
  - intro H; exists k; split; [exact H | apply pair_eqb_eq; reflexivity].
Qed.

Lemma codes_In (k : Z * Z) (edges : list Edge) :
  forall seen,
    In k (codes seen edges) <-> In (Some k) (map e_code edges) /\ ~ In k seen.
Proof.
  induction edges as [|e rest IH]; intro seen; simpl.
  - tauto.
  - destruct (e_code e) as [c|] eqn:Ec.
    + destruct (existsb (pair_eqb c) seen) eqn:Es.
      * apply seen_code in Es; rewrite IH; split.
        -- intros [H1 H2]; auto.
        -- intros [[H|H] H2]; [injection H as ->; contradiction | auto].
      * assert (Hs : ~ In c seen) by (intro H; apply seen_code in H; congruence).
        simpl; rewrite IH; simpl; split.
        -- intros [->|[H1 H2]]; [auto|]; split; [auto|tauto].
        -- intros [[H|H] H2].
           ++ injection H as ->; auto.
           ++ destruct (Z.eq_dec (fst c) (fst k)) as [E1|E1];
                [destruct (Z.eq_dec (snd c) (snd k)) as [E2|E2]|].
              ** left; destruct c, k; simpl in *; subst; reflexivity.
              ** right; split; [exact H|]; intros [E|E]; [subst c; auto | auto].
              ** right; split; [exact H|]; intros [E|E]; [subst c; auto | auto].
    + rewrite IH; split.
      * intros [H1 H2]; auto.
      * intros [[H|H] H2]; [discriminate H | auto].
Qed.

Lemma code_count_occ (k : Z * Z) (edges : list Edge) :
  code_count k (assign_code (map (set_code None) edges))
  = count_occ pair_dec (map canonical edges) k.
Proof.
  unfold code_count, assign_code.
  induction edges as [|e rest IH]; simpl; [reflexivity|].
  change (canonical (set_code None e)) with (canonical e).
  destruct (pair_dec (canonical e) k) as [E|E].
  - assert (Hk : pair_eqb (canonical e) k = true) by (apply pair_eqb_eq; exact E).
    rewrite Hk; simpl; rewrite IH; reflexivity.
  - assert (Hk : pair_eqb (canonical e) k = false).
    { destruct (pair_eqb (canonical e) k) eqn:F; [|reflexivity].
      apply pair_eqb_eq in F; contradiction. }
    rewrite Hk; exact IH.
Qed.

Lemma assigned_codes (edges : list Edge) :
  map e_code (assign_code (map (set_code None) edges))
  = map (fun e => Some (canonical e)) edges.
Proof. unfold assign_code; rewrite !map_map; reflexivity. Qed.

Lemma canonical_same_pair (a b : Edge) :
  canonical a = canonical b <->
  (e_u a = e_u b /\ e_v a = e_v b) \/ (e_u a = e_v b /\ e_v a = e_u b).
Proof.
  unfold canonical.
  destruct (e_u a <=? e_v a) eqn:Ea, (e_u b <=? e_v b) eqn:Eb;
    rewrite ?Z.leb_le, ?Z.leb_gt in Ea, Eb; split;
    try (intro H; injection H as H1 H2; lia);
    intros [[H1 H2]|[H1 H2]]; f_equal; lia.
Qed.

Lemma edges_simplified_NoDup (edges : list Edge) :
  fst (is_edges_simplified edges) = true <-> NoDup (map canonical edges).
Proof.
  unfold is_edges_simplified.
  set (coded := assign_code (map (set_code None) edges)).
  rewrite (NoDup_count_occ pair_dec).
  split.
  - intros H k.
    destruct (shared_codes coded) as [|c more] eqn:E; [|discriminate H].
    destruct (in_dec pair_dec k (map canonical edges)) as [Hin|Hout].
    + assert (Hc : In k (codes [] coded)).
      { apply codes_In; split; [|intros []].
        unfold coded; rewrite assigned_codes.
        apply in_map_iff in Hin as (e & <- & He).
        apply in_map_iff; exists e; auto. }
      destruct (1 <? code_count k coded)%nat eqn:F.
      * assert (Hs : In k (shared_codes coded))
          by (apply filter_In; split; assumption).
        rewrite E in Hs; destruct Hs.
      * apply Nat.ltb_ge in F; unfold coded in F; rewrite code_count_occ in F.
        exact F.
    + apply (count_occ_not_In pair_dec) in Hout; rewrite Hout; lia.
  - intro H.
    destruct (shared_codes coded) as [|c more] eqn:E; [reflexivity|].
    assert (Hs : In c (shared_codes coded)) by (rewrite E; left; reflexivity).
    apply filter_In in Hs as [_ Hs]; apply Nat.ltb_lt in Hs.
    unfold coded in Hs; rewrite code_count_occ in Hs.
    specialize (H c); lia.
Qed.

(** X6.  [is_edges_simplified] answers [True] exactly when no two rows
    join the same pair of nodes, whatever their directions: the codes of two
    rows are equal exactly when they have the same ends or each other's
    ends. *)
Theorem is_edges_simplified_iff (edges : list Edge) :
  (fst (is_edges_simplified edges) = true <-> NoDup (map canonical edges)) /\
  (forall a b,
     canonical a = canonical b <->
     (e_u a = e_u b /\ e_v a = e_v b) \/ (e_u a = e_v b /\ e_v a = e_u b)).
Proof. split; [apply edges_simplified_NoDup | apply canonical_same_pair]. Qed.

(** ** Dead ends *)

Lemma drop_nodes_Ok (labels : list Z) (nodes out : list Node) :
  drop_nodes labels nodes = Ok out ->
  out = filter (fun n => negb (mem (n_index n) labels)) nodes.
Proof.
  unfold drop_nodes; intro H.
  destruct (forallb _ labels); [injection H as <-; reflexivity | discriminate H].
Qed.

Lemma drop_nodes_returns (labels : list Z) (nodes : list Node) :
  (exists out, drop_nodes labels nodes = Ok out)
  <-> forall k, In k labels -> In k (map n_index nodes).
Proof.
  unfold drop_nodes.
  destruct (forallb (fun i => existsb (fun n => n_index n =? i) nodes) labels) eqn:E.
  - split; [|intros _; eexists; reflexivity].
    intros _ k Hk.
    rewrite forallb_forall in E; specialize (E k Hk).
    apply existsb_exists in E as (n & Hn & Hk1); apply Z.eqb_eq in Hk1.
    apply in_map_iff; exists n; auto.
  - split; [intros [out H]; discriminate H|].
    intro H; exfalso.
    assert (F : forallb (fun i => existsb (fun n => n_index n =? i) nodes) labels = true).
    { apply forallb_forall; intros k Hk; apply existsb_exists.
      specialize (H k Hk); apply in_map_iff in H as (n & Hn & Hin).
      exists n; split; [exact Hin | apply Z.eqb_eq; exact Hn]. }
    congruence.
Qed.

Lemma drop_nodes_error (labels : list Z) (nodes : list Node) (err : exn) :
  drop_nodes labels nodes = Raise err -> err = KeyError.
Proof.
  unfold drop_nodes; destruct (forallb _ labels); intro H;
    [discriminate H | injection H as <-; reflexivity].
Qed.

Lemma mem_false (i : Z) (l : list Z) : mem i l = false <-> ~ In i l.
Proof.
  rewrite <- mem_In; destruct (mem i l); split; intro H; congruence.
Qed.

Lemma filter_twice {A : Type} (p q : A -> bool) (l : list A) :
  filter q (filter p l) = filter (fun x => p x && q x) l.
Proof.
  induction l as [|a rest IH]; simpl; [reflexivity|].
  destruct (p a); simpl; [destruct (q a); rewrite IH; reflexivity | exact IH].
Qed.

Lemma mem_with_degree (d k : Z) (edges : list Edge) :
  0 < d -> mem k (with_degree d edges) = (degree k edges =? d).
Proof.
  intro Hd; destruct (degree k edges =? d) eqn:E.
  - apply mem_In, with_degree_iff; [exact Hd | apply Z.eqb_eq; exact E].
  - apply mem_false; intro Hin; apply with_degree_iff in Hin; [|exact Hd].
    apply Z.eqb_neq in E; contradiction.
Qed.

(** X7.  What [fix_dead_ends] returns: the edges neither of whose ends
    occurs exactly once among the ends of the edges given, and the nodes
    whose index label does not occur exactly once there.  The degrees are
    those of the table given: the pass is not repeated on its result, and a
    node all of whose streets went stays in the node table. *)
Theorem fix_dead_ends_result (nodes nodes1 : list Node) (edges edges1 : list Edge) :
  fix_dead_ends nodes edges = Ok (nodes1, edges1) ->
  edges1 = filter (fun e => negb (degree (e_u e) edges =? 1)
                            && negb (degree (e_v e) edges =? 1)) edges /\
  nodes1 = filter (fun n => negb (degree (n_index n) edges =? 1)) nodes.
Proof.
  unfold fix_dead_ends; intro H.
  assert (He : filter (fun e => negb (mem (e_v e) (with_degree 1 edges)))
                 (filter (fun e => negb (mem (e_u e) (with_degree 1 edges))) edges)
               = filter (fun e => negb (degree (e_u e) edges =? 1)
                                  && negb (degree (e_v e) edges =? 1)) edges).
  { rewrite filter_twice; apply filter_ext; intro e.
    rewrite !mem_with_degree by lia; reflexivity. }
  assert (Hn : filter (fun n => negb (mem (n_index n) (with_degree 1 edges))) nodes
               = filter (fun n => negb (degree (n_index n) edges =? 1)) nodes).
  { apply filter_ext; intro n; rewrite mem_with_degree by lia; reflexivity. }
  destruct (with_degree 1 edges) as [|k rest] eqn:E.
  - injection H as <- <-; simpl in He, Hn.
    rewrite <- He, <- Hn.
    split; symmetry.
    + rewrite filter_twice; apply forallb_filter_id, forallb_forall; reflexivity.
    + apply forallb_filter_id, forallb_forall; reflexivity.
  - apply bind_Ok in H as (n1 & Hdrop & H); injection H as <- <-.
    apply drop_nodes_Ok in Hdrop.
    split; [exact He | rewrite Hdrop; exact Hn].
Qed.

Lemma fix_dead_ends_result_witness :
  [] = filter (fun e => negb (degree (e_u e) chain_edges =? 1)
                        && negb (degree (e_v e) chain_edges =? 1)) chain_edges /\
  [node_at 1 1 0]
  = filter (fun n => negb (degree (n_index n) chain_edges =? 1)) chain_nodes.
Proof.
  apply (fix_dead_ends_result chain_nodes [node_at 1 1 0] chain_edges []).
  reflexivity.
Defined.

(** X8.  [fix_dead_ends] raises [KeyError] exactly when some node of degree
    one is no index label of the node table, and raises nothing else. *)
Theorem fix_dead_ends_raises_iff (nodes : list Node) (edges : list Edge) :
  (fix_dead_ends nodes edges = Raise KeyError
   <-> exists k, degree k edges = 1 /\ ~ In k (map n_index nodes)) /\
  (forall err, fix_dead_ends nodes edges = Raise err -> err = KeyError).
Proof.
  assert (Herr : forall err, fix_dead_ends nodes edges = Raise err -> err = KeyError).
  { unfold fix_dead_ends; intros err H.
    destruct (with_degree 1 edges) as [|k rest]; [discriminate H|].
    destruct (drop_nodes (k :: rest) nodes) as [n1|e1] eqn:E; simpl in H;
      [discriminate H|].
    injection H as <-; apply drop_nodes_error in E; exact E. }
  split; [|exact Herr].
  split.
  - intro H; unfold fix_dead_ends in H.
    destruct (with_degree 1 edges) as [|k rest] eqn:E; [discriminate H|].
    destruct (drop_nodes (k :: rest) nodes) as [n1|e1] eqn:D; simpl in H;
      [discriminate H|].
    destruct (existsb (fun k => negb (mem k (map n_index nodes))) (k :: rest)) eqn:X.
    + apply existsb_exists in X as (x & Hx & Hmiss).
      exists x; split.
      * apply (with_degree_iff 1); [lia | rewrite E; exact Hx].
      * apply mem_false, negb_true_iff; exact Hmiss.
    + exfalso.
      assert (Hall : exists out, drop_nodes (k :: rest) nodes = Ok out).
      { apply drop_nodes_returns; intros x Hx.
        apply mem_In.
        destruct (mem x (map n_index nodes)) eqn:M; [reflexivity|].
        assert (existsb (fun k => negb (mem k (map n_index nodes))) (k :: rest) = true)
          by (apply existsb_exists; exists x; split; [exact Hx | rewrite M; reflexivity]).
        congruence. }
      destruct Hall as [out Hout]; congruence.
  - intros (k & Hk & Hmiss).
    destruct (fix_dead_ends nodes edges) as [[n1 e1]|err] eqn:F.
    + exfalso; unfold fix_dead_ends in F.
      apply (with_degree_iff 1) in Hk; [|lia].
      destruct (with_degree 1 edges) as [|x rest] eqn:E; [destruct Hk|].
      apply bind_Ok in F as (n2 & Hdrop & _).
      apply Hmiss.
      apply (proj1 (drop_nodes_returns (x :: rest) nodes)); [eexists; exact Hdrop|].
      exact Hk.
    + rewrite (Herr err eq_refl); reflexivity.
Qed.

(** ** One contraction *)

Ltac eqb_cases :=
  repeat match goal with
         | H : (_ =? _) = true |- _ => apply Z.eqb_eq in H
         | H : (_ =? _) = false |- _ => apply Z.eqb_neq in H
         end.

Lemma relate_far_ends (node : Z) (edges : list Edge) (first second : Edge) :
  NoDup (map streetID edges) -> In first edges -> In second edges ->
  streetID first <> streetID second ->
  incident node first = true -> incident node second = true ->
  ~ (e_u first = e_u second /\ e_v first = e_v second) ->
  ~ (e_u first = e_v second /\ e_v first = e_u second) ->
  exists f A B,
    relate first second (streetID first) (streetID second) edges
    = Ok (at_edge (streetID first) f edges, A, B) /\
    (forall e, streetID (f e) = streetID e /\ e_highway (f e) = e_highway e /\
               e_geometry (f e) = e_geometry e /\
               e_pedestrian (f e) = e_pedestrian e /\ e_attrs (f e) = e_attrs e) /\
    e_u (f first) <> e_v (f first) /\
    ((e_u (f first) = other_end node first /\ e_v (f first) = other_end node second) \/
     (e_u (f first) = other_end node second /\ e_v (f first) = other_end node first)) /\
    List.length (A ++ B)
    = (List.length (e_geometry first) + List.length (e_geometry second))%nat.
Proof.
  intros Hnd Hf Hs Hij If Is Hp1 Hp2.
  pose proof (loc_edge_self _ _ Hnd Hf) as Lf.
  pose proof (loc_edge_self _ _ Hnd Hs) as Ls.
  unfold incident in If, Is; apply orb_true_iff in If, Is.
  unfold relate, other_end.
  destruct (e_u first =? e_u second) eqn:E1.
  { rewrite Lf; cbn [bind].
    rewrite (loc_edge_at_other _ _ (set_u (e_v first)) _ (fun e => eq_refl) Hij).
    rewrite Ls; cbn [bind].
    rewrite at_edge_twice by reflexivity.
    eexists; eexists; eexists; split; [reflexivity|]; split; [intro e; repeat split|].
    cbn [e_u e_v set_u set_v].
    destruct (e_u first =? node) eqn:F1, (e_u second =? node) eqn:F2;
      destruct If as [If|If], Is as [Is|Is]; eqb_cases;
      (split; [|split; [|rewrite length_app, length_rev; reflexivity]]);
      try lia; try (left; split; lia); try (right; split; lia); try tauto. }
  destruct (e_u first =? e_v second) eqn:E2.
  { rewrite Ls; cbn [bind].
    eexists; eexists; eexists; split; [reflexivity|]; split; [intro e; repeat split|].
    cbn [e_u e_v set_u set_v].
    destruct (e_u first =? node) eqn:F1, (e_u second =? node) eqn:F2;
      destruct If as [If|If], Is as [Is|Is]; eqb_cases;
      (split; [|split; [|rewrite length_app; lia]]);
      try lia; try (left; split; lia); try (right; split; lia); try tauto. }
  destruct (e_v first =? e_u second) eqn:E3;
    rewrite Ls; cbn [bind];
    (eexists; eexists; eexists; split; [reflexivity|]; split; [intro e; repeat split|]);
    cbn [e_u e_v set_u set_v];
    destruct (e_u first =? node) eqn:F1, (e_u second =? node) eqn:F2;
      destruct If as [If|If], Is as [Is|Is]; eqb_cases;
      (split; [|split; [|rewrite length_app; lia]]);
      try lia; try (left; split; lia); try (right; split; lia); try tauto.
Qed.

Lemma filter_incident (node : Z) (edges : list Edge) (first second : Edge)
    (rest : list Edge) :
  filter (incident node) edges = first :: second :: rest ->
  incident node first = true /\ incident node second = true.
Proof.
  intro H.
  assert (H1 : In first (filter (incident node) edges)) by (rewrite H; simpl; auto).
  assert (H2 : In second (filter (incident node) edges)) by (rewrite H; simpl; auto).
  apply filter_In in H1, H2; tauto.
Qed.

Lemma contract_merges (dc : option string) (nodes : list Node) (edges : list Edge)
    (node : Z) (first second : Edge) (rest : list Edge) :
  NoDup (map streetID edges) ->
  In node (map n_index nodes) ->
  filter (incident node) edges = first :: second :: rest ->
  ~ (e_u first = e_u second /\ e_v first = e_v second) ->
  ~ (e_u first = e_v second /\ e_v first = e_u second) ->
  exists f A B edges1 r,
    relate first second (streetID first) (streetID second) edges
    = Ok (at_edge (streetID first) f edges, A, B) /\
    contract false dc (nodes, edges) node
    = Ok (filter (fun n => negb (mem (n_index n) [node])) nodes, edges1) /\
    loc_edge (streetID first) edges1 = Ok r /\
    r = (if e_pedestrian second =? 1 then set_pedestrian 1 else fun e => e)
          (set_geometry (A ++ B) (f first)) /\
    e_u r <> e_v r /\
    ((e_u r = other_end node first /\ e_v r = other_end node second) \/
     (e_u r = other_end node second /\ e_v r = other_end node first)) /\
    List.length (e_geometry r)
    = (List.length (e_geometry first) + List.length (e_geometry second))%nat /\
    e_pedestrian r = (if e_pedestrian second =? 1 then 1 else e_pedestrian first) /\
    e_highway r = e_highway first /\ e_attrs r = e_attrs first /\
    loc_edge (streetID second) edges1 = Raise KeyError /\
    (forall x, In x edges -> streetID x <> streetID first ->
               streetID x <> streetID second -> In x edges1) /\
    (forall x, In x edges1 -> streetID x <> streetID first -> In x edges) /\
    (forall e, streetID (f e) = streetID e).
Proof.
  intros Hnd Hnode Htmp Hp1 Hp2.
  destruct (filter_first_two _ _ _ _ _ Hnd Htmp) as (Hf & Hs & Hij).
  destruct (filter_incident _ _ _ _ _ Htmp) as (If & Is).
  pose proof (loc_edge_self _ _ Hnd Hf) as Lf.
  pose proof (loc_edge_self _ _ Hnd Hs) as Ls.
  destruct (relate_far_ends node _ _ _ Hnd Hf Hs Hij If Is Hp1 Hp2)
    as (f & A & B & Hrel & Hcols & Hloop & Hends & Hlen).
  assert (Hlab : forall e, streetID (f e) = streetID e) by (intro e; apply Hcols).
  set (i := streetID first) in *; set (j := streetID second) in *.
  exists f, A, B.
  unfold contract; rewrite Htmp; fold i j; rewrite Hrel; cbn [bind keep_max].
  rewrite (loc_edge_at_edge _ f _ _ Hlab Lf); cbn [bind].
  replace (e_u (f first) =? e_v (f first)) with false
    by (symmetry; apply Z.eqb_neq; exact Hloop).
  set (e3 := at_edge i (set_geometry (A ++ B)) (at_edge i f edges)).
  assert (L2 : loc_edge j e3 = Ok second)
    by (unfold e3; rewrite !loc_edge_at_other; auto).
  rewrite L2; cbn [bind].
  set (p := if e_pedestrian second =? 1 then set_pedestrian 1 else fun e : Edge => e).
  assert (Hp : forall e, streetID (p e) = streetID e)
    by (intro e; unfold p; destruct (e_pedestrian second =? 1); reflexivity).
  assert (E4 : (if e_pedestrian second =? 1
                then at_edge i (set_pedestrian 1) e3 else e3) = at_edge i p e3).
  { unfold p; destruct (e_pedestrian second =? 1); [reflexivity|].
    symmetry; apply at_edge_id. }
  rewrite E4.
  assert (Hl4 : map streetID (at_edge i p e3) = map streetID edges)
    by (unfold e3; rewrite !at_edge_labels; auto).
  rewrite drop_edges_present;
    [|intros k [<-|[]]; rewrite Hl4; apply in_map; exact Hs].
  cbn [bind]; rewrite (drop_nodes_present _ _ Hnode); cbn [bind].
  assert (L4 : loc_edge i (at_edge i p e3) = Ok (p (set_geometry (A ++ B) (f first)))).
  { unfold e3; repeat (apply loc_edge_at_edge; [reflexivity || assumption|]).
    exact Lf. }
  eexists; exists (p (set_geometry (A ++ B) (f first))).
  split; [reflexivity|]; split; [reflexivity|]; split.
  { rewrite loc_edge_kept_label; [exact L4|].
    intros [E|[]]; apply Hij; symmetry; exact E. }
  assert (Hu : e_u (p (set_geometry (A ++ B) (f first))) = e_u (f first))
    by (unfold p; destruct (e_pedestrian second =? 1); reflexivity).
  assert (Hv : e_v (p (set_geometry (A ++ B) (f first))) = e_v (f first))
    by (unfold p; destruct (e_pedestrian second =? 1); reflexivity).
  split; [reflexivity|].
  rewrite Hu, Hv.
  split; [exact Hloop|]; split; [exact Hends|].
  split; [unfold p; destruct (e_pedestrian second =? 1); exact Hlen|].
  split.
  { unfold p; destruct (e_pedestrian second =? 1); [reflexivity|].
    simpl; apply Hcols. }
  split; [unfold p; destruct (e_pedestrian second =? 1); simpl; apply Hcols|].
  split; [unfold p; destruct (e_pedestrian second =? 1); simpl; apply Hcols|].
  split; [apply loc_edge_dropped; left; reflexivity|].
  split; [|split; [|exact Hlab]].
  - intros x Hx Hxi Hxj.
    apply filter_In; split.
    + unfold e3; repeat apply at_edge_other_In; assumption.
    + apply negb_true_iff.
      destruct (mem (streetID x) [j]) eqn:M; [|reflexivity].
      apply mem_In in M; destruct M as [M|[]]; exfalso; apply Hxj; symmetry; exact M.
  - intros x Hx Hxi.
    apply filter_In in Hx as [Hx _].
    unfold e3 in Hx.
    repeat (apply at_edge_In in Hx as [[Hx _]|(y & _ & Hy & ->)];
            [|exfalso; apply Hxi;
              rewrite ?Hp, ?Hlab; try reflexivity; exact Hy]).
    exact Hx.
Qed.

(** X9.  One contraction in [simplify_graph] (no densities): at a node of
    the node table where two lines meet that do not join the same pair of
    nodes, the node is dropped, the second street is dropped, and the first
    street keeps its [streetID], road type and numeric columns, runs between
    the two far ends, has as many coordinates as the two lines together (the
    shared point is kept twice), and is pedestrian when the second street
    was, or when it was itself.  Every other row stays as it was. *)
Theorem contract_merges_two_streets (dc : option string) (nodes : list Node)
    (edges : list Edge) (node : Z) (first second : Edge) (rest : list Edge) :
  NoDup (map streetID edges) ->
  In node (map n_index nodes) ->
  filter (incident node) edges = first :: second :: rest ->
  ~ (e_u first = e_u second /\ e_v first = e_v second) ->
  ~ (e_u first = e_v second /\ e_v first = e_u second) ->
  is_line first -> is_line second ->
  exists edges1 r,
    contract false dc (nodes, edges) node
    = Ok (filter (fun n => negb (mem (n_index n) [node])) nodes, edges1) /\
    loc_edge (streetID first) edges1 = Ok r /\
    loc_edge (streetID second) edges1 = Raise KeyError /\
    ((e_u r = other_end node first /\ e_v r = other_end node second) \/
     (e_u r = other_end node second /\ e_v r = other_end node first)) /\
    List.length (e_geometry r)
    = (List.length (e_geometry first) + List.length (e_geometry second))%nat /\
    is_line r /\
    e_pedestrian r = (if e_pedestrian second =? 1 then 1 else e_pedestrian first) /\
    e_highway r = e_highway first /\ e_attrs r = e_attrs first /\
    (forall x, In x edges -> streetID x <> streetID first ->
               streetID x <> streetID second -> In x edges1) /\
    (forall x, In x edges1 -> streetID x <> streetID first -> In x edges).
Proof.
  intros Hnd Hnode Htmp Hp1 Hp2 Hl1 Hl2.
  destruct (contract_merges dc _ _ _ _ _ _ Hnd Hnode Htmp Hp1 Hp2)
    as (f & A & B & edges1 & r & _ & Hc & Hr & _ & _ & Hends & Hlen & Hped & Hhw
        & Hattrs & Hsecond & Hothers & Hback & _).
  assert (Hl : is_line r) by (unfold is_line in *; lia).
  exists edges1, r; repeat (split; [assumption|]); assumption.
Qed.

Lemma contract_merges_two_streets_witness :
  exists edges1 r,
    contract false None (chain_nodes, walk_chain_edges) 1
    = Ok (filter (fun n => negb (mem (n_index n) [1])) chain_nodes, edges1) /\
    loc_edge 0 edges1 = Ok r /\
    loc_edge 1 edges1 = Raise KeyError /\
    ((e_u r = 0 /\ e_v r = 2) \/ (e_u r = 2 /\ e_v r = 0)) /\
    List.length (e_geometry r) = 4%nat /\
    is_line r /\
    e_pedestrian r = 1 /\
    e_highway r = None /\ e_attrs r = [("density"%string, 3)] /\
    (forall x, In x walk_chain_edges -> streetID x <> 0 -> streetID x <> 1 ->
               In x edges1) /\
    (forall x, In x edges1 -> streetID x <> 0 -> In x walk_chain_edges).
Proof.
  apply (contract_merges_two_streets None chain_nodes walk_chain_edges 1
           (street_with 0 0 1 [pt 0 0; pt 1 0] 0 3)
           (street_with 1 1 2 [pt 1 0; pt 2 0] 1 7) []).
  - distinct.
  - simpl; auto.
  - reflexivity.
  - intros [H _]; vm_compute in H; discriminate H.
  - intros [H _]; vm_compute in H; discriminate H.
  - unfold is_line; simpl; lia.
  - unfold is_line; simpl; lia.
Defined.

(** X10.  In the first three of the four cases of [simplify_graph] (the
    streets share the 'u' of the first, or the 'v' of the first is the 'u' of
    the second), when both lines run from the position of their 'u' to the
    position of their 'v', the merged line is one coordinate list that ends
    where the other begins, and it runs from the position of the new 'u' to
    the position of the new 'v'. *)
Theorem contract_joins_the_lines (pos : Z -> coord) (dc : option string)
    (nodes : list Node) (edges : list Edge) (node : Z) (first second : Edge)
    (rest : list Edge) :
  NoDup (map streetID edges) ->
  In node (map n_index nodes) ->
  filter (incident node) edges = first :: second :: rest ->
  ~ (e_u first = e_u second /\ e_v first = e_v second) ->
  ~ (e_u first = e_v second /\ e_v first = e_u second) ->
  starts_at (e_geometry first) (pos (e_u first)) ->
  ends_at (e_geometry first) (pos (e_v first)) ->
  starts_at (e_geometry second) (pos (e_u second)) ->
  ends_at (e_geometry second) (pos (e_v second)) ->
  (e_u first =? e_u second) || (e_u first =? e_v second) || (e_v first =? e_u second)
  = true ->
  exists nodes1 edges1 r A B p,
    contract false dc (nodes, edges) node = Ok (nodes1, edges1) /\
    loc_edge (streetID first) edges1 = Ok r /\
    e_geometry r = A ++ B /\
    ends_at A p /\ starts_at B p /\
    starts_at (e_geometry r) (pos (e_u r)) /\
    ends_at (e_geometry r) (pos (e_v r)).
Proof.
  intros Hnd Hnode Htmp Hp1 Hp2 S1 E1 S2 E2 Hcase.
  destruct (filter_first_two _ _ _ _ _ Hnd Htmp) as (Hf & Hs & Hij).
  destruct (contract_merges dc _ _ _ _ _ _ Hnd Hnode Htmp Hp1 Hp2)
    as (f & A & B & edges1 & r & Hrel & Hc & Hr & Hreq & _ & _ & _ & _ & _ & _ & _
        & _ & _ & Hlab).
  destruct (relate_joins pos _ _ _ Hnd Hf Hs Hij S1 E1 S2 E2 Hcase)
    as (edges0 & A0 & B0 & r0 & Hrel0 & Hr0 & (p & Hp & Hq) & Hstart & Hend).
  rewrite Hrel in Hrel0; injection Hrel0 as <- <- <-.
  rewrite (loc_edge_at_edge _ f _ _ Hlab (loc_edge_self _ _ Hnd Hf)) in Hr0.
  injection Hr0 as <-.
  assert (Hg : e_geometry r = A ++ B /\ e_u r = e_u (f first) /\ e_v r = e_v (f first))
    by (rewrite Hreq; destruct (e_pedestrian second =? 1); repeat split).
  destruct Hg as (Hg & Hu & Hv).
  exists (filter (fun n => negb (mem (n_index n) [node])) nodes), edges1, r, A, B, p.
  rewrite Hg, Hu, Hv; repeat (split; [assumption || reflexivity|]); assumption.
Qed.

Lemma contract_joins_the_lines_witness :
  exists nodes1 edges1 r A B p,
    contract false None (chain_nodes, walk_chain_edges) 1 = Ok (nodes1, edges1) /\
    loc_edge 0 edges1 = Ok r /\
    e_geometry r = A ++ B /\
    ends_at A p /\ starts_at B p /\
    starts_at (e_geometry r) (pt (e_u r) 0) /\
    ends_at (e_geometry r) (pt (e_v r) 0).
Proof.
  apply (contract_joins_the_lines (fun k => pt k 0) None chain_nodes walk_chain_edges 1
           (street_with 0 0 1 [pt 0 0; pt 1 0] 0 3)
           (street_with 1 1 2 [pt 1 0; pt 2 0] 1 7) []).
  - distinct.
  - simpl; auto.
  - reflexivity.
  - intros [H _]; vm_compute in H; discriminate H.
  - intros [H _]; vm_compute in H; discriminate H.
  - reflexivity.
  - reflexivity.
  - reflexivity.
  - reflexivity.
  - reflexivity.
Defined.

(** ** What a pass keeps *)

Lemma contract_nodes (ud : bool) (dc : option string) (nodes nodes1 : list Node)
    (edges edges1 : list Edge) (node : Z) :
  contract ud dc (nodes, edges) node = Ok (nodes1, edges1) ->
  nodes1 = nodes \/ nodes1 = filter (fun n => negb (mem (n_index n) [node])) nodes.
Proof.
  unfold contract; intro H.
  destruct (filter (incident node) edges) as [|first [|second rest]].
  - apply bind_Ok in H as (n1 & Hd & H); injection H as <- _.
    right; apply drop_nodes_Ok; exact Hd.
  - injection H as <- _; left; reflexivity.
  - apply bind_Ok in H as ([[e1 A] B] & _ & H).
    apply bind_Ok in H as (e2 & _ & H).
    apply bind_Ok in H as (r & _ & H).
    destruct (e_u r =? e_v r).
    + apply bind_Ok in H as (e3 & _ & H).
      apply bind_Ok in H as (n1 & Hd & H); injection H as <- _.
      right; apply drop_nodes_Ok; exact Hd.
    + apply bind_Ok in H as (r2 & _ & H).
      apply bind_Ok in H as (e5 & _ & H).
      apply bind_Ok in H as (n1 & Hd & H); injection H as <- _.
      right; apply drop_nodes_Ok; exact Hd.
Qed.

Lemma for_each_contract_nodes (ud : bool) (dc : option string) (items : list Z) :
  forall (nodes nodes1 : list Node) (edges edges1 : list Edge),
    for_each (contract ud dc) items (nodes, edges) = Ok (nodes1, edges1) ->
    (forall n, In n nodes1 -> In n nodes) /\
    (forall n, In n nodes -> ~ In n nodes1 -> In (n_index n) items).
Proof.
  induction items as [|k rest IH]; intros nodes nodes1 edges edges1 H; simpl in H.
  - injection H as <- _; split; [auto | intros n Hn Hm; contradiction].
  - apply bind_Ok in H as ([n2 e2] & Hc & H).
    destruct (IH _ _ _ _ H) as [Hsub Hgone].
    apply contract_nodes in Hc.
    split.
    + intros n Hn; apply Hsub in Hn.
      destruct Hc as [->| ->]; [exact Hn | apply filter_In in Hn; tauto].
    + intros n Hn Hm.
      destruct Hc as [->| ->]; [right; apply Hgone; assumption|].
      destruct (mem (n_index n) [k]) eqn:M.
      * apply mem_In in M as [M|[]]; left; exact M.
      * right; apply Hgone; [|exact Hm].
        apply filter_In; split; [exact Hn | rewrite M; reflexivity].
Qed.

Lemma relate_lengths (first second : Edge) (i j : Z) (edges edges1 : list Edge)
    (A B : LineString) :
  relate first second i j edges = Ok (edges1, A, B) ->
  List.length (A ++ B)
  = (List.length (e_geometry first) + List.length (e_geometry second))%nat.
Proof.
  unfold relate; intro H.
  destruct (e_u first =? e_u second).
  - apply bind_Ok in H as (r1 & _ & H); apply bind_Ok in H as (r2 & _ & H).
    injection H as _ <- <-; rewrite length_app, length_rev; reflexivity.
  - destruct (e_u first =? e_v second).
    + apply bind_Ok in H as (r2 & _ & H); injection H as _ <- <-.
      rewrite length_app; lia.
    + destruct (e_v first =? e_u second);
        apply bind_Ok in H as (r2 & _ & H); injection H as _ <- <-;
        rewrite length_app; reflexivity.
Qed.

Lemma at_edge_Forall (P : Edge -> Prop) (i : Z) (f : Edge -> Edge) (l : list Edge) :
  (forall e, In e l -> P e -> P (f e)) -> Forall P l -> Forall P (at_edge i f l).
Proof.
  intros Hf H; unfold at_edge; apply Forall_forall; intros x Hx.
  rewrite Forall_forall in H.
  apply in_map_iff in Hx as (e & <- & He).
  destruct (has_label i e); auto.
Qed.

Lemma keep_max_lines (ud : bool) (dc : option string) (i j : Z) (edges out : list Edge) :
  keep_max ud dc i j edges = Ok out -> Forall is_line edges -> Forall is_line out.
Proof.
  unfold keep_max; intros H Hl.
  destruct ud; [|injection H as <-; exact Hl].
  apply bind_Ok in H as (r1 & _ & H); apply bind_Ok in H as (d1 & _ & H).
  apply bind_Ok in H as (r2 & _ & H); apply bind_Ok in H as (d2 & _ & H).
  destruct dc as [c|]; [|discriminate H]; injection H as <-.
  apply at_edge_Forall; [|exact Hl]; intros e _ He; exact He.
Qed.

Lemma contract_lines (ud : bool) (dc : option string) (nodes nodes1 : list Node)
    (edges edges1 : list Edge) (node : Z) :
  Forall is_line edges ->
  contract ud dc (nodes, edges) node = Ok (nodes1, edges1) ->
  Forall is_line edges1.
Proof.
  intros Hl H; unfold contract in H.
  destruct (filter (incident node) edges) as [|first [|second rest]] eqn:Htmp.
  - apply bind_Ok in H as (n1 & _ & H); injection H as _ <-; exact Hl.
  - injection H as _ <-; exact Hl.
  - assert (Hf : is_line first /\ is_line second).
    { rewrite Forall_forall in Hl; split; apply Hl;
        apply (proj1 (filter_In (incident node) _ edges)); rewrite Htmp; simpl; auto. }
    apply bind_Ok in H as ([[e1 A] B] & Hrel & H).
    pose proof (relate_lengths _ _ _ _ _ _ _ _ Hrel) as Hlen.
    destruct (relate_shape _ _ _ _ _ _ _ _ Hrel) as (f & Hcols & ->).
    apply bind_Ok in H as (e2 & Hmax & H).
    assert (Hl2 : Forall is_line e2).
    { apply (keep_max_lines _ _ _ _ _ _ Hmax), at_edge_Forall; [|exact Hl].
      intros e _ He; unfold is_line; replace (e_geometry (f e)) with (e_geometry e);
        [exact He | symmetry; apply Hcols]. }
    apply bind_Ok in H as (r & _ & H).
    destruct (e_u r =? e_v r).
    + apply bind_Ok in H as (e3 & Hd & H).
      apply bind_Ok in H as (n1 & _ & H); injection H as _ <-.
      apply drop_edges_Ok in Hd; subst e3.
      rewrite Forall_forall in *; intros x Hx; apply filter_In in Hx as [Hx _]; auto.
    + apply bind_Ok in H as (r2 & _ & H).
      apply bind_Ok in H as (e5 & Hd & H).
      apply bind_Ok in H as (n1 & _ & H); injection H as _ <-.
      apply drop_edges_Ok in Hd; subst e5.
      assert (Hl3 : Forall is_line (at_edge (streetID first) (set_geometry (A ++ B)) e2)).
      { apply at_edge_Forall; [|exact Hl2].
        intros e _ _; unfold is_line in *; simpl; destruct Hf; lia. }
      assert (Hl4 : Forall is_line
                (if e_pedestrian r2 =? 1
                 then at_edge (streetID first) (set_pedestrian 1)
                        (at_edge (streetID first) (set_geometry (A ++ B)) e2)
                 else at_edge (streetID first) (set_geometry (A ++ B)) e2)).
      { destruct (e_pedestrian r2 =? 1); [|exact Hl3].
        apply at_edge_Forall; [|exact Hl3]; intros e _ He; exact He. }
      rewrite Forall_forall in *; intros x Hx; apply filter_In in Hx as [Hx _]; auto.
Qed.

Lemma simplify_graph_lines (ud : bool) (dc : option string) (nodes nodes1 : list Node)
    (edges edges1 : list Edge) :
  Forall is_line edges ->
  simplify_graph nodes edges ud dc = Ok (nodes1, edges1) ->
  Forall is_line edges1.
Proof.
  intros Hl H; unfold simplify_graph in H.
  destruct (with_degree 2 edges) as [|k rest]; [injection H as _ <-; exact Hl|].
  apply (for_each_invariant (fun t => Forall is_line (snd t))
           (contract ud dc)) in H; [exact H| |exact Hl].
  intros [n e] i [n1 e1] He Hc; simpl in *.
  apply (contract_lines _ _ _ _ _ _ _ He Hc).
Qed.

Lemma simplify_graph_nodes (ud : bool) (dc : option string)
    (nodes nodes1 : list Node) (edges edges1 : list Edge) :
  simplify_graph nodes edges ud dc = Ok (nodes1, edges1) ->
  (forall n, In n nodes1 -> In n nodes) /\
  (forall n, In n nodes -> ~ In n nodes1 -> degree (n_index n) edges = 2).
Proof.
  intro H; split.
  - unfold simplify_graph in H.
    destruct (with_degree 2 edges); [injection H as <- _; auto|].
    apply (for_each_contract_nodes _ _ _ _ _ _ _ H).
  - intros n Hn Hm; apply (with_degree_iff 2); [lia|].
    unfold simplify_graph in H.
    destruct (with_degree 2 edges) as [|k rest];
      [injection H as <- _; contradiction|].
    apply (for_each_contract_nodes _ _ _ _ _ _ _ H); assumption.
Qed.

(** X11.  A pass of [simplify_graph] that returns: the nodes returned are
    nodes given, and a node that is missing had degree two in the edges
    given; every edge returned is an edge given by [streetID] and road type,
    and there are not more of them; distinct [streetID]s, the absence of
    loops and lines of at least two coordinates are kept. *)
Theorem simplify_graph_keeps_rows (ud : bool) (dc : option string)
    (nodes nodes1 : list Node) (edges edges1 : list Edge) :
  simplify_graph nodes edges ud dc = Ok (nodes1, edges1) ->
  (forall n, In n nodes1 -> In n nodes) /\
  (forall n, In n nodes -> ~ In n nodes1 -> degree (n_index n) edges = 2) /\
  (forall e1, In e1 edges1 ->
     exists e, In e edges /\ streetID e1 = streetID e /\ e_highway e1 = e_highway e) /\
  (List.length edges1 <= List.length edges)%nat /\
  (NoDup (map streetID edges) -> Forall no_loop edges ->
   NoDup (map streetID edges1) /\ Forall no_loop edges1) /\
  (Forall is_line edges -> Forall is_line edges1).
Proof.
  intro H.
  pose proof (simplify_graph_kept _ _ _ _ _ _ H) as Hk.
  destruct (simplify_graph_nodes _ _ _ _ _ _ H) as [Hsub Hgone].
  split; [exact Hsub|]; split; [exact Hgone|]; split; [|split; [|split]].
  - intros e1 He1.
    destruct (kept_In _ _ _ _ Hk He1) as (e & He & Hs & Hh).
    exists e; auto.
  - apply (kept_length _ _ _ Hk).
  - intros Hnd Hl; apply (simplify_graph_sound _ _ _ _ _ _ (conj Hnd Hl) H).
  - intro Hl; apply (simplify_graph_lines _ _ _ _ _ _ Hl H).
Qed.

Lemma simplify_graph_keeps_rows_witness :
  exists nodes1 edges1,
    simplify_graph chain_nodes walk_chain_edges false None = Ok (nodes1, edges1) /\
    (forall n, In n nodes1 -> In n chain_nodes) /\
    (forall n, In n chain_nodes -> ~ In n nodes1 ->
               degree (n_index n) walk_chain_edges = 2) /\
    (forall e1, In e1 edges1 ->
       exists e, In e walk_chain_edges /\ streetID e1 = streetID e /\
                 e_highway e1 = e_highway e) /\
    (List.length edges1 <= List.length walk_chain_edges)%nat /\
    (NoDup (map streetID walk_chain_edges) -> Forall no_loop walk_chain_edges ->
     NoDup (map streetID edges1) /\ Forall no_loop edges1) /\
    (Forall is_line walk_chain_edges -> Forall is_line edges1).
Proof.
  eexists; eexists; split; [vm_compute; reflexivity|].
  eapply (simplify_graph_keeps_rows false None chain_nodes _ walk_chain_edges _).
  vm_compute; reflexivity.
Defined.

(** ** The pass without a density column *)

Lemma simplify_graph_without_column (nodes : list Node) (edges : list Edge) :
  NoDup (map streetID edges) -> Forall no_loop edges ->
  is_nodes_simplified edges = false ->
  simplify_graph nodes edges true None = Raise KeyError.
Proof.
  intros Hnd Hl Hs.
  unfold is_nodes_simplified in Hs; unfold simplify_graph.
  destruct (with_degree 2 edges) as [|k rest] eqn:E; [discriminate Hs|].
  assert (Hk : degree k edges = 2)
    by (apply (with_degree_iff 2); [lia | rewrite E; left; reflexivity]).
  rewrite (degree_incident k edges Hl) in Hk.
  cbn [for_each]; unfold contract at 1.
  destruct (filter (incident k) edges) as [|first [|second [|third more]]] eqn:Htmp;
    simpl in Hk; try lia.
  destruct (filter_first_two _ _ _ _ _ Hnd Htmp) as (Hf & Hsd & Hij).
  destruct (relate_total _ _ _ Hnd Hf Hsd Hij) as (f & A & B & Hrel & Hcols & _).
  assert (Hlab : forall e, streetID (f e) = streetID e) by (intro e; apply Hcols).
  rewrite Hrel; cbn [bind keep_max].
  rewrite (loc_edge_at_edge _ f _ _ Hlab (loc_edge_self _ _ Hnd Hf)).
  reflexivity.
Qed.

(** X13.  Asked to update densities without a column name,
    [simplify_graph] raises [KeyError] (and not the configuration error) on
    every loop-free table with distinct [streetID]s that has a node of
    degree two, whatever the node table; on a table without such a node it
    returns the tables given. *)
Theorem simplify_graph_without_densities_column (nodes : list Node)
    (edges : list Edge) :
  NoDup (map streetID edges) -> Forall no_loop edges ->
  (is_nodes_simplified edges = false ->
   simplify_graph nodes edges true None = Raise KeyError) /\
  (is_nodes_simplified edges = true ->
   simplify_graph nodes edges true None = Ok (nodes, edges)).
Proof.
  intros Hnd Hl; split; [apply simplify_graph_without_column; assumption|].
  unfold is_nodes_simplified, simplify_graph.
  destruct (with_degree 2 edges); [reflexivity | discriminate].
Qed.

Lemma simplify_graph_without_densities_column_witness :
  simplify_graph chain_nodes walk_chain_edges true None = Raise KeyError /\
  simplify_graph pair_nodes [direct; near; detour] true None
  = Ok (pair_nodes, [direct; near; detour]).
Proof.
  split.
  - apply (simplify_graph_without_densities_column chain_nodes walk_chain_edges);
      [distinct | distinct | reflexivity].
  - apply (simplify_graph_without_densities_column pair_nodes [direct; near; detour]);
      [distinct | distinct | reflexivity].
Defined.

(** ** The identity resolver, on every node table *)

Lemma duplicate_nodes_Ok_distinct (nodes nodes1 : list Node) (edges edges1 : list Edge) :
  NoDup (map nodeID nodes) ->
  duplicate_nodes nodes edges = Ok (nodes1, edges1) ->
  NoDup (map n_geometry nodes).
Proof.
  intros Hids H.
  destruct (reindex_labels nodes) as (Hl & Hg & Hlen).
  unfold duplicate_nodes, duplicate_nodes_reading in H.
  set (all := reindex nodes) in *.
  set (new_nodes := first_of_each [] all) in *.
  destruct (set_of _) as [|k ks] eqn:E.
  - assert (Hincl : incl (map n_index all) (map n_index new_nodes)).
    { intros i Hi.
      destruct (mem i (map n_index new_nodes)) eqn:M; [apply mem_In; exact M|].
      assert (Hin : In i (set_of
                            (filter (fun i => negb (mem i (map n_index new_nodes)))
                                    (map n_index all)))).
      { apply set_of_In, filter_In; split; [exact Hi | rewrite M; reflexivity]. }
      rewrite E in Hin; contradiction. }
    apply NoDup_incl_length in Hincl; [|rewrite Hl; exact Hids].
    rewrite !length_map in Hincl.
    pose proof (first_of_each_length all []) as Hle; fold new_nodes in Hle.
    rewrite <- Hg.
    apply (proj1 (first_of_each_full all [] ltac:(fold new_nodes; lia))).
  - exfalso.
    apply bind_Ok in H as (e1 & H & _); cbn [for_each] in H.
    apply bind_Ok in H as (e2 & H & _); unfold readjust in H.
    apply bind_Ok in H as (r & _ & H); discriminate H.
Qed.

(** X14.  [duplicate_nodes] on nodes with distinct [nodeID]s returns
    exactly when no two nodes share a geometry; what it returns then are the
    nodes indexed by [nodeID] and the edges as they were, and what it raises
    otherwise is [AttributeError]. *)
Theorem duplicate_nodes_returns_iff (nodes : list Node) (edges : list Edge) :
  NoDup (map nodeID nodes) ->
  (NoDup (map n_geometry nodes) <->
   duplicate_nodes nodes edges = Ok (reindex nodes, edges)) /\
  (forall r, duplicate_nodes nodes edges = Ok r -> r = (reindex nodes, edges)) /\
  (forall err, duplicate_nodes nodes edges = Raise err -> err = AttributeError) /\
  map n_index (reindex nodes) = map nodeID nodes.
Proof.
  intro Hids.
  split; [|split; [|split]].
  - split; [apply duplicate_nodes_without_twins|].
    apply duplicate_nodes_Ok_distinct; exact Hids.
  - intros [n1 e1] H; apply duplicate_nodes_Ok in H as [-> ->]; reflexivity.
  - intros err H.
    destruct (duplicate_nodes nodes edges) as [[n1 e1]|err1] eqn:D; [discriminate H|].
    injection H as <-.
    assert (Ht : ~ NoDup (map n_geometry nodes)).
    { intro Hn; rewrite (duplicate_nodes_without_twins nodes edges Hn) in D.
      discriminate D. }
    rewrite (duplicate_nodes_with_twins nodes edges Hids Ht) in D.
    injection D as <-; reflexivity.
  - apply reindex_labels.
Qed.

Lemma duplicate_nodes_returns_iff_witness :
  (NoDup (map n_geometry shifted_nodes) <->
   duplicate_nodes shifted_nodes chain_edges = Ok (reindex shifted_nodes, chain_edges)) /\
  (forall r, duplicate_nodes shifted_nodes chain_edges = Ok r ->
             r = (reindex shifted_nodes, chain_edges)) /\
  (forall err, duplicate_nodes shifted_nodes chain_edges = Raise err ->
               err = AttributeError) /\
  map n_index (reindex shifted_nodes) = map nodeID shifted_nodes.
Proof.
  apply (duplicate_nodes_returns_iff shifted_nodes chain_edges).
  distinct.
Defined.

(** ** The geometry reconciler *)

(** X16.  [correct_edges] returns no table, whatever the tables given: on
    an edge table without rows it raises [ValueError] (line 390); on every
    other it raises on its first row, [KeyError] when the [u] of that row is
    no index label of the node table, and [TypeError] when it is one (line
    411). *)
Theorem correct_edges_returns_no_table (nodes : list Node) (edges : list Edge) :
  (forall out, correct_edges nodes edges <> Ok out) /\
  (edges = [] -> correct_edges nodes edges = Raise ValueError) /\
  (forall e rest, edges = e :: rest ->
     (In (e_u e) (map n_index nodes) -> correct_edges nodes edges = Raise TypeError) /\
     (~ In (e_u e) (map n_index nodes) -> correct_edges nodes edges = Raise KeyError)).
Proof.
  split; [|split].
  - intros out; destruct edges as [|e rest]; [discriminate|].
    destruct (correct_edges_first_row nodes e rest) as [Hin Hout].
    destruct (in_dec Z.eq_dec (e_u e) (map n_index nodes)) as [H|H];
      [rewrite (Hin H) | rewrite (Hout H)]; discriminate.
  - intros ->; reflexivity.
  - intros e rest ->; apply correct_edges_first_row.
Qed.

(** ** Duplicate geometries *)

Lemma line_eqb_eq (a b : LineString) : line_eqb a b = true <-> a = b.
Proof.
  revert b; induction a as [|p a IH]; intros [|q b]; simpl; split; intro H;
    try reflexivity; try discriminate.
  - apply andb_true_iff in H as [Hp Ha].
    apply coord_eqb_eq in Hp; apply IH in Ha; subst; reflexivity.
  - injection H as -> ->; apply andb_true_iff; split;
      [apply coord_eqb_eq | apply IH]; reflexivity.
Qed.

Lemma key_eqb_eq (a b : option LineString) : key_eqb a b = true <-> a = b.
Proof.
  destruct a as [a|], b as [b|]; simpl; split; intro H;
    try reflexivity; try discriminate.
  - apply line_eqb_eq in H; subst; reflexivity.
  - injection H as ->; apply line_eqb_eq; reflexivity.
Qed.

Lemma seen_key (k : option LineString) (seen : list (option LineString)) :
  existsb (key_eqb k) seen = true <-> In k seen.
Proof.
  rewrite existsb_exists; split.
  - intros (x & Hin & Hx); apply key_eqb_eq in Hx; subst x; exact Hin.
  - intro H; exists k; split; [exact H | apply key_eqb_eq; reflexivity].
Qed.

Lemma drop_duplicates_In (key : Edge -> option LineString) (l : list Edge) :
  forall seen e, In e (drop_duplicates key seen l) -> In e l /\ ~ In (key e) seen.
Proof.
  induction l as [|a rest IH]; intros seen e H; simpl in H; [destruct H|].
  destruct (existsb (key_eqb (key a)) seen) eqn:E.
  - destruct (IH _ _ H); split; [right|]; assumption.
  - destruct H as [->|H].
    + split; [left; reflexivity|].
      intro Hin; apply seen_key in Hin; congruence.
    + destruct (IH _ _ H) as [Hin Hs]; split; [right; exact Hin|].
      intro Hk; apply Hs; right; exact Hk.
Qed.

Lemma drop_duplicates_NoDup (key : Edge -> option LineString) (l : list Edge) :
  forall seen, NoDup (map key (drop_duplicates key seen l)).
Proof.
  induction l as [|a rest IH]; intro seen; simpl; [constructor|].
  destruct (existsb (key_eqb (key a)) seen); [apply IH|].
  simpl; constructor; [|apply IH].
  intro H; apply in_map_iff in H as (x & Hx & Hin).
  apply drop_duplicates_In in Hin as [_ Hs]; apply Hs; left; symmetry; exact Hx.
Qed.

Lemma drop_duplicates_keeps_NoDup {K : Type} (f : Edge -> K)
    (key : Edge -> option LineString) (l : list Edge) :
  forall seen, NoDup (map f l) -> NoDup (map f (drop_duplicates key seen l)).
Proof.
  induction l as [|a rest IH]; intros seen H; simpl; [constructor|].
  simpl in H; inversion H as [|x m Ha Hrest]; subst.
  destruct (existsb (key_eqb (key a)) seen); [apply IH; exact Hrest|].
  simpl; constructor; [|apply IH; exact Hrest].
  intro Hin; apply Ha.
  apply in_map_iff in Hin as (x & Hx & Hin).
  apply drop_duplicates_In in Hin as [Hin _].
  rewrite <- Hx; apply in_map; exact Hin.
Qed.

Lemma drop_duplicates_survivor (key : Edge -> option LineString) (l : list Edge) :
  forall seen e,
    In e l ->
    In (key e) seen \/ exists e1, In e1 (drop_duplicates key seen l) /\ key e1 = key e.
Proof.
  induction l as [|a rest IH]; intros seen e H; [destruct H|]; simpl.
  destruct (existsb (key_eqb (key a)) seen) eqn:E.
  - destruct H as [->|H]; [left; apply seen_key; exact E|].
    apply IH; exact H.
  - destruct H as [->|H]; [right; exists e; split; [left|]; reflexivity|].
    destruct (IH (key a :: seen) e H) as [[Hk|Hs]|(e1 & He1 & Hk)].
    + right; exists a; split; [left; reflexivity | exact Hk].
    + left; exact Hs.
    + right; exists e1; split; [right; exact He1 | exact Hk].
Qed.

Lemma drop_duplicates_distinct (key : Edge -> option LineString) (l : list Edge) :
  NoDup (map key l) -> forall seen,
  (forall e, In e l -> ~ In (key e) seen) -> drop_duplicates key seen l = l.
Proof.
  induction l as [|a rest IH]; intros Hnd seen Hseen; simpl; [reflexivity|].
  simpl in Hnd; inversion Hnd as [|x m Ha Hrest]; subst.
  destruct (existsb (key_eqb (key a)) seen) eqn:E.
  - apply seen_key in E; exfalso; apply (Hseen a); [left; reflexivity | exact E].
  - f_equal; apply IH; [exact Hrest|].
    intros e He [Hk|Hk].
    + apply Ha; rewrite Hk; apply in_map; exact He.
    + apply (Hseen e); [right; exact He | exact Hk].
Qed.

Lemma apply_rows_Ok {A B : Type} (f : A -> result B) (rows : list A) (out : list B) :
  apply_rows f rows = Ok out -> forall r, In r rows -> exists b, f r = Ok b.
Proof.
  revert out; induction rows as [|a rest IH]; intros out H r Hr; [destruct Hr|].
  cbn [apply_rows] in H.
  apply bind_Ok in H as (b & Hb & H).
  apply bind_Ok in H as (bs & Hbs & _).
  destruct Hr as [<-|Hr]; [exists b; exact Hb | eapply IH; eassumption].
Qed.

Lemma apply_rows_returns {A B : Type} (f : A -> result B) (rows : list A) :
  (forall r, In r rows -> exists b, f r = Ok b) -> exists out, apply_rows f rows = Ok out.
Proof.
  induction rows as [|a rest IH]; intro H; [exists []; reflexivity|].
  destruct (H a (or_introl eq_refl)) as (b & Hb).
  destruct IH as (bs & Hbs); [intros r Hr; apply H; right; exact Hr|].
  exists (b :: bs); cbn [apply_rows]; rewrite Hb; cbn [bind]; rewrite Hbs; reflexivity.
Qed.

Lemma apply_rows_raises {A B : Type} (f : A -> result B) (err : exn) (rows : list A) :
  (forall r, In r rows -> f r = Raise err \/ exists b, f r = Ok b) ->
  (exists r, In r rows /\ f r = Raise err) ->
  apply_rows f rows = Raise err.
Proof.
  induction rows as [|a rest IH]; intros Hall (r & Hr & Hraise); [destruct Hr|].
  cbn [apply_rows].
  destruct (Hall a (or_introl eq_refl)) as [Ha|(b & Hb)]; [rewrite Ha; reflexivity|].
  rewrite Hb; cbn [bind].
  destruct Hr as [->|Hr]; [rewrite Hraise in Hb; discriminate Hb|].
  rewrite IH; [reflexivity| |exists r; auto].
  intros x Hx; apply Hall; right; exact Hx.
Qed.

Lemma same_point_count_map (f : Edge -> Edge) (edges : list Edge) :
  (forall e, e_geometry (f e) = e_geometry e) ->
  same_point_count (map f edges) = same_point_count edges.
Proof.
  intro Hf; destruct edges as [|e rest]; [reflexivity|]; simpl.
  rewrite Hf; induction rest as [|x rest IH]; simpl; [reflexivity|].
  rewrite Hf, IH; reflexivity.
Qed.

Lemma swapped_coded (e : Edge) :
  swapped (set_code (Some (canonical e)) e) = (e_v e <? e_u e).
Proof.
  unfold swapped, canonical; cbn [e_u e_v e_code set_code code_eqb].
  destruct (e_u e <=? e_v e) eqn:E; unfold pair_eqb; cbn [fst snd].
  - rewrite !Z.eqb_refl; simpl; symmetry; apply Z.ltb_ge, Z.leb_le; exact E.
  - apply Z.leb_gt in E.
    replace (e_u e =? e_v e) with false by (symmetry; apply Z.eqb_neq; lia).
    simpl; symmetry; apply Z.ltb_lt; exact E.
Qed.

Section Geometries.
Variable line_length : LineString -> float.

Lemma with_coords_rows (edges : list Edge) :
  assign_coords
    (assign_code
       (map (fun e => set_length (Some (line_length (e_geometry e))) e) edges))
  = map (with_coords line_length (same_point_count edges)) edges.
Proof.
  unfold assign_coords, assign_code.
  rewrite !same_point_count_map by reflexivity.
  rewrite !map_map; apply map_ext; intro e; unfold with_coords.
  rewrite (swapped_coded (set_length (Some (line_length (e_geometry e))) e)).
  reflexivity.
Qed.

Lemma with_coords_fields (numbers : bool) (e : Edge) :
  streetID (with_coords line_length numbers e) = streetID e /\
  e_u (with_coords line_length numbers e) = e_u e /\ e_v (with_coords line_length numbers e) = e_v e /\
  e_geometry (with_coords line_length numbers e) = e_geometry e /\
  e_code (with_coords line_length numbers e) = Some (canonical e).
Proof. unfold with_coords; destruct (e_v e <? e_u e); repeat split. Qed.

Lemma with_coords_ordered (numbers : bool) (e : Edge) :
  ordered_coords (with_coords line_length numbers e)
  = (if e_v e <? e_u e then rev (e_geometry e) else e_geometry e).
Proof.
  unfold ordered_coords.
  destruct (with_coords_fields numbers e) as (_ & Hu & Hv & Hg & Hc).
  rewrite Hg.
  replace (swapped (with_coords line_length numbers e)) with (e_v e <? e_u e); [reflexivity|].
  unfold swapped; rewrite Hu, Hv, Hc.
  rewrite <- (swapped_coded e); reflexivity.
Qed.

Lemma with_coords_tuple (numbers : bool) (e : Edge) :
  (numbers && (e_v e <? e_u e) = false ->
   tuple (e_coords (with_coords line_length numbers e)) = Ok (ordered_coords (with_coords line_length numbers e)) /\
   tmp_key (with_coords line_length numbers e) = Some (ordered_coords (with_coords line_length numbers e))) /\
  (numbers && (e_v e <? e_u e) = true ->
   tuple (e_coords (with_coords line_length numbers e)) = Raise TypeError).
Proof.
  rewrite with_coords_ordered; unfold with_coords, tmp_key.
  destruct numbers, (e_v e <? e_u e); simpl; split; intro H;
    try discriminate H; auto.
Qed.

(** X18.  The pass of the loop over duplicate geometries (lines 295 to
    314).  When it returns, it leaves no two rows with the same line, and no
    two rows with the same coordinates once these are ordered from the lower
    to the higher node; every row given has its line, or its line reversed,
    among the rows left; and every row left is a row given, with its ends
    and its line.  It returns on every table in which no row has [u] above
    [v], and on every table whose lines differ in their number of points;
    on a table of distinct lines of one number of points with a row that has
    [u] above [v] it raises [TypeError] (line 313). *)
Theorem drop_duplicate_geometries_result (edges : list Edge) :
  (forall out, drop_duplicate_geometries line_length edges = Ok out ->
     NoDup (map e_geometry out) /\
     NoDup (map ordered_coords out) /\
     (forall e, In e edges ->
        exists e1, In e1 out /\
                   (e_geometry e1 = e_geometry e \/ e_geometry e1 = rev (e_geometry e))) /\
     (forall e1, In e1 out ->
        exists e, In e edges /\ streetID e1 = streetID e /\ e_u e1 = e_u e /\
                  e_v e1 = e_v e /\ e_geometry e1 = e_geometry e)) /\
  (Forall (fun e => e_u e <= e_v e) edges \/ same_point_count edges = false ->
   exists out, drop_duplicate_geometries line_length edges = Ok out) /\
  (same_point_count edges = true -> NoDup (map e_geometry edges) ->
   (exists e, In e edges /\ e_v e < e_u e) ->
   drop_duplicate_geometries line_length edges = Raise TypeError).
Proof.
  unfold drop_duplicate_geometries; rewrite with_coords_rows.
  set (numbers := same_point_count edges).
  set (coded := map (with_coords line_length numbers) edges).
  set (first_pass := drop_duplicates (fun e => Some (e_geometry e)) [] coded).
  assert (Hcoded : forall x, In x coded ->
            exists e, In e edges /\ x = with_coords line_length numbers e).
  { intros x Hx; apply in_map_iff in Hx as (e & <- & He); exists e; auto. }
  assert (Hfirst : forall x, In x first_pass -> In x coded)
    by (intros x Hx; apply (drop_duplicates_In _ _ _ _ Hx)).
  assert (Hsome : forall a b : LineString, Some a = Some b -> a = b)
    by (intros a b H; injection H as ->; reflexivity).
  split; [|split].
  - intros out H.
    apply bind_Ok in H as (tuples & Htuples & H); injection H as <-.
    assert (Hkey : forall x, In x first_pass -> tmp_key x = Some (ordered_coords x)).
    { intros x Hx.
      destruct (apply_rows_Ok _ _ _ Htuples x Hx) as (b & Hb).
      destruct (Hcoded x (Hfirst x Hx)) as (e & _ & ->).
      destruct (with_coords_tuple numbers e) as [Hlist Hnumber].
      destruct (numbers && (e_v e <? e_u e)) eqn:E;
        [rewrite (Hnumber eq_refl) in Hb; discriminate Hb | apply Hlist; reflexivity]. }
    split; [|split; [|split]].
    + apply drop_duplicates_keeps_NoDup.
      pose proof (drop_duplicates_NoDup (fun e => Some (e_geometry e)) coded []) as H.
      fold first_pass in H.
      rewrite <- (map_map e_geometry Some) in H.
      apply NoDup_map_inv in H; exact H.
    + pose proof (drop_duplicates_NoDup tmp_key first_pass []) as H.
      assert (E : map tmp_key (drop_duplicates tmp_key [] first_pass)
                  = map Some (map ordered_coords (drop_duplicates tmp_key [] first_pass))).
      { rewrite map_map; apply map_ext_in; intros x Hx.
        apply drop_duplicates_In in Hx as [Hx _]; apply Hkey; exact Hx. }
      apply (NoDup_map_inv Some); rewrite <- E; exact H.
    + intros e He.
      assert (Hx : In (with_coords line_length numbers e) coded) by (apply in_map; exact He).
      destruct (drop_duplicates_survivor (fun e => Some (e_geometry e)) coded []
                  _ Hx) as [[]|(e1 & He1 & Hg1)].
      fold first_pass in He1; apply Hsome in Hg1.
      destruct (drop_duplicates_survivor tmp_key first_pass [] e1 He1)
        as [[]|(e2 & He2 & Hc2)].
      exists e2; split; [exact He2|].
      assert (H2 : In e2 first_pass) by (apply (drop_duplicates_In _ _ _ _ He2)).
      rewrite (Hkey e1 He1), (Hkey e2 H2) in Hc2; apply Hsome in Hc2.
      destruct (with_coords_fields numbers e) as (_ & _ & _ & Hg & _).
      rewrite Hg in Hg1.
      destruct (Hcoded e1 (Hfirst e1 He1)) as (a1 & _ & E1).
      destruct (Hcoded e2 (Hfirst e2 H2)) as (a2 & _ & E2).
      rewrite E1, E2, !with_coords_ordered in Hc2.
      destruct (with_coords_fields numbers a1) as (_ & _ & _ & G1 & _).
      destruct (with_coords_fields numbers a2) as (_ & _ & _ & G2 & _).
      rewrite E1, G1 in Hg1; rewrite E2, G2.
      destruct (e_v a2 <? e_u a2), (e_v a1 <? e_u a1).
      * left; apply (f_equal (@rev coord)) in Hc2.
        rewrite !rev_involutive in Hc2; congruence.
      * right; rewrite <- Hg1, <- Hc2, rev_involutive; reflexivity.
      * right; congruence.
      * left; congruence.
    + intros e1 He1.
      apply drop_duplicates_In in He1 as [He1 _].
      destruct (Hcoded e1 (Hfirst e1 He1)) as (e & He & ->).
      destruct (with_coords_fields numbers e) as (Hs & Hu & Hv & Hg & _).
      exists e; auto.
  - intros Hreturns.
    destruct (apply_rows_returns (fun e => tuple (e_coords e)) first_pass) as (t & Ht).
    + intros x Hx; destruct (Hcoded x (Hfirst x Hx)) as (e & He & ->).
      destruct (with_coords_tuple numbers e) as [Hlist _].
      eexists; apply Hlist.
      destruct Hreturns as [Hall|Hcount].
      * rewrite Forall_forall in Hall; specialize (Hall e He).
        replace (e_v e <? e_u e) with false by (symmetry; apply Z.ltb_ge; exact Hall).
        apply andb_false_r.
      * fold numbers in Hcount; rewrite Hcount; reflexivity.
    + rewrite Ht; cbn [bind]; eexists; reflexivity.
  - intros Hcount Hnd (e & He & Hlt).
    assert (Hall : first_pass = coded).
    { unfold first_pass; apply drop_duplicates_distinct; [|intros x _ []].
      unfold coded; rewrite <- (map_map e_geometry Some).
      apply Finite.Injective_map_NoDup; [intros a b H; injection H; auto|].
      rewrite map_map.
      rewrite (map_ext (fun x => e_geometry (with_coords line_length numbers x)) e_geometry);
        [exact Hnd|].
      intro x; apply with_coords_fields. }
    rewrite Hall, (apply_rows_raises (fun e => tuple (e_coords e)) TypeError);
      [reflexivity| |].
    + intros x Hx; destruct (Hcoded x Hx) as (a & _ & ->).
      destruct (with_coords_tuple numbers a) as [Hlist Hnumber].
      destruct (numbers && (e_v a <? e_u a)) eqn:E;
        [left; apply Hnumber; reflexivity | right; eexists; apply Hlist; reflexivity].
    + exists (with_coords line_length numbers e); split; [apply in_map; exact He|].
      apply with_coords_tuple; fold numbers in Hcount; rewrite Hcount.
      apply Z.ltb_lt in Hlt; rewrite Hlt; reflexivity.
Qed.
End Geometries.

Lemma drop_duplicate_geometries_result_witness :
  (exists out, drop_duplicate_geometries rectilinear_length ring_edges = Ok out /\
               map streetID out = [0; 1; 2] /\
               map ordered_coords out
               = [[pt 0 0; pt 1 0]; [pt 1 0; pt 1 1]; [pt 0 0; pt 0 1; pt 1 1]]) /\
  drop_duplicate_geometries rectilinear_length chain_edges = Raise TypeError.
Proof.
  destruct (drop_duplicate_geometries_result rectilinear_length ring_edges)
    as (_ & Hreturns & _).
  destruct (drop_duplicate_geometries_result rectilinear_length chain_edges)
    as (_ & _ & Hraises).
  split.
  - destruct Hreturns as (out & Hout); [right; reflexivity|].
    exists out; split; [exact Hout|].
    vm_compute in Hout; injection Hout as <-; split; reflexivity.
  - apply Hraises; [reflexivity | distinct|].
    exists (street 1 2 1 [pt 2 0; pt 1 0]); split; [simpl; auto | simpl; lia].
Defined.

(** ** The loop *)

Lemma fix_dead_ends_nodes (nodes nodes1 : list Node) (edges edges1 : list Edge) :
  fix_dead_ends nodes edges = Ok (nodes1, edges1) -> forall n, In n nodes1 -> In n nodes.
Proof.
  unfold fix_dead_ends; intros H n Hn.
  destruct (with_degree 1 edges); [injection H as <- _; exact Hn|].
  apply bind_Ok in H as (n1 & Hd & H); injection H as <- _.
  apply drop_nodes_Ok in Hd; subst n1; apply filter_In in Hn; tauto.
Qed.

Section Cleaning.
Variable line_length : LineString -> float.
Variable center_line : LineString -> LineString -> LineString.

Lemma cycle_body_nodes (dead_ends same_uv ud : bool) (dc : option string)
    (nodes nodes1 : list Node) (edges edges1 : list Edge) :
  cycle_body line_length center_line dead_ends same_uv ud dc (nodes, edges)
  = Ok (nodes1, edges1) ->
  forall n, In n nodes1 -> In n nodes.
Proof.
  unfold cycle_body; intros H n Hn.
  apply bind_Ok in H as (e1 & _ & H).
  apply bind_Ok in H as (e2 & _ & H).
  apply bind_Ok in H as ([n2 e3] & H3 & H).
  apply simplify_graph_nodes in H as [Hsub _]; apply Hsub in Hn.
  destruct dead_ends.
  - apply (fix_dead_ends_nodes _ _ _ _ H3) in Hn; apply filter_In in Hn; tauto.
  - injection H3 as <- _; apply filter_In in Hn; tauto.
Qed.

Lemma convergence_loop_exit (fuel : nat) (dead_ends same_uv ud : bool)
    (dc : option string) :
  forall (nodes : list Node) (edges : list Edge) (cycle : Z)
         (nodes1 : list Node) (edges1 : list Edge) (cycle1 : Z),
    convergence_loop line_length center_line fuel dead_ends same_uv ud dc
                     nodes edges cycle = Ok (Some (nodes1, edges1, cycle1)) ->
    (forall n, In n nodes1 -> In n nodes) /\
    (exists last, is_edges_simplified last = (true, edges1)) /\
    is_nodes_simplified edges1 = true /\
    0 <= cycle1 - cycle <= Z.of_nat fuel - 1.
Proof.
  induction fuel as [|fuel IH]; intros nodes edges cycle nodes1 edges1 cycle1 H;
    cbn [convergence_loop] in H; [discriminate H|].
  destruct (is_edges_simplified edges) as [simplified e1] eqn:E.
  destruct simplified, (is_nodes_simplified e1) eqn:N; cbn [negb orb] in H.
  - injection H as <- <- <-; split; [auto|]; split; [exists edges; exact E|].
    split; [exact N | lia].
  - apply bind_Ok in H as ([n2 e2] & H2 & H).
    destruct (IH _ _ _ _ _ _ H) as (Hsub & Hlast & Hn & Hc).
    split; [|split; [exact Hlast|split; [exact Hn | lia]]].
    intros n Hin; apply (cycle_body_nodes _ _ _ _ _ _ _ _ H2), Hsub, Hin.
  - apply bind_Ok in H as ([n2 e2] & H2 & H).
    destruct (IH _ _ _ _ _ _ H) as (Hsub & Hlast & Hn & Hc).
    split; [|split; [exact Hlast|split; [exact Hn | lia]]].
    intros n Hin; apply (cycle_body_nodes _ _ _ _ _ _ _ _ H2), Hsub, Hin.
  - apply bind_Ok in H as ([n2 e2] & H2 & H).
    destruct (IH _ _ _ _ _ _ H) as (Hsub & Hlast & Hn & Hc).
    split; [|split; [exact Hlast|split; [exact Hn | lia]]].
    intros n Hin; apply (cycle_body_nodes _ _ _ _ _ _ _ _ H2), Hsub, Hin.
Qed.

(** X20.  The tables with which the loop of lines 292 to 351 ends, when
    it ends without an exception: no two edges join the same pair of nodes
    and no node has degree two; every node is a node that entered the loop;
    every edge carries the [streetID] and the road type of an edge that
    entered it; distinct [streetID]s have stayed distinct, and no loop has
    come up in a table that had none; and the loop condition was evaluated
    once more than the body was run. *)
Theorem convergence_loop_result (fuel : nat) (dead_ends same_uv ud : bool)
    (dc : option string) (nodes nodes1 : list Node) (edges edges1 : list Edge)
    (cycles : Z) :
  convergence_loop line_length center_line fuel dead_ends same_uv ud dc
                   nodes edges 0 = Ok (Some (nodes1, edges1, cycles)) ->
  NoDup (map canonical edges1) /\
  (forall k, degree k edges1 <> 2) /\
  (forall n, In n nodes1 -> In n nodes) /\
  (forall x, In x edges1 ->
     exists e, In e edges /\ streetID x = streetID e /\ e_highway x = e_highway e) /\
  (NoDup (map streetID edges) -> NoDup (map streetID edges1)) /\
  (NoDup (map streetID edges) -> Forall no_loop edges -> Forall no_loop edges1) /\
  0 <= cycles <= Z.of_nat fuel - 1.
Proof.
  intro H.
  destruct (convergence_loop_exit _ _ _ _ _ _ _ _ _ _ _ H)
    as (Hsub & (last & Hlast) & Hn & Hc).
  pose proof (convergence_loop_kept _ _ _ _ _ _ _ _ _ _ _ _ _ H) as Hk.
  split; [|split; [|split; [|split; [|split; [|split]]]]].
  - assert (Hl : fst (is_edges_simplified last) = true) by (rewrite Hlast; reflexivity).
    apply edges_simplified_NoDup in Hl.
    assert (Hcodes : map canonical edges1 = map canonical last).
    { assert (He : edges1 = snd (is_edges_simplified last))
        by (rewrite Hlast; reflexivity).
      rewrite He; unfold is_edges_simplified.
      destruct (shared_codes _); cbn [snd]; unfold assign_code; rewrite !map_map;
        reflexivity. }
    rewrite Hcodes; exact Hl.
  - intros k Hk2; unfold is_nodes_simplified in Hn.
    apply (with_degree_iff 2) in Hk2; [|lia].
    destruct (with_degree 2 edges1); [destruct Hk2 | discriminate Hn].
  - exact Hsub.
  - intros x Hx; destruct (kept_In _ _ _ _ Hk Hx) as (e & He & Hs & Hh).
    exists e; auto.
  - intro Hnd; apply (kept_labels _ _ _ same_street_label Hk Hnd).
  - intros Hnd Hl.
    apply (convergence_loop_sound _ _ _ _ _ _ _ _ _ _ _ _ _ (conj Hnd Hl) H).
  - lia.
Qed.

(** X22.  With [same_uv_edges] set, the loop of lines 292 to 351 ends on
    every table of distinct [streetID]s without a loop: by the time its
    condition has been evaluated once more than the table has edges, it has
    left the loop or raised. *)
Theorem convergence_loop_terminates (fuel : nat) (dead_ends ud : bool)
    (dc : option string) (nodes : list Node) (edges : list Edge) (cycle : Z) :
  NoDup (map streetID edges) -> Forall no_loop edges ->
  (List.length edges < fuel)%nat ->
  convergence_loop line_length center_line fuel dead_ends true ud dc nodes edges cycle
  <> Ok None.
Proof. intros Hnd Hl Hfuel; apply convergence_loop_ends; assumption. Qed.

(** X23.  Every call of [clean_network] raises before its loop:
    [ValueError] on a node table without rows (line 276) and [NameError] on
    every other (line 279), whatever the edges and the options; it returns
    no tables and is never still running. *)
Theorem clean_network_raises_before_its_loop (fuel : nat) (highway_column : bool)
    (nodes : list Node) (edges : list Edge)
    (dead_ends remove same_uv ud : bool) (dc : option string) :
  (nodes = [] ->
   clean_network line_length center_line fuel highway_column nodes edges
                 dead_ends remove same_uv ud dc = Raise ValueError) /\
  (nodes <> [] ->
   clean_network line_length center_line fuel highway_column nodes edges
                 dead_ends remove same_uv ud dc = Raise NameError) /\
  (forall r,
     clean_network line_length center_line fuel highway_column nodes edges
                   dead_ends remove same_uv ud dc <> Ok r).
Proof.
  destruct (clean_network_raises line_length center_line fuel highway_column nodes edges
              dead_ends remove same_uv ud dc) as [Hempty Hrows].
  split; [exact Hempty|]; split; [exact Hrows|].
  intro r; destruct nodes as [|n rest];
    [rewrite (Hempty eq_refl) | rewrite Hrows]; discriminate.
Qed.
End Cleaning.

Lemma convergence_loop_result_witness :
  exists nodes1 edges1 cycles,
    convergence_loop rectilinear_length between 5 false true false None
                     pair_nodes [direct; near; detour] 0
    = Ok (Some (nodes1, edges1, cycles)) /\
    map streetID edges1 = [0] /\ cycles = 1 /\
    NoDup (map canonical edges1) /\
    (forall k, degree k edges1 <> 2) /\
    (forall n, In n nodes1 -> In n pair_nodes) /\
    (forall x, In x edges1 ->
       exists e, In e [direct; near; detour] /\ streetID x = streetID e /\
                 e_highway x = e_highway e) /\
    (NoDup (map streetID [direct; near; detour]) -> NoDup (map streetID edges1)) /\
    (NoDup (map streetID [direct; near; detour]) ->
     Forall no_loop [direct; near; detour] -> Forall no_loop edges1) /\
    0 <= cycles <= Z.of_nat 5 - 1.
Proof.
  eexists; eexists; eexists; split; [vm_compute; reflexivity|].
  split; [reflexivity|]; split; [reflexivity|].
  eapply (convergence_loop_result rectilinear_length between 5 false true false None
            pair_nodes _ [direct; near; detour] _ _).
  vm_compute; reflexivity.
Defined.

Lemma convergence_loop_terminates_witness :
  convergence_loop rectilinear_length between 4 false true false None
                   pair_nodes [direct; near; detour] 0
  <> Ok None.
Proof.
  apply (convergence_loop_terminates rectilinear_length between 4 false false None
           pair_nodes [direct; near; detour] 0).
  - distinct.
  - distinct.
  - simpl; lia.
Defined.
